(** * mtprotoproxy: the obfuscated2 relay of [mtprotoproxy.py]

    A shallow embedding of the handshake acceptor, the upstream handshake
    initiator, the stream wrappers, the pumps and the per-user counters,
    followed by the properties proved about them. *)

From Stdlib Require Import ZArith List Lia Bool Ascii String.
From stdpp Require Import gmap strings list fin_maps.
Import ListNotations.

Open Scope Z_scope.

(** ** Bytes *)

(** A Python [bytes] or [bytearray] value: the list of its items, each an
    integer in [0, 256). *)
Definition bytes := list Z.

(** [x[a:b]] for [0 <= a <= b]. *)
Definition slice (x : bytes) (a b : nat) : bytes := firstn (b - a) (skipn a x).

(** [x == y] on byte strings. *)
Fixpoint bytes_eqb (x y : bytes) : bool :=
  match x, y with
  | [], [] => true
  | a :: x', b :: y' => (a =? b) && bytes_eqb x' y'
  | _, _ => false
  end.

(** [x in l] for a list [l] of byte strings. *)
Definition bytes_in (x : bytes) (l : list bytes) : bool := existsb (bytes_eqb x) l.

(** [int.from_bytes(b, "big")]. *)
Definition int_from_bytes_big (b : bytes) : Z :=
  fold_left (fun acc x => acc * 256 + x) b 0.

(** [int.from_bytes(b, "little")]. *)
Definition int_from_bytes_little (b : bytes) : Z :=
  fold_right (fun x acc => x + 256 * acc) 0 b.

(** [int.from_bytes(b, "little", signed=True)]: two's complement on
    [8 * len(b)] bits. *)
Definition int_from_bytes_little_signed (b : bytes) : Z :=
  let v := int_from_bytes_little b in
  let w := 8 * Z.of_nat (length b) in
  if (w =? 0) then 0
  else if (v <? 2 ^ (w - 1)) then v else v - 2 ^ w.

(** ** Library primitives

    SHA-256, the AES block encryption and [bytes.fromhex] come from
    [hashlib], from the AES package and from the interpreter.  The relay
    only relies on the size of their results. *)
Class Primitives := {
  sha256 : bytes -> bytes;
  sha256_length : forall m, length (sha256 m) = 32%nat;
  aes_encrypt : bytes -> bytes -> bytes;
  aes_encrypt_length : forall k b, length (aes_encrypt k b) = 16%nat;
  fromhex : string -> option bytes
}.

(** ** The CTR cipher object built by [create_aes]

    Both AES packages give a stream cipher: the object keeps the key, a
    128-bit big-endian counter and the keystream bytes already produced
    but not yet used.  [encrypt] tops the unused keystream up block by
    block until it covers the input, XORs, and keeps what is left for the
    next call, as [pyaes.AESModeOfOperationCTR.encrypt] does.  The counter
    wraps to zero after [2^128 - 1], as [pyaes.Counter.increment] does;
    the counter of [Crypto.Util.Counter.new(128, ...)] raises instead of
    wrapping, so the two packages agree on every run in which the counter
    stays below [2^128]. *)
Definition COUNTER_MODULUS : Z := 2 ^ 128.

Record aes_ctr := {
  key : bytes;
  counter : Z;
  remaining : bytes
}.

(** The counter as the 16 bytes handed to the block cipher:
    [(value >> i) % 256] for [i = 120, 112, ..., 0]. *)
Definition counter_block (c : Z) : bytes :=
  map (fun i => Z.shiftr c (8 * Z.of_nat i) mod 256) (rev (seq 0 16)).

(** One increment of the counter, wrapping to zero after [2^128 - 1]. *)
Definition increment (c : Z) : Z := (c + 1) mod COUNTER_MODULUS.

Definition xor_bytes (a b : bytes) : bytes := zip_with Z.lxor a b.

Section Cipher.
Context `{Primitives}.

Definition create_aes (k : bytes) (iv : Z) : aes_ctr :=
  {| key := k; counter := iv mod COUNTER_MODULUS; remaining := [] |}.

(** [while len(remaining) < n: remaining += aes(counter); counter++].
    Every round adds 16 bytes, so [n] rounds of fuel are never used up. *)
Fixpoint refill (fuel : nat) (k : bytes) (c : Z) (rem : bytes) (n : nat)
  : Z * bytes :=
  match fuel with
  | O => (c, rem)
  | S fuel' =>
      if (length rem <? n)%nat
      then refill fuel' k (increment c) (rem ++ aes_encrypt k (counter_block c)) n
      else (c, rem)
  end.

Definition encrypt (st : aes_ctr) (plaintext : bytes) : bytes * aes_ctr :=
  let n := length plaintext in
  let '(c, rem) := refill n (key st) (counter st) (remaining st) n in
  let encrypted := xor_bytes plaintext rem in
  (encrypted,
   {| key := key st; counter := c; remaining := skipn (length encrypted) rem |}).

(** CTR decryption is the same operation. *)
Definition decrypt (st : aes_ctr) (crypttext : bytes) : bytes * aes_ctr :=
  encrypt st crypttext.

(** Successive calls on one cipher object; the outputs in order. *)
Fixpoint encrypt_chunks (st : aes_ctr) (chunks : list bytes)
  : list bytes * aes_ctr :=
  match chunks with
  | [] => ([], st)
  | x :: rest =>
      let '(y, st1) := encrypt st x in
      let '(ys, st2) := encrypt_chunks st1 rest in
      (y :: ys, st2)
  end.

Definition decrypt_chunks := encrypt_chunks.

(** The keystream of [m] successive counter blocks starting at [c]. *)
Fixpoint keystream_blocks (k : bytes) (c : Z) (m : nat) : bytes :=
  match m with
  | O => []
  | S m' => aes_encrypt k (counter_block c) ++ keystream_blocks k (increment c) m'
  end.

(** Number of fresh blocks a call on [n] bytes draws when [r] keystream
    bytes are left over: [ceil((n - r) / 16)], zero when [n <= r]. *)
Definition blocks_needed (r n : nat) : nat := ((n - r + 15) / 16)%nat.

(** The counter after [m] increments. *)
Definition advance (c : Z) (m : nat) : Z := Nat.iter m increment c.
End Cipher.

(** ** Exceptions and results *)

(** The exception classes the relay can meet.  [OSError] stands for an
    [OSError] that is none of its three listed subclasses (a timeout, an
    unreachable host); [OtherException] for anything unrelated. *)
Inductive exn :=
| IncompleteReadError
| ConnectionResetError
| BrokenPipeError
| ConnectionRefusedError
| OSError
| AttributeError
| ValueError
| OtherException.

(** [isinstance(e, OSError)]. *)
Definition is_OSError (e : exn) : bool :=
  match e with
  | ConnectionResetError | BrokenPipeError | ConnectionRefusedError | OSError => true
  | _ => false
  end.

(** What running a coroutine gives: a value, an exception, or [Pending]
    when the sampling loop of the upstream handshake has used up the
    random draws it was given without settling. *)
Inductive result (A : Type) :=
| Ok (a : A)
| Raise (e : exn)
| Pending.
Arguments Ok {A} a.
Arguments Raise {A} e.
Arguments Pending {A}.

(** ** Constants and configuration *)

Definition TG_DATACENTER_PORT : Z := 443.

Definition TG_DATACENTERS_V4 : list string :=
  ["149.154.175.50"; "149.154.167.51"; "149.154.175.100";
   "149.154.167.91"; "149.154.171.5"]%string.

Definition TG_DATACENTERS_V6 : list string :=
  ["2001:b28:f23d:f001::a"; "2001:67c:04e8:f002::a"; "2001:b28:f23d:f003::a";
   "2001:67c:04e8:f004::a"; "2001:b28:f23f:f005::a"]%string.

Definition USE_MIDDLE_PROXY : bool := false.

Definition SKIP_LEN : nat := 8.
Definition PREKEY_LEN : nat := 32.
Definition KEY_LEN : nat := 32.
Definition IV_LEN : nat := 16.
Definition HANDSHAKE_LEN : nat := 64.
Definition MAGIC_VAL_POS : nat := 56.

Definition MAGIC_VAL_TO_CHECK : bytes := [239; 239; 239; 239].

(** The settings read from [config]; [USERS] lists the items of the
    dictionary (name, secret in hexadecimal) in iteration order. *)
Record config := {
  PORT : Z;
  USERS : list (string * string);
  PREFER_IPV6 : bool;
  FAST_MODE : bool;
  STATS_PRINT_PERIOD : Z;
  READ_BUF_SIZE : Z
}.

(** ** Per-user statistics *)

(** A [collections.Counter] with the three keys the relay uses; a key
    never touched counts as zero. *)
Record Counter := {
  connects : Z;
  curr_connects_x2 : Z;
  octets : Z
}.

Definition empty_counter : Counter :=
  {| connects := 0; curr_connects_x2 := 0; octets := 0 |}.

Definition init_stats (users : list (string * string)) : gmap string Counter :=
  list_to_map (map (fun ux => (fst ux, empty_counter)) users).

Definition update_stats (user : string) (connects' curr_connects_x2' octets' : Z)
    (stats : gmap string Counter) : gmap string Counter :=
  let stats :=
    match stats !! user with
    | None => <[user := empty_counter]> stats
    | Some _ => stats
    end in
  match stats !! user with
  | Some c =>
      <[user := {| connects := connects c + connects';
                   curr_connects_x2 := curr_connects_x2 c + curr_connects_x2';
                   octets := octets c + octets' |}]> stats
  | None => stats
  end.

(** [stats[user]["curr_connects_x2"]], zero for an unknown user. *)
Definition current_x2 (stats : gmap string Counter) (user : string) : Z :=
  match stats !! user with
  | Some c => curr_connects_x2 c
  | None => 0
  end.

(** ** Streams, events and wrappers *)

Inductive stream_id := Client | Upstream.

(** The calls made on the transports, in order. *)
Inductive event :=
| EvReadExactly (s : stream_id) (n : nat)
| EvRead (s : stream_id) (n : Z)
| EvWrite (s : stream_id) (data : bytes)
| EvWriteEof (s : stream_id)
| EvDrain (s : stream_id)
| EvClose (s : stream_id)
| EvConnect (host : string) (port : Z).

(** The cipher slot of a wrapper: a CTR object, or the identity put in
    its place in fast mode ([FakeEncryptor], [FakeDecryptor]). *)
Inductive cipher :=
| AesCtr (st : aes_ctr)
| Fake.

Record CryptoWrappedStreamReader := {
  rd_stream : stream_id;
  decryptor : cipher
}.

Record CryptoWrappedStreamWriter := {
  wr_stream : stream_id;
  encryptor : cipher
}.

(** [reader.readexactly(n)] on a stream that delivers [input]: the bytes
    the peer sends before it stops, or the fault of the transport. *)
Definition readexactly (input : result bytes) (n : nat) : result bytes :=
  match input with
  | Ok b => if (n <=? length b)%nat then Ok (firstn n b) else Raise IncompleteReadError
  | Raise e => Raise e
  | Pending => Pending
  end.

(** [rnd[a:b] = v] on a bytearray. *)
Definition set_slice (rnd : bytes) (a b : nat) (v : bytes) : bytes :=
  firstn a rnd ++ v ++ skipn b rnd.

Definition RESERVED_NONCE_FIRST_CHARS : list bytes := [[239]].
Definition RESERVED_NONCE_BEGININGS : list bytes :=
  [[72; 69; 65; 68]; [80; 79; 83; 84]; [71; 69; 84; 32]; [238; 238; 238; 238]].
Definition RESERVED_NONCE_CONTINUES : list bytes := [[0; 0; 0; 0]].

(** The sampling loop of [do_direct_handshake] over the successive
    random draws; [None] when every draw given was rejected. *)
Fixpoint sample_preamble (draws : list bytes) : option bytes :=
  match draws with
  | [] => None
  | rnd :: rest =>
      if bytes_in (firstn 1 rnd) RESERVED_NONCE_FIRST_CHARS then sample_preamble rest
      else if bytes_in (firstn 4 rnd) RESERVED_NONCE_BEGININGS then sample_preamble rest
      else if bytes_in (slice rnd 4 8) RESERVED_NONCE_CONTINUES then sample_preamble rest
      else Some rnd
  end.

(** The preamble [do_direct_handshake] settles on: the accepted draw with
    the magic written at 56..60 and, when a non-empty [dec_key_and_iv] is
    passed, its reversal written at 8..56. *)
Definition upstream_preamble (dec_key_and_iv : option bytes) (draws : list bytes)
  : option bytes :=
  match sample_preamble draws with
  | None => None
  | Some rnd =>
      let rnd := set_slice rnd MAGIC_VAL_POS (MAGIC_VAL_POS + 4) MAGIC_VAL_TO_CHECK in
      let rnd :=
        match dec_key_and_iv with
        | Some (b :: reuse) =>
            set_slice rnd SKIP_LEN (SKIP_LEN + KEY_LEN + IV_LEN) (rev (b :: reuse))
        | _ => rnd
        end in
      Some rnd
  end.

(** What the network and the random source give one upstream handshake. *)
Record upstream_env := {
  connect_result : string -> result unit;
  random_draws : list bytes;
  write_result : result unit;
  drain_result : result unit
}.

(** What [handle_handshake] returns on a match. *)
Record handshake_ok := {
  hs_reader : CryptoWrappedStreamReader;
  hs_writer : CryptoWrappedStreamWriter;
  hs_user : string;
  hs_dc_idx : Z;
  hs_enc_key_and_iv : bytes
}.

Section Wrappers.
Context `{Primitives}.

Definition cipher_encrypt (c : cipher) (data : bytes) : bytes * cipher :=
  match c with
  | AesCtr st => let '(out, st') := encrypt st data in (out, AesCtr st')
  | Fake => (data, Fake)
  end.

Definition cipher_decrypt (c : cipher) (data : bytes) : bytes * cipher :=
  match c with
  | AesCtr st => let '(out, st') := decrypt st data in (out, AesCtr st')
  | Fake => (data, Fake)
  end.

(** [CryptoWrappedStreamReader.read]: the decryption of what the
    underlying [stream.read(n)] returned. *)
Definition reader_read (rd : CryptoWrappedStreamReader) (underlying : result bytes)
  : result bytes * CryptoWrappedStreamReader :=
  match underlying with
  | Ok raw =>
      let '(data, d) := cipher_decrypt (decryptor rd) raw in
      (Ok data, {| rd_stream := rd_stream rd; decryptor := d |})
  | Raise e => (Raise e, rd)
  | Pending => (Pending, rd)
  end.

(** [CryptoWrappedStreamWriter.write]: the bytes handed to the
    underlying [stream.write]. *)
Definition writer_write (wr : CryptoWrappedStreamWriter) (data : bytes)
  : bytes * CryptoWrappedStreamWriter :=
  let '(out, e) := cipher_encrypt (encryptor wr) data in
  (out, {| wr_stream := wr_stream wr; encryptor := e |}).

(** ** The client handshake *)

(** The body of [for user in USERS] on the 64 bytes read. *)
Fixpoint handle_handshake_users (handshake : bytes) (reader writer : stream_id)
    (users : list (string * string)) : result (option handshake_ok) :=
  match users with
  | [] => Ok None
  | (user, hex) :: rest =>
      match fromhex hex with
      | None => Raise ValueError
      | Some secret =>
          let dec_prekey_and_iv :=
            slice handshake SKIP_LEN (SKIP_LEN + PREKEY_LEN + IV_LEN) in
          let dec_prekey := firstn PREKEY_LEN dec_prekey_and_iv in
          let dec_iv := skipn PREKEY_LEN dec_prekey_and_iv in
          let dec_key := sha256 (dec_prekey ++ secret) in
          let decryptor0 := create_aes dec_key (int_from_bytes_big dec_iv) in
          let enc_prekey_and_iv :=
            rev (slice handshake SKIP_LEN (SKIP_LEN + PREKEY_LEN + IV_LEN)) in
          let enc_prekey := firstn PREKEY_LEN enc_prekey_and_iv in
          let enc_iv := skipn PREKEY_LEN enc_prekey_and_iv in
          let enc_key := sha256 (enc_prekey ++ secret) in
          let encryptor0 := create_aes enc_key (int_from_bytes_big enc_iv) in
          let '(decrypted, decryptor1) := decrypt decryptor0 handshake in
          let check_val := slice decrypted MAGIC_VAL_POS (MAGIC_VAL_POS + 4) in
          if negb (bytes_eqb check_val MAGIC_VAL_TO_CHECK)
          then handle_handshake_users handshake reader writer rest
          else
            let dc_idx :=
              Z.abs (int_from_bytes_little_signed (slice decrypted 60 62)) - 1 in
            Ok (Some {| hs_reader := {| rd_stream := reader; decryptor := AesCtr decryptor1 |};
                        hs_writer := {| wr_stream := writer; encryptor := AesCtr encryptor0 |};
                        hs_user := user;
                        hs_dc_idx := dc_idx;
                        hs_enc_key_and_iv := enc_key ++ enc_iv |})
      end
  end.

Definition handle_handshake (users : list (string * string))
    (reader writer : stream_id) (input : result bytes)
  : result (option handshake_ok) * list event :=
  match readexactly input HANDSHAKE_LEN with
  | Ok handshake =>
      (handle_handshake_users handshake reader writer users,
       [EvReadExactly reader HANDSHAKE_LEN])
  | Raise e => (Raise e, [EvReadExactly reader HANDSHAKE_LEN])
  | Pending => (Pending, [EvReadExactly reader HANDSHAKE_LEN])
  end.
End Wrappers.

(** ** The pumps *)

(** Where a pump stands: not yet run, suspended on one stream operation,
    or finished (with the exception that left it, if any). *)
Inductive pump_pc :=
| NotStarted
| Reading
| WritingEof
| DrainingEof
| Writing (data : bytes)
| Draining
| Finished (raised : option exn).

Record pump_state := {
  rd : CryptoWrappedStreamReader;
  wr : CryptoWrappedStreamWriter;
  user : string;
  pc : pump_pc
}.

Definition set_pc (p : pump_state) (l : pump_pc) : pump_state :=
  {| rd := rd p; wr := wr p; user := user p; pc := l |}.

(** A pump has entered and not yet left [connect_reader_to_writer]. *)
Definition alive (p : pump_state) : bool :=
  match pc p with
  | NotStarted | Finished _ => false
  | _ => true
  end.

(** [except (ConnectionResetError, BrokenPipeError, OSError, AttributeError)]. *)
Definition caught_by_pump (e : exn) : bool :=
  match e with
  | ConnectionResetError | BrokenPipeError | AttributeError => true
  | _ => is_OSError e
  end.

(** [except (asyncio.IncompleteReadError, ConnectionResetError)]. *)
Definition caught_by_wrapper (e : exn) : bool :=
  match e with
  | IncompleteReadError | ConnectionResetError => true
  | _ => false
  end.

(** What one run of [handle_client] leaves behind: how it ended, the
    calls it made, the statistics and the pumps it scheduled. *)
Record client_run := {
  run_result : result unit;
  run_trace : list event;
  run_stats : gmap string Counter;
  run_pumps : list pump_state
}.

Record client_env := {
  client_input : result bytes;
  upstream : upstream_env
}.

(** All the pumps of the process and the statistics they share. *)
Record system := {
  sys_stats : gmap string Counter;
  sys_pumps : list pump_state
}.

Section Relay.
Context `{Primitives}.
Variable cfg : config.

(** ** The upstream handshake *)

Definition do_direct_handshake (dc_idx : Z) (dec_key_and_iv : option bytes)
    (env : upstream_env)
  : result (option (CryptoWrappedStreamReader * CryptoWrappedStreamWriter))
    * list event :=
  let dc_choice :=
    if PREFER_IPV6 cfg then
      if negb ((0 <=? dc_idx) && (dc_idx <? Z.of_nat (length TG_DATACENTERS_V6)))
      then None
      else Some (nth (Z.to_nat dc_idx) TG_DATACENTERS_V6 EmptyString)
    else
      if negb ((0 <=? dc_idx) && (dc_idx <? Z.of_nat (length TG_DATACENTERS_V4)))
      then None
      else Some (nth (Z.to_nat dc_idx) TG_DATACENTERS_V4 EmptyString) in
  match dc_choice with
  | None => (Ok None, [])
  | Some dc =>
      let opened := [EvConnect dc TG_DATACENTER_PORT] in
      match connect_result env dc with
      | Raise e => if is_OSError e then (Ok None, opened) else (Raise e, opened)
      | Pending => (Pending, opened)
      | Ok _ =>
          match upstream_preamble dec_key_and_iv (random_draws env) with
          | None => (Pending, opened)
          | Some rnd =>
              let dec_key_and_iv :=
                rev (slice rnd SKIP_LEN (SKIP_LEN + KEY_LEN + IV_LEN)) in
              let dec_key := firstn KEY_LEN dec_key_and_iv in
              let dec_iv := skipn KEY_LEN dec_key_and_iv in
              let decryptor0 := create_aes dec_key (int_from_bytes_big dec_iv) in
              let enc_key_and_iv :=
                slice rnd SKIP_LEN (SKIP_LEN + KEY_LEN + IV_LEN) in
              let enc_key := firstn KEY_LEN enc_key_and_iv in
              let enc_iv := skipn KEY_LEN enc_key_and_iv in
              let encryptor0 := create_aes enc_key (int_from_bytes_big enc_iv) in
              let '(encrypted, encryptor1) := encrypt encryptor0 rnd in
              let rnd_enc := firstn MAGIC_VAL_POS rnd ++ skipn MAGIC_VAL_POS encrypted in
              let written := opened ++ [EvWrite Upstream rnd_enc] in
              match write_result env with
              | Raise e => (Raise e, written)
              | Pending => (Pending, written)
              | Ok _ =>
                  let drained := written ++ [EvDrain Upstream] in
                  match drain_result env with
                  | Raise e => (Raise e, drained)
                  | Pending => (Pending, drained)
                  | Ok _ =>
                      (Ok (Some ({| rd_stream := Upstream; decryptor := AesCtr decryptor0 |},
                                 {| wr_stream := Upstream; encryptor := AesCtr encryptor1 |})),
                       drained)
                  end
              end
          end
      end
  end.

(** ** One pump: [connect_reader_to_writer] *)

(** Entry: [update_stats(user, curr_connects_x2=1)], then the first read. *)
Definition pump_enter (p : pump_state) (stats : gmap string Counter)
  : pump_state * gmap string Counter :=
  (set_pc p Reading, update_stats (user p) 0 1 0 stats).

(** An exception [e] inside the [try]: the [except] clause when it
    applies, then the [finally] clause. *)
Definition pump_except (p : pump_state) (e : exn) (stats : gmap string Counter)
    (evs : list event) : pump_state * gmap string Counter * list event :=
  if caught_by_pump e
  then (set_pc p (Finished None), update_stats (user p) 0 (-1) 0 stats,
        evs ++ [EvClose (wr_stream (wr p))])
  else (set_pc p (Finished (Some e)), update_stats (user p) 0 (-1) 0 stats, evs).

(** One stream operation of the pump together with the code up to the
    next one.  [io] is what the operation gives back: [Ok b] with the
    bytes read ([b] is not looked at for the other operations) or the
    exception it raises. *)
Definition pump_step (p : pump_state) (io : result bytes)
    (stats : gmap string Counter)
  : pump_state * gmap string Counter * list event :=
  match io, pc p with
  | Pending, _ | _, NotStarted | _, Finished _ => (p, stats, [])
  | _, Reading =>
      let ev := [EvRead (rd_stream (rd p)) (READ_BUF_SIZE cfg)] in
      match reader_read (rd p) io with
      | (Ok [], rd') =>
          ({| rd := rd'; wr := wr p; user := user p; pc := WritingEof |}, stats, ev)
      | (Ok data, rd') =>
          ({| rd := rd'; wr := wr p; user := user p; pc := Writing data |},
           update_stats (user p) 0 0 (Z.of_nat (length data)) stats, ev)
      | (Raise e, _) => pump_except p e stats ev
      | (Pending, _) => (p, stats, [])
      end
  | Ok _, WritingEof =>
      (set_pc p DrainingEof, stats, [EvWriteEof (wr_stream (wr p))])
  | Raise e, WritingEof =>
      pump_except p e stats [EvWriteEof (wr_stream (wr p))]
  | Ok _, DrainingEof =>
      (set_pc p (Finished None), update_stats (user p) 0 (-1) 0 stats,
       [EvDrain (wr_stream (wr p)); EvClose (wr_stream (wr p))])
  | Raise e, DrainingEof =>
      pump_except p e stats [EvDrain (wr_stream (wr p))]
  | _, Writing data =>
      let '(out, wr') := writer_write (wr p) data in
      let p' := {| rd := rd p; wr := wr'; user := user p; pc := Draining |} in
      match io with
      | Raise e => pump_except p' e stats [EvWrite (wr_stream (wr p)) out]
      | _ => (p', stats, [EvWrite (wr_stream (wr p)) out])
      end
  | Ok _, Draining => (set_pc p Reading, stats, [EvDrain (wr_stream (wr p))])
  | Raise e, Draining => pump_except p e stats [EvDrain (wr_stream (wr p))]
  end.

(** A pump run against a script of operation results. *)
Fixpoint pump_run (p : pump_state) (stats : gmap string Counter)
    (script : list (result bytes))
  : pump_state * gmap string Counter * list event :=
  match script with
  | [] => (p, stats, [])
  | io :: rest =>
      let '(p1, stats1, ev1) := pump_step p io stats in
      let '(p2, stats2, ev2) := pump_run p1 stats1 rest in
      (p2, stats2, ev1 ++ ev2)
  end.

Definition connect_reader_to_writer (rd0 : CryptoWrappedStreamReader)
    (wr0 : CryptoWrappedStreamWriter) (user0 : string)
    (stats : gmap string Counter) (script : list (result bytes))
  : pump_state * gmap string Counter * list event :=
  let '(p, stats1) :=
    pump_enter {| rd := rd0; wr := wr0; user := user0; pc := NotStarted |} stats in
  pump_run p stats1 script.

(** The reactor runs the scheduled pumps in any order, one operation at
    a time. *)
Inductive sys_step : system -> system -> Prop :=
| step_enter (s : system) (i : nat) (p : pump_state) :
    sys_pumps s !! i = Some p ->
    pc p = NotStarted ->
    sys_step s {| sys_stats := snd (pump_enter p (sys_stats s));
                  sys_pumps := <[i := fst (pump_enter p (sys_stats s))]> (sys_pumps s) |}
| step_io (s : system) (i : nat) (p : pump_state) (io : result bytes) :
    sys_pumps s !! i = Some p ->
    sys_step s {| sys_stats := snd (fst (pump_step p io (sys_stats s)));
                  sys_pumps := <[i := fst (fst (pump_step p io (sys_stats s)))]> (sys_pumps s) |}.

Inductive sys_steps : system -> system -> Prop :=
| steps_refl (s : system) : sys_steps s s
| steps_cons (s1 s2 s3 : system) :
    sys_steps s1 s2 -> sys_step s2 s3 -> sys_steps s1 s3.

(** ** The supervisor *)

Definition handle_client (reader_clt writer_clt : stream_id) (env : client_env)
    (stats : gmap string Counter) : client_run :=
  match handle_handshake (USERS cfg) reader_clt writer_clt (client_input env) with
  | (Raise e, tr) =>
      {| run_result := Raise e; run_trace := tr; run_stats := stats; run_pumps := [] |}
  | (Pending, tr) =>
      {| run_result := Pending; run_trace := tr; run_stats := stats; run_pumps := [] |}
  | (Ok None, tr) =>
      {| run_result := Ok tt; run_trace := tr ++ [EvClose writer_clt];
         run_stats := stats; run_pumps := [] |}
  | (Ok (Some clt_data), tr) =>
      let reader_clt := hs_reader clt_data in
      let writer_clt := hs_writer clt_data in
      let user := hs_user clt_data in
      let dc_idx := hs_dc_idx clt_data in
      let enc_key_and_iv := hs_enc_key_and_iv clt_data in
      let stats := update_stats user 1 0 0 stats in
      let '(tg_data, tr_tg) :=
        if negb USE_MIDDLE_PROXY then
          if FAST_MODE cfg
          then do_direct_handshake dc_idx (Some enc_key_and_iv) (upstream env)
          else do_direct_handshake dc_idx None (upstream env)
        else (Raise OtherException, []) in
      match tg_data with
      | Raise e =>
          {| run_result := Raise e; run_trace := tr ++ tr_tg;
             run_stats := stats; run_pumps := [] |}
      | Pending =>
          {| run_result := Pending; run_trace := tr ++ tr_tg;
             run_stats := stats; run_pumps := [] |}
      | Ok None =>
          {| run_result := Ok tt;
             run_trace := tr ++ tr_tg ++ [EvClose (wr_stream writer_clt)];
             run_stats := stats; run_pumps := [] |}
      | Ok (Some (reader_tg, writer_tg)) =>
          let '(reader_tg, writer_clt) :=
            if negb USE_MIDDLE_PROXY && FAST_MODE cfg
            then ({| rd_stream := rd_stream reader_tg; decryptor := Fake |},
                  {| wr_stream := wr_stream writer_clt; encryptor := Fake |})
            else (reader_tg, writer_clt) in
          {| run_result := Ok tt; run_trace := tr ++ tr_tg; run_stats := stats;
             run_pumps :=
               [ {| rd := reader_tg; wr := writer_clt; user := user; pc := NotStarted |};
                 {| rd := reader_clt; wr := writer_tg; user := user; pc := NotStarted |} ] |}
      end
  end.

Definition handle_client_wrapper (reader writer : stream_id) (env : client_env)
    (stats : gmap string Counter) : client_run :=
  let r := handle_client reader writer env stats in
  match run_result r with
  | Raise e =>
      if caught_by_wrapper e
      then {| run_result := Ok tt; run_trace := run_trace r ++ [EvClose writer];
              run_stats := run_stats r; run_pumps := run_pumps r |}
      else r
  | _ => r
  end.
End Relay.

(** ** Quantities the statements speak about *)

Section Derived.
Context `{Primitives}.

(** Client-to-relay key and IV for a preamble and a user secret. *)
Definition dec_key_of (preamble secret : bytes) : bytes :=
  sha256 (slice preamble 8 40 ++ secret).
Definition dec_iv_of (preamble : bytes) : Z :=
  int_from_bytes_big (slice preamble 40 56).

(** Relay-to-client key and IV, from the reversed bytes 8..56. *)
Definition enc_key_of (preamble secret : bytes) : bytes :=
  sha256 (firstn 32 (rev (slice preamble 8 56)) ++ secret).
Definition enc_iv_of (preamble : bytes) : bytes :=
  skipn 32 (rev (slice preamble 8 56)).

(** The trial decryption of the whole preamble for one secret. *)
Definition trial_decryptor (preamble secret : bytes) : aes_ctr :=
  create_aes (dec_key_of preamble secret) (dec_iv_of preamble).
Definition trial_decrypt (preamble secret : bytes) : bytes :=
  fst (decrypt (trial_decryptor preamble secret) preamble).
Definition magic_found (preamble secret : bytes) : bool :=
  bytes_eqb (slice (trial_decrypt preamble secret) 56 60) [239; 239; 239; 239].
End Derived.

(** A signed 16-bit little-endian field. *)
Definition signed_le_i16 (b0 b1 : Z) : Z :=
  let v := b0 + 256 * b1 in
  if v <? 32768 then v else v - 65536.

(** How many pumps of user [u] are alive. *)
Definition alive_of (u : string) (p : pump_state) : Z :=
  if alive p && bool_decide (user p = u) then 1 else 0.

Definition alive_count (u : string) (pumps : list pump_state) : Z :=
  fold_right (fun p acc => alive_of u p + acc) 0 pumps.

(** The bytes a trace hands to [write] on stream [s], in order. *)
Fixpoint written_to (s : stream_id) (tr : list event) : list bytes :=
  match tr with
  | [] => []
  | EvWrite s' data :: rest =>
      match s, s' with
      | Client, Client | Upstream, Upstream => data :: written_to s rest
      | _, _ => written_to s rest
      end
  | _ :: rest => written_to s rest
  end.

(** ** A small instance of the primitives

    Stand-ins of the right sizes, used to run the model on examples. *)

Definition toy_sha256 (m : bytes) : bytes :=
  map (fun i => (nth i m 0 + 3 * nth (i + 32) m 0 + Z.of_nat i) mod 256) (seq 0 32).

Definition toy_aes_encrypt (k b : bytes) : bytes :=
  map (fun i => (Z.lxor (nth i k 0) (nth i b 0) + 7 * Z.of_nat i) mod 256) (seq 0 16).

Definition hex_digit (a : ascii) : option Z :=
  let n := Z.of_nat (nat_of_ascii a) in
  if (48 <=? n) && (n <=? 57) then Some (n - 48)
  else if (97 <=? n) && (n <=? 102) then Some (n - 87)
  else if (65 <=? n) && (n <=? 70) then Some (n - 55)
  else None.

Fixpoint toy_fromhex (s : string) : option bytes :=
  match s with
  | EmptyString => Some []
  | String a (String b rest) =>
      match hex_digit a, hex_digit b, toy_fromhex rest with
      | Some x, Some y, Some r => Some (16 * x + y :: r)
      | _, _, _ => None
      end
  | String _ EmptyString => None
  end.

Definition toy_primitives : Primitives :=
  {| sha256 := toy_sha256;
     sha256_length := fun m => eq_trans (length_map _ _) (length_seq 32 0);
     aes_encrypt := toy_aes_encrypt;
     aes_encrypt_length := fun k b => eq_trans (length_map _ _) (length_seq 16 0);
     fromhex := toy_fromhex |}.

(** ** Ways of cutting a byte string into successive chunks *)

(** Cut [x] after [n1] bytes, then after [n2] more, and so on; what is
    left is the last chunk. *)
Fixpoint split_at (cuts : list nat) (x : bytes) : list bytes :=
  match cuts with
  | [] => [x]
  | n :: rest => firstn n x :: split_at rest (skipn n x)
  end.

(** ** Example data *)

(** A user table and three client preambles for it, built with the
    stand-in primitives: the trial decryption for user [tg] shows the
    magic and the datacenter fields [FE FF], [00 00] and [01 00]. *)
Definition example_secret_hex : string := "000102030405060708090a0b0c0d0e0f".
Definition example_secret : bytes := [0; 1; 2; 3; 4; 5; 6; 7; 8; 9; 10; 11; 12; 13; 14; 15].

(** A 32-byte prekey and a 16-byte IV, the 32-byte key hashed from the
    prekey and the secret, and a cipher object created from that key and
    IV that has handled 8 bytes since. *)
Definition example_prekey : bytes := map Z.of_nat (seq 9 32).
Definition example_iv : bytes := map Z.of_nat (seq 41 16).
Definition example_key : bytes := toy_sha256 (example_prekey ++ example_secret).
Definition example_half_block : aes_ctr :=
  snd (@encrypt toy_primitives
         (create_aes example_key (int_from_bytes_big example_iv)) (repeat 0 8%nat)).

Definition example_users : list (string * string) :=
  [("alice", "ffffffffffffffffffffffffffffffff"); ("tg", example_secret_hex)]%string.

Definition example_head : bytes := map Z.of_nat (seq 1 56).

Definition example_preamble : bytes :=
  example_head ++ [215; 172; 161; 46; 58; 40; 218; 216].
Definition example_preamble_dc0 : bytes :=
  example_head ++ [215; 172; 161; 46; 196; 215; 218; 216].
Definition example_preamble_dc1 : bytes :=
  example_head ++ [215; 172; 161; 46; 197; 215; 218; 216].

Definition example_config : config :=
  {| PORT := 3256; USERS := example_users; PREFER_IPV6 := false; FAST_MODE := true;
     STATS_PRINT_PERIOD := 600; READ_BUF_SIZE := 4096 |}.

Definition example_upstream : upstream_env :=
  {| connect_result := fun _ => Ok tt;
     random_draws := [repeat 239 64%nat; map Z.of_nat (seq 100 64)];
     write_result := Ok tt;
     drain_result := Ok tt |}.

Definition example_env_dc0 : client_env :=
  {| client_input := Ok example_preamble_dc0; upstream := example_upstream |}.

(** A client that stops after three bytes, and one that sends 64 zeros. *)
Definition example_env_short : client_env :=
  {| client_input := Ok [22; 3; 1]; upstream := example_upstream |}.
Definition example_env_zeros : client_env :=
  {| client_input := Ok (repeat 0 64%nat); upstream := example_upstream |}.

(** ** Quantities of the upstream handshake *)

Section UpstreamDerived.
Context `{Primitives}.

(** The address [do_direct_handshake] picks for an index in range. *)
Definition datacenter (cfg : config) (dc_idx : Z) : string :=
  nth (Z.to_nat dc_idx)
      (if PREFER_IPV6 cfg then TG_DATACENTERS_V6 else TG_DATACENTERS_V4)
      EmptyString.

(** The relay's upstream decryptor and encryptor for a settled
    preamble, as created, and the 64 bytes put on the wire. *)
Definition upstream_decryptor (rnd : bytes) : aes_ctr :=
  create_aes (firstn 32 (rev (slice rnd 8 56)))
             (int_from_bytes_big (skipn 32 (rev (slice rnd 8 56)))).
Definition upstream_encryptor (rnd : bytes) : aes_ctr :=
  create_aes (slice rnd 8 40) (int_from_bytes_big (slice rnd 40 56)).
Definition upstream_wire (rnd : bytes) : bytes :=
  firstn 56 rnd ++ skipn 56 (fst (encrypt (upstream_encryptor rnd) rnd)).
End UpstreamDerived.

(** The preamble settled from the draws of [example_upstream] without
    reuse: the second draw with the magic at 56..60. *)
Definition example_wire_preamble : bytes :=
  map Z.of_nat (seq 100 56) ++ [239; 239; 239; 239] ++ map Z.of_nat (seq 160 4).

(** ** The two ways of running the datacenter-to-client pump *)

Section FastSim.
Context `{Primitives}.

(** [fast_sim p q]: [p] decrypts with the upstream decryptor and
    re-encrypts with the client encryptor, [q] forwards verbatim, and
    the two stand at the same point.  The two ciphers of [p] are in the
    same state, except between a read and the write that follows it,
    where the decryptor is ahead by the chunk in flight. *)
Inductive fast_sim : pump_state -> pump_state -> Prop :=
| sim_between (st : aes_ctr) (rs ws : stream_id) (u : string) (l : pump_pc) :
    (forall data, l <> Writing data) ->
    fast_sim {| rd := {| rd_stream := rs; decryptor := AesCtr st |};
                wr := {| wr_stream := ws; encryptor := AesCtr st |};
                user := u; pc := l |}
             {| rd := {| rd_stream := rs; decryptor := Fake |};
                wr := {| wr_stream := ws; encryptor := Fake |};
                user := u; pc := l |}
| sim_in_flight (st : aes_ctr) (rs ws : stream_id) (u : string) (raw : bytes) :
    fast_sim {| rd := {| rd_stream := rs; decryptor := AesCtr (snd (decrypt st raw)) |};
                wr := {| wr_stream := ws; encryptor := AesCtr st |};
                user := u; pc := Writing (fst (decrypt st raw)) |}
             {| rd := {| rd_stream := rs; decryptor := Fake |};
                wr := {| wr_stream := ws; encryptor := Fake |};
                user := u; pc := Writing raw |}.
End FastSim.

(** Two pumps of one connection of user [tg], as scheduled, and the
    system after each has entered. *)
Definition example_pump_down : pump_state :=
  {| rd := {| rd_stream := Upstream; decryptor := Fake |};
     wr := {| wr_stream := Client; encryptor := Fake |};
     user := "tg"; pc := NotStarted |}.
Definition example_pump_up : pump_state :=
  {| rd := {| rd_stream := Client; decryptor := Fake |};
     wr := {| wr_stream := Upstream; encryptor := Fake |};
     user := "tg"; pc := NotStarted |}.

Definition example_system_0 : system :=
  {| sys_stats := init_stats example_users;
     sys_pumps := [example_pump_down; example_pump_up] |}.
Definition example_system_1 : system :=
  {| sys_stats := snd (pump_enter example_pump_down (sys_stats example_system_0));
     sys_pumps := <[0%nat := fst (pump_enter example_pump_down (sys_stats example_system_0))]>
                    (sys_pumps example_system_0) |}.
Definition example_system_2 : system :=
  {| sys_stats := snd (pump_enter example_pump_up (sys_stats example_system_1));
     sys_pumps := <[1%nat := fst (pump_enter example_pump_up (sys_stats example_system_1))]>
                    (sys_pumps example_system_1) |}.

(** The same connection carried on to its end: the downstream pump
    meets a connection reset on its read, the upstream pump reads the
    end of the client's stream, half-closes and flushes. *)
Definition example_after (s : system) (i : nat) (p : pump_state)
    (io : result bytes) : system :=
  {| sys_stats := snd (fst (@pump_step toy_primitives example_config p io (sys_stats s)));
     sys_pumps :=
       <[i := fst (fst (@pump_step toy_primitives example_config p io (sys_stats s)))]>
         (sys_pumps s) |}.
Definition example_down_1 : pump_state :=
  fst (pump_enter example_pump_down (sys_stats example_system_0)).
Definition example_up_1 : pump_state :=
  fst (pump_enter example_pump_up (sys_stats example_system_1)).
Definition example_system_3 : system :=
  example_after example_system_2 0 example_down_1 (Raise ConnectionResetError).
Definition example_up_2 : pump_state :=
  fst (fst (@pump_step toy_primitives example_config example_up_1 (Ok [])
              (sys_stats example_system_3))).
Definition example_system_4 : system :=
  example_after example_system_3 1 example_up_1 (Ok []).
Definition example_up_3 : pump_state :=
  fst (fst (@pump_step toy_primitives example_config example_up_2 (Ok [])
              (sys_stats example_system_4))).
Definition example_system_5 : system :=
  example_after example_system_4 1 example_up_2 (Ok []).
Definition example_system_6 : system :=
  example_after example_system_5 1 example_up_3 (Ok []).


(** An authenticated client whose datacenter refuses the connection. *)
Definition example_env_refused : client_env :=
  {| client_input := Ok example_preamble;
     upstream := {| connect_result := fun _ => Raise ConnectionRefusedError;
                    random_draws := [];
                    write_result := Ok tt;
                    drain_result := Ok tt |} |}.

(** What the handshakes return for [example_preamble] in fast mode, and a
    script for the datacenter-to-client pump: a read of three bytes, its
    write and flush, a read of two bytes, its write and flush, then the
    end of the stream with its write_eof and flush. *)
Definition example_hs : handshake_ok :=
  {| hs_reader :=
       {| rd_stream := Client;
          decryptor :=
            AesCtr (snd (@decrypt toy_primitives
                           (@trial_decryptor toy_primitives example_preamble example_secret)
                           example_preamble)) |};
     hs_writer :=
       {| wr_stream := Client;
          encryptor :=
            AesCtr (create_aes (@enc_key_of toy_primitives example_preamble example_secret)
                               (int_from_bytes_big (enc_iv_of example_preamble))) |};
     hs_user := "tg";
     hs_dc_idx := 1;
     hs_enc_key_and_iv :=
       @enc_key_of toy_primitives example_preamble example_secret
       ++ enc_iv_of example_preamble |}.

Definition example_fast_preamble : bytes :=
  match upstream_preamble (Some (hs_enc_key_and_iv example_hs))
                          (random_draws example_upstream) with
  | Some rnd => rnd
  | None => []
  end.

Definition example_rd_tg : CryptoWrappedStreamReader :=
  {| rd_stream := Upstream;
     decryptor := AesCtr (upstream_decryptor example_fast_preamble) |}.

Definition example_wr_tg : CryptoWrappedStreamWriter :=
  {| wr_stream := Upstream;
     encryptor :=
       AesCtr (snd (@encrypt toy_primitives (upstream_encryptor example_fast_preamble)
                      example_fast_preamble)) |}.

Definition example_script : list (result bytes) :=
  [Ok [10; 20; 30]; Ok []; Ok []; Ok [40; 50]; Ok []; Ok []; Ok []; Ok []; Ok []].

(** ** Further quantities of the statistics, the draws and the pumps *)

Definition is_byte (b : Z) : Prop := 0 <= b < 256.

(** [stats[user]] as a user of the registry reads it: the counter of a
    user without an entry is the empty one. *)
Definition counter_of (stats : gmap string Counter) (user : string) : Counter :=
  default empty_counter (stats !! user).

(** The figure [stats_printer] prints as current connections:
    [stat["curr_connects_x2"] // 2]. *)
Definition displayed_current (stats : gmap string Counter) (user : string) : Z :=
  current_x2 stats user / 2.

(** The three tests of the sampling loop, all passed. *)
Definition acceptable (rnd : bytes) : bool :=
  negb (bytes_in (firstn 1 rnd) RESERVED_NONCE_FIRST_CHARS)
  && negb (bytes_in (firstn 4 rnd) RESERVED_NONCE_BEGININGS)
  && negb (bytes_in (slice rnd 4 8) RESERVED_NONCE_CONTINUES).

(** The bytes a pump has read and counted but not yet handed to [write]. *)
Definition in_flight (p : pump_state) : nat :=
  match pc p with
  | Writing data => length data
  | _ => 0%nat
  end.

Definition is_close (ev : event) : bool :=
  match ev with
  | EvClose _ => true
  | _ => false
  end.

(** The calls a pump from stream [rs] to stream [ws] may make. *)
Definition pump_event (rs ws : stream_id) (n : Z) (ev : event) : Prop :=
  match ev with
  | EvRead s m => s = rs /\ m = n
  | EvWrite s _ | EvWriteEof s | EvDrain s | EvClose s => s = ws
  | EvReadExactly _ _ | EvConnect _ _ => False
  end.

(** The results a pump meets when the source delivers [chunks] and then
    ends, and every write and flush goes through. *)
Definition relay_script (chunks : list bytes) : list (result bytes) :=
  flat_map (fun c => [Ok c; Ok []; Ok []]) chunks ++ [Ok []; Ok []; Ok []].

Section RelayChunks.
Context `{Primitives}.

(** What a pump makes of the chunks it reads: each is decrypted with the
    reader's cipher and encrypted with the writer's. *)
Fixpoint relay_chunks (d e : cipher) (chunks : list bytes)
  : list bytes * (cipher * cipher) :=
  match chunks with
  | [] => ([], (d, e))
  | c :: rest =>
      let '(data, d1) := cipher_decrypt d c in
      let '(out, e1) := cipher_encrypt e data in
      let '(outs, de) := relay_chunks d1 e1 rest in
      (out :: outs, de)
  end.
End RelayChunks.

(** Two chunks through two stand-in ciphers. *)
Definition example_chunks : list bytes := [[10; 20; 30]; [40; 50]].
Definition example_reader : CryptoWrappedStreamReader :=
  {| rd_stream := Client;
     decryptor := AesCtr (create_aes example_key (int_from_bytes_big example_iv)) |}.
Definition example_writer : CryptoWrappedStreamWriter :=
  {| wr_stream := Upstream;
     encryptor := AesCtr (create_aes (rev example_key)
                            (int_from_bytes_big (rev example_iv))) |}.

(** A user table whose first secret is not hexadecimal. *)
Definition example_users_malformed : list (string * string) :=
  [("bob", "not hex"); ("tg", example_secret_hex)]%string.
Definition example_config_malformed : config :=
  {| PORT := 3256; USERS := example_users_malformed; PREFER_IPV6 := false;
     FAST_MODE := true; STATS_PRINT_PERIOD := 600; READ_BUF_SIZE := 4096 |}.
Definition example_env_good : client_env :=
  {| client_input := Ok example_preamble; upstream := example_upstream |}.

(* ================================================================== *)
(** * Properties *)
(* ================================================================== *)

(** ** Facts about byte strings *)

Lemma xor_bytes_length (a b : bytes) :
  (length a <= length b)%nat -> length (xor_bytes a b) = length a.
Proof.
  unfold xor_bytes. revert b.
  induction a as [|x a IH]; intros [|y b]; simpl; intros Hl; try lia.
  rewrite IH; lia.
Qed.

Lemma xor_bytes_firstn (a b : bytes) :
  xor_bytes a b = xor_bytes a (firstn (length a) b).
Proof.
  unfold xor_bytes. revert b.
  induction a as [|x a IH]; intros [|y b]; simpl; try reflexivity.
  now rewrite <- IH.
Qed.

Lemma xor_bytes_app (a1 a2 b : bytes) :
  (length a1 <= length b)%nat ->
  xor_bytes (a1 ++ a2) b
  = xor_bytes a1 (firstn (length a1) b) ++ xor_bytes a2 (skipn (length a1) b).
Proof.
  unfold xor_bytes. revert b.
  induction a1 as [|x a1 IH]; intros [|y b]; simpl; intros Hl; try lia.
  - reflexivity.
  - reflexivity.
  - rewrite IH by lia. reflexivity.
Qed.

(** XOR with the same keystream twice gives the input back. *)
Lemma xor_bytes_involutive (a b : bytes) :
  (length a <= length b)%nat -> xor_bytes (xor_bytes a b) b = a.
Proof.
  unfold xor_bytes. revert b.
  induction a as [|x a IH]; intros [|y b]; simpl; intros Hl; try lia.
  - reflexivity.
  - reflexivity.
  - rewrite IH by lia. f_equal.
    rewrite Z.lxor_assoc, Z.lxor_nilpotent, Z.lxor_0_r. reflexivity.
Qed.

Lemma blocks_needed_enough (r n : nat) :
  (n <= r + 16 * blocks_needed r n)%nat.
Proof.
  unfold blocks_needed.
  pose proof (Nat.div_mod_eq (n - r + 15) 16) as E.
  pose proof (Nat.mod_upper_bound (n - r + 15) 16 ltac:(lia)). lia.
Qed.

Lemma blocks_needed_zero (r n : nat) : (n <= r)%nat -> blocks_needed r n = 0%nat.
Proof.
  intros Hl. unfold blocks_needed.
  replace (n - r + 15)%nat with 15%nat by lia. reflexivity.
Qed.

Lemma blocks_needed_succ (r n : nat) :
  (r < n)%nat -> blocks_needed r n = S (blocks_needed (r + 16) n).
Proof.
  intros Hl. unfold blocks_needed.
  destruct (le_lt_dec n (r + 16)) as [Hs|Hs].
  - replace (n - (r + 16) + 15)%nat with 15%nat by lia.
    assert (E : (n - r + 15 = 1 * 16 + (n - r - 1))%nat) by lia.
    rewrite E, Nat.div_add_l by lia.
    rewrite (Nat.div_small (n - r - 1)) by lia. reflexivity.
  - replace (n - r + 15)%nat with (1 * 16 + (n - (r + 16) + 15))%nat by lia.
    rewrite Nat.div_add_l by lia. reflexivity.
Qed.

Lemma blocks_needed_le (r n : nat) : (blocks_needed r n <= n)%nat.
Proof.
  unfold blocks_needed.
  destruct n as [|n]; [reflexivity|].
  apply Nat.Div0.div_le_upper_bound. lia.
Qed.

Lemma blocks_needed_fresh (n : nat) :
  Z.of_nat (blocks_needed 0 n) = (Z.of_nat n + 15) / 16.
Proof.
  unfold blocks_needed. rewrite Nat.sub_0_r.
  rewrite Nat2Z.inj_div. f_equal. lia.
Qed.

(** A call that finds [r] bytes left over and then [n2] more bytes draw
    together what one call on the whole draws. *)
Lemma blocks_needed_add (r n1 n2 : nat) :
  blocks_needed r (n1 + n2)
  = (blocks_needed r n1
     + blocks_needed (r + 16 * blocks_needed r n1 - n1) n2)%nat.
Proof.
  remember (blocks_needed r n1) as m1 eqn:E1.
  revert r E1. induction m1 as [|m1 IH]; intros r E1.
  - assert (Hle : (n1 <= r)%nat).
    { pose proof (blocks_needed_enough r n1). lia. }
    simpl. unfold blocks_needed. f_equal. lia.
  - assert (Hlt : (r < n1)%nat).
    { destruct (le_lt_dec n1 r) as [Hc|Hc]; [|exact Hc].
      rewrite blocks_needed_zero in E1 by exact Hc. discriminate. }
    rewrite blocks_needed_succ in E1 by exact Hlt. injection E1 as E1.
    rewrite blocks_needed_succ by lia.
    rewrite (IH (r + 16)%nat E1).
    replace (r + 16 * S m1 - n1)%nat with (r + 16 + 16 * m1 - n1)%nat by lia.
    lia.
Qed.

(** ** The CTR cipher object *)

Section CipherFacts.
Context `{Primitives}.

Lemma advance_succ_r (c : Z) (m : nat) :
  advance c (S m) = advance (increment c) m.
Proof. unfold advance. apply Nat.iter_succ_r. Qed.

Lemma advance_add (c : Z) (m1 m2 : nat) :
  advance c (m1 + m2) = advance (advance c m1) m2.
Proof.
  unfold advance. rewrite Nat.add_comm. apply Nat.iter_add.
Qed.

(** After at least one increment the counter is the sum modulo [2^128]. *)
Lemma advance_mod (c : Z) (m : nat) :
  advance c (S m) = (c + Z.of_nat (S m)) mod COUNTER_MODULUS.
Proof.
  induction m as [|m IH].
  - reflexivity.
  - change (advance c (S (S m))) with (increment (advance c (S m))).
    rewrite IH. unfold increment.
    rewrite Zplus_mod_idemp_l. f_equal. lia.
Qed.

Lemma advance_in_range (c : Z) (m : nat) :
  0 <= c < COUNTER_MODULUS ->
  advance c m = (c + Z.of_nat m) mod COUNTER_MODULUS.
Proof.
  intros Hc. destruct m as [|m].
  - simpl. rewrite Z.add_0_r, Z.mod_small by exact Hc. reflexivity.
  - apply advance_mod.
Qed.

Lemma keystream_blocks_length (k : bytes) (c : Z) (m : nat) :
  length (keystream_blocks k c m) = (16 * m)%nat.
Proof.
  revert c. induction m as [|m IH]; intros c; simpl; [reflexivity|].
  rewrite length_app, aes_encrypt_length, IH. lia.
Qed.

Lemma keystream_blocks_app (k : bytes) (c : Z) (m1 m2 : nat) :
  keystream_blocks k c (m1 + m2)
  = keystream_blocks k c m1 ++ keystream_blocks k (advance c m1) m2.
Proof.
  revert c. induction m1 as [|m1 IH]; intros c; simpl; [reflexivity|].
  rewrite IH, <- app_assoc. do 2 f_equal.
  change (increment (advance c m1)) with (advance c (S m1)).
  now rewrite advance_succ_r.
Qed.

(** The refill loop in closed form: it draws [blocks_needed] blocks and
    no fuel is missing. *)
Lemma refill_spec (fuel : nat) (k : bytes) (c : Z) (rem : bytes) (n : nat) :
  (blocks_needed (length rem) n <= fuel)%nat ->
  refill fuel k c rem n
  = (advance c (blocks_needed (length rem) n),
     rem ++ keystream_blocks k c (blocks_needed (length rem) n)).
Proof.
  revert c rem. induction fuel as [|fuel IH]; intros c rem Hf.
  - assert (E : blocks_needed (length rem) n = 0%nat) by lia.
    rewrite E. simpl. now rewrite app_nil_r.
  - simpl. destruct (Nat.ltb_spec (length rem) n) as [Hlt|Hge].
    + rewrite blocks_needed_succ in Hf |- * by exact Hlt.
      rewrite IH; rewrite length_app, aes_encrypt_length; [|lia].
      rewrite advance_succ_r. simpl. now rewrite <- app_assoc.
    + rewrite blocks_needed_zero by exact Hge.
      simpl. now rewrite app_nil_r.
Qed.

Lemma encrypt_spec (st : aes_ctr) (p : bytes) :
  let m := blocks_needed (length (remaining st)) (length p) in
  let R := remaining st ++ keystream_blocks (key st) (counter st) m in
  encrypt st p
  = (xor_bytes p R,
     {| key := key st; counter := advance (counter st) m;
        remaining := skipn (length p) R |}).
Proof.
  intros m R. unfold encrypt.
  rewrite refill_spec by apply blocks_needed_le.
  fold m. fold R.
  rewrite xor_bytes_length; [reflexivity|].
  unfold R. rewrite length_app, keystream_blocks_length.
  apply blocks_needed_enough.
Qed.

Lemma encrypt_length (st : aes_ctr) (p : bytes) :
  length (fst (encrypt st p)) = length p.
Proof.
  rewrite encrypt_spec. simpl. apply xor_bytes_length.
  rewrite length_app, keystream_blocks_length.
  apply blocks_needed_enough.
Qed.

Lemma encrypt_key (st : aes_ctr) (p : bytes) :
  key (snd (encrypt st p)) = key st.
Proof. rewrite encrypt_spec. reflexivity. Qed.

(** An empty input touches neither the counter nor the leftover. *)
Lemma encrypt_nil (st : aes_ctr) : encrypt st [] = ([], st).
Proof. destruct st. reflexivity. Qed.

(** Keystream continuity: a call on [a ++ b] is a call on [a] followed
    by a call on [b]. *)
Lemma encrypt_app (st : aes_ctr) (a b : bytes) :
  encrypt st (a ++ b)
  = (fst (encrypt st a) ++ fst (encrypt (snd (encrypt st a)) b),
     snd (encrypt (snd (encrypt st a)) b)).
Proof.
  rewrite (encrypt_spec st a). cbn [fst snd].
  rewrite (encrypt_spec _ b). cbn [fst snd key counter remaining].
  rewrite (encrypt_spec st (a ++ b)).
  set (r := length (remaining st)).
  set (m1 := blocks_needed r (length a)).
  set (R1 := remaining st ++ keystream_blocks (key st) (counter st) m1).
  assert (HR1 : length R1 = (r + 16 * m1)%nat).
  { unfold R1. now rewrite length_app, keystream_blocks_length. }
  assert (Ha : (length a <= length R1)%nat).
  { rewrite HR1. apply blocks_needed_enough. }
  rewrite length_skipn, HR1.
  set (m2 := blocks_needed (r + 16 * m1 - length a) (length b)).
  rewrite length_app.
  assert (Hm : blocks_needed r (length a + length b) = (m1 + m2)%nat).
  { unfold m1, m2. apply blocks_needed_add. }
  rewrite Hm, keystream_blocks_app, advance_add, app_assoc.
  fold R1.
  set (K2 := keystream_blocks (key st) (advance (counter st) m1) m2).
  assert (Hsk : skipn (length a) (R1 ++ K2) = skipn (length a) R1 ++ K2).
  { rewrite skipn_app.
    replace (length a - length R1)%nat with 0%nat by lia. reflexivity. }
  f_equal.
  - rewrite xor_bytes_app by (rewrite length_app; lia).
    rewrite Hsk. f_equal.
    rewrite (xor_bytes_firstn a R1). f_equal.
    rewrite firstn_app.
    replace (length a - length R1)%nat with 0%nat by lia.
    simpl. now rewrite app_nil_r.
  - f_equal. rewrite <- Hsk, skipn_skipn. f_equal. lia.
Qed.

(** Chunked processing is processing of the concatenation. *)
Lemma encrypt_chunks_concat (st : aes_ctr) (chunks : list bytes) :
  concat (fst (encrypt_chunks st chunks)) = fst (encrypt st (concat chunks))
  /\ snd (encrypt_chunks st chunks) = snd (encrypt st (concat chunks)).
Proof.
  revert st.
  induction chunks as [|x rest IH]; intros st; cbn [encrypt_chunks concat].
  - rewrite encrypt_nil. split; reflexivity.
  - rewrite encrypt_app.
    destruct (encrypt st x) as [y st1] eqn:E1.
    specialize (IH st1).
    destruct (encrypt_chunks st1 rest) as [ys st2] eqn:E2.
    cbn [fst snd concat] in *. destruct IH as [IH1 IH2].
    rewrite IH1, IH2. split; reflexivity.
Qed.

(** Two cipher objects in the same state: decrypting what the other
    encrypted gives the input back and keeps both in the same state. *)
Lemma decrypt_encrypt_same_state (st : aes_ctr) (x : bytes) :
  fst (decrypt st (fst (encrypt st x))) = x
  /\ snd (decrypt st (fst (encrypt st x))) = snd (encrypt st x).
Proof.
  unfold decrypt.
  pose proof (encrypt_length st x) as Hl.
  rewrite (encrypt_spec st (fst (encrypt st x))), Hl.
  rewrite (encrypt_spec st x). cbn [fst snd].
  split; [|reflexivity].
  apply xor_bytes_involutive.
  rewrite length_app, keystream_blocks_length.
  apply blocks_needed_enough.
Qed.
End CipherFacts.

Lemma bytes_eqb_eq (x y : bytes) : bytes_eqb x y = true <-> x = y.
Proof.
  revert y. induction x as [|a x IH]; intros [|b y]; simpl; split;
    try congruence; try reflexivity.
  - intros E. apply andb_true_iff in E as [E1 E2].
    apply Z.eqb_eq in E1. apply IH in E2. congruence.
  - intros E. injection E as -> ->.
    apply andb_true_iff. split; [apply Z.eqb_refl | now apply IH].
Qed.

Lemma concat_split_at (cuts : list nat) (x : bytes) :
  concat (split_at cuts x) = x.
Proof.
  revert x. induction cuts as [|n cuts IH]; intros x; simpl.
  - apply app_nil_r.
  - rewrite IH. apply firstn_skipn.
Qed.

(** Every list of chunks is one of the cuttings of its concatenation. *)
Lemma split_at_lengths (chunks : list bytes) :
  split_at (map (@length Z) chunks) (concat chunks) = chunks ++ [[]].
Proof.
  induction chunks as [|c chunks IH]; simpl; [reflexivity|].
  rewrite firstn_app, Nat.sub_diag, firstn_all, firstn_O, app_nil_r.
  rewrite skipn_app, Nat.sub_diag, skipn_all, skipn_O. simpl.
  now rewrite IH.
Qed.

(** ** C8: the CTR round trip *)

Section RoundTrip.
Context `{Primitives}.

(** C8, as amended.  Under AES-CTR with key SHA-256(prekey || secret)
    and a big-endian IV, decrypting the encryption of [x] gives [x]
    back for every way of cutting the plaintext and, independently, the
    ciphertext into successive chunks; decryption is the same operation
    as encryption; a call advances the counter by the number of fresh
    blocks it draws, [ceil((len - leftover) / 16)], which is
    [ceil(len / 16)] when no keystream is left over, as on a new cipher
    object. *)
Theorem ctr_round_trip (prekey iv secret x : bytes) (cuts_enc cuts_dec : list nat)
    (st : aes_ctr) (chunk : bytes) :
  concat (fst (decrypt_chunks
                 (create_aes (sha256 (prekey ++ secret)) (int_from_bytes_big iv))
                 (split_at cuts_dec
                    (concat (fst (encrypt_chunks
                                    (create_aes (sha256 (prekey ++ secret))
                                                (int_from_bytes_big iv))
                                    (split_at cuts_enc x)))))))
  = x
  /\ decrypt st chunk = encrypt st chunk
  /\ counter (snd (encrypt st chunk))
     = advance (counter st) (blocks_needed (length (remaining st)) (length chunk))
  /\ Z.of_nat (blocks_needed 0 (length chunk)) = (Z.of_nat (length chunk) + 15) / 16
  /\ counter (snd (encrypt (create_aes (sha256 (prekey ++ secret))
                                       (int_from_bytes_big iv)) chunk))
     = (int_from_bytes_big iv + (Z.of_nat (length chunk) + 15) / 16)
       mod COUNTER_MODULUS.
Proof.
  set (c := create_aes (sha256 (prekey ++ secret)) (int_from_bytes_big iv)).
  repeat split.
  - unfold decrypt_chunks.
    destruct (encrypt_chunks_concat c (split_at cuts_enc x)) as [E1 _].
    rewrite E1, concat_split_at.
    destruct (encrypt_chunks_concat c (split_at cuts_dec (fst (encrypt c x))))
      as [E2 _].
    rewrite E2, concat_split_at.
    apply (decrypt_encrypt_same_state c x).
  - rewrite encrypt_spec. reflexivity.
  - apply blocks_needed_fresh.
  - rewrite encrypt_spec. cbn [snd counter remaining c create_aes length].
    rewrite advance_in_range by (apply Z.mod_pos_bound; reflexivity).
    rewrite blocks_needed_fresh, Zplus_mod_idemp_l. reflexivity.
Qed.
End RoundTrip.

(** Whatever the hash and the block cipher, a second call on 8 bytes
    after a first call on 8 bytes draws no block: the counter stays where
    the first call left it. *)
Lemma half_block_keeps_counter `{Primitives} (k : bytes) (iv : Z) (x y : bytes) :
  length x = 8%nat -> length y = 8%nat ->
  counter (snd (encrypt (snd (encrypt (create_aes k iv) x)) y))
  = counter (snd (encrypt (create_aes k iv) x)).
Proof.
  intros Hx Hy.
  rewrite (encrypt_spec (snd (encrypt (create_aes k iv) x)) y). cbv zeta. cbn [snd counter].
  rewrite (encrypt_spec (create_aes k iv) x). cbv zeta.
  cbn [snd counter remaining key create_aes length app].
  rewrite Hx, Hy.
  change (blocks_needed 0 8) with 1%nat.
  rewrite length_skipn, keystream_blocks_length.
  change (blocks_needed (16 * 1 - 8) 8) with 0%nat.
  reflexivity.
Qed.

(** C8 as stated fails: a call does not always advance the counter by
    [ceil(len / 16)].  Take the 32-byte key hashed from a 32-byte prekey
    and a 16-byte secret, and a 16-byte IV.  The cipher object created
    from them, once it has handled 8 bytes, stands one block after the IV
    and holds 8 unused keystream bytes; a further call on 8 bytes uses
    them and leaves the counter where it was. *)
Lemma ctr_counter_advance_counterexample :
  length example_prekey = 32%nat
  /\ length example_secret = 16%nat
  /\ length example_iv = 16%nat
  /\ example_key = @sha256 toy_primitives (example_prekey ++ example_secret)
  /\ length example_key = 32%nat
  /\ example_half_block
     = snd (@encrypt toy_primitives
              (create_aes (@sha256 toy_primitives (example_prekey ++ example_secret))
                          (int_from_bytes_big example_iv))
              (repeat 0 8%nat))
  /\ counter example_half_block = int_from_bytes_big example_iv + 1
  /\ length (remaining example_half_block) = 8%nat
  /\ counter (snd (@encrypt toy_primitives example_half_block (repeat 1 8%nat)))
     = counter example_half_block
  /\ counter (snd (@encrypt toy_primitives example_half_block (repeat 1 8%nat)))
     <> (counter example_half_block + (Z.of_nat (length (repeat 1 8%nat)) + 15) / 16)
        mod COUNTER_MODULUS.
Proof. vm_compute. repeat split; congruence. Qed.

(** ** C10: end of stream through the decrypting reader *)

Section Wrapped.
Context `{Primitives}.

Lemma cipher_decrypt_length (c : cipher) (raw : bytes) :
  length (fst (cipher_decrypt c raw)) = length raw.
Proof.
  destruct c as [st|]; simpl; [|reflexivity].
  pose proof (encrypt_length st raw) as Hl. unfold decrypt.
  destruct (encrypt st raw) as [out st']. exact Hl.
Qed.

Lemma cipher_decrypt_nil (c : cipher) : cipher_decrypt c [] = ([], c).
Proof.
  destruct c as [st|]; cbn [cipher_decrypt]; [|reflexivity].
  unfold decrypt. now rewrite encrypt_nil.
Qed.

Lemma cipher_encrypt_length (c : cipher) (data : bytes) :
  length (fst (cipher_encrypt c data)) = length data.
Proof. apply cipher_decrypt_length. Qed.

Lemma reader_read_ok (rd0 : CryptoWrappedStreamReader) (raw : bytes) :
  reader_read rd0 (Ok raw)
  = (Ok (fst (cipher_decrypt (decryptor rd0) raw)),
     {| rd_stream := rd_stream rd0;
        decryptor := snd (cipher_decrypt (decryptor rd0) raw) |}).
Proof.
  unfold reader_read. now destruct (cipher_decrypt (decryptor rd0) raw).
Qed.

(** C10.  The wrapped [read] returns the empty string exactly when the
    underlying read does, a read of nothing leaves the reader and its
    cipher (counter and unused keystream) as they were, and a pump
    waiting on its read takes the end-of-stream branch (write_eof,
    drain, close, return) exactly when the underlying read is empty. *)
Theorem reader_eof_transparency (cfg : config) (rd0 : CryptoWrappedStreamReader)
    (wr0 : CryptoWrappedStreamWriter) (u : string) (raw : bytes)
    (stats : gmap string Counter) (any1 any2 : bytes) :
  (fst (reader_read rd0 (Ok raw)) = Ok [] <-> raw = [])
  /\ reader_read rd0 (Ok []) = (Ok [], rd0)
  /\ (pc (fst (fst (pump_step cfg {| rd := rd0; wr := wr0; user := u; pc := Reading |}
                              (Ok raw) stats))) = WritingEof
      <-> raw = [])
  /\ pump_run cfg {| rd := rd0; wr := wr0; user := u; pc := Reading |} stats
              [Ok []; Ok any1; Ok any2]
     = ({| rd := rd0; wr := wr0; user := u; pc := Finished None |},
        update_stats u 0 (-1) 0 stats,
        [EvRead (rd_stream rd0) (READ_BUF_SIZE cfg);
         EvWriteEof (wr_stream wr0);
         EvDrain (wr_stream wr0); EvClose (wr_stream wr0)]).
Proof.
  assert (Hnil : raw = [] <-> fst (cipher_decrypt (decryptor rd0) raw) = []).
  { pose proof (cipher_decrypt_length (decryptor rd0) raw) as Hl.
    split; intros E.
    - subst raw. now rewrite cipher_decrypt_nil.
    - rewrite E in Hl. destruct raw; [reflexivity|discriminate]. }
  assert (Hread : reader_read rd0 (Ok []) = (Ok [], rd0)).
  { rewrite reader_read_ok, cipher_decrypt_nil. now destruct rd0. }
  split; [|split; [|split]].
  - rewrite reader_read_ok. cbn [fst]. rewrite Hnil.
    split; [now intros [= ->]|now intros ->].
  - exact Hread.
  - unfold pump_step. cbn [pc rd wr user].
    rewrite reader_read_ok, Hnil.
    destruct (fst (cipher_decrypt (decryptor rd0) raw)) as [|b data];
      cbn [fst pc]; split; congruence.
  - cbn [pump_run]. unfold pump_step at 1. cbn [pc rd wr user].
    rewrite Hread. reflexivity.
Qed.
End Wrapped.

(** ** C2: the client handshake accepts the first matching user *)

Lemma slice_8_56_prekey (h : bytes) : firstn 32 (slice h 8 56) = slice h 8 40.
Proof.
  unfold slice. cbn [Nat.sub]. rewrite firstn_firstn. reflexivity.
Qed.

Lemma slice_8_56_iv (h : bytes) : skipn 32 (slice h 8 56) = slice h 40 56.
Proof.
  unfold slice. cbn [Nat.sub].
  rewrite skipn_firstn_comm, skipn_skipn. reflexivity.
Qed.

Lemma slice_length (h : bytes) (a b : nat) :
  (b <= length h)%nat -> length (slice h a b) = (b - a)%nat.
Proof.
  intros Hb. unfold slice. rewrite length_firstn, length_skipn. lia.
Qed.

Lemma readexactly_ok (stream : bytes) (n : nat) :
  (n <= length stream)%nat -> readexactly (Ok stream) n = Ok (firstn n stream).
Proof.
  intros Hn. unfold readexactly.
  destruct (Nat.leb_spec n (length stream)); [reflexivity|lia].
Qed.

Lemma readexactly_short (stream : bytes) (n : nat) :
  (length stream < n)%nat -> readexactly (Ok stream) n = Raise IncompleteReadError.
Proof.
  intros Hn. unfold readexactly.
  destruct (Nat.leb_spec n (length stream)); [lia|reflexivity].
Qed.

Section Acceptor.
Context `{Primitives}.

(** A new cipher object after one call on 64 bytes: four blocks drawn,
    nothing left over. *)
Lemma encrypt_fresh_64 (k : bytes) (iv : Z) (p : bytes) :
  length p = 64%nat ->
  encrypt (create_aes k iv) p
  = (xor_bytes p (keystream_blocks k (iv mod COUNTER_MODULUS) 4),
     {| key := k; counter := (iv + 4) mod COUNTER_MODULUS; remaining := [] |}).
Proof.
  intros Hp. rewrite encrypt_spec. cbn [create_aes key counter remaining length].
  rewrite Hp. change (blocks_needed 0 64) with 4%nat.
  cbn [app]. f_equal. f_equal.
  - rewrite advance_in_range by (apply Z.mod_pos_bound; reflexivity).
    rewrite Zplus_mod_idemp_l. reflexivity.
  - apply skipn_all2. rewrite keystream_blocks_length. lia.
Qed.

(** One round of the loop over the users. *)
Lemma handle_handshake_users_cons (h : bytes) (reader writer : stream_id)
    (u hex : string) (secret : bytes) (rest : list (string * string)) :
  fromhex hex = Some secret ->
  handle_handshake_users h reader writer ((u, hex) :: rest)
  = if magic_found h secret
    then Ok (Some
      {| hs_reader := {| rd_stream := reader;
                         decryptor := AesCtr (snd (decrypt (trial_decryptor h secret) h)) |};
         hs_writer := {| wr_stream := writer;
                         encryptor := AesCtr (create_aes (enc_key_of h secret)
                                                (int_from_bytes_big (enc_iv_of h))) |};
         hs_user := u;
         hs_dc_idx :=
           Z.abs (int_from_bytes_little_signed (slice (trial_decrypt h secret) 60 62)) - 1;
         hs_enc_key_and_iv := enc_key_of h secret ++ enc_iv_of h |})
    else handle_handshake_users h reader writer rest.
Proof.
  intros Hhex. cbn [handle_handshake_users]. rewrite Hhex.
  change (SKIP_LEN + PREKEY_LEN + IV_LEN)%nat with 56%nat.
  change SKIP_LEN with 8%nat. change PREKEY_LEN with 32%nat.
  change MAGIC_VAL_POS with 56%nat. change (56 + 4)%nat with 60%nat.
  rewrite slice_8_56_prekey, slice_8_56_iv.
  unfold magic_found, trial_decrypt, trial_decryptor, dec_key_of, dec_iv_of,
    enc_key_of, enc_iv_of.
  destruct (decrypt _ h) as [decrypted st1]. cbn [fst snd].
  change MAGIC_VAL_TO_CHECK with [239; 239; 239; 239].
  destruct (bytes_eqb (slice decrypted 56 60) [239; 239; 239; 239]); reflexivity.
Qed.

(** Users whose secret decodes and whose trial decryption misses the
    magic are passed over. *)
Lemma handle_handshake_users_skip (h : bytes) (reader writer : stream_id)
    (before rest : list (string * string)) :
  Forall (fun uh => exists s, fromhex (snd uh) = Some s /\ magic_found h s = false)
         before ->
  handle_handshake_users h reader writer (before ++ rest)
  = handle_handshake_users h reader writer rest.
Proof.
  induction 1 as [|[u hex] before [s [Hs Hm]] _ IH]; [reflexivity|].
  cbn [app]. cbn [snd] in Hs.
  rewrite (handle_handshake_users_cons _ _ _ _ _ _ _ Hs), Hm. exact IH.
Qed.

(** The run of [handle_handshake] up to the first matching user. *)
Lemma handle_handshake_first_match (stream : bytes) (reader writer : stream_id)
    (before rest : list (string * string)) (u hex : string) (secret : bytes) :
  (64 <= length stream)%nat ->
  Forall (fun uh => exists s, fromhex (snd uh) = Some s
                              /\ magic_found (firstn 64 stream) s = false) before ->
  fromhex hex = Some secret ->
  magic_found (firstn 64 stream) secret = true ->
  handle_handshake (before ++ (u, hex) :: rest) reader writer (Ok stream)
  = (Ok (Some
      {| hs_reader :=
           {| rd_stream := reader;
              decryptor :=
                AesCtr (snd (decrypt (trial_decryptor (firstn 64 stream) secret)
                                     (firstn 64 stream))) |};
         hs_writer :=
           {| wr_stream := writer;
              encryptor :=
                AesCtr (create_aes (enc_key_of (firstn 64 stream) secret)
                          (int_from_bytes_big (enc_iv_of (firstn 64 stream)))) |};
         hs_user := u;
         hs_dc_idx :=
           Z.abs (int_from_bytes_little_signed
                    (slice (trial_decrypt (firstn 64 stream) secret) 60 62)) - 1;
         hs_enc_key_and_iv :=
           enc_key_of (firstn 64 stream) secret ++ enc_iv_of (firstn 64 stream) |}),
     [EvReadExactly reader 64]).
Proof.
  intros Hlen Hbefore Hhex Hmagic.
  unfold handle_handshake. rewrite readexactly_ok by exact Hlen.
  change (firstn HANDSHAKE_LEN stream) with (firstn 64 stream).
  rewrite (handle_handshake_users_skip _ _ _ _ _ Hbefore).
  rewrite (handle_handshake_users_cons _ _ _ _ _ _ _ Hhex), Hmagic.
  reflexivity.
Qed.

Lemma trial_decryptor_after_preamble (h secret : bytes) :
  length h = 64%nat ->
  snd (decrypt (trial_decryptor h secret) h)
  = {| key := dec_key_of h secret;
       counter := (dec_iv_of h + 4) mod COUNTER_MODULUS;
       remaining := [] |}.
Proof.
  intros Hh. unfold decrypt, trial_decryptor. now rewrite encrypt_fresh_64.
Qed.

Lemma enc_key_and_iv_length (h secret : bytes) :
  length h = 64%nat -> length (enc_key_of h secret ++ enc_iv_of h) = 48%nat.
Proof.
  intros Hh. unfold enc_key_of, enc_iv_of.
  rewrite length_app, sha256_length, length_skipn, length_rev, slice_length by lia.
  reflexivity.
Qed.

(** C2.  On a stream that delivers at least 64 bytes, with users tried
    in configured order, the first user [u] whose trial decryption of
    the preamble (key SHA-256(preamble[8..40] || secret), IV
    preamble[40..56] big-endian) shows EF EF EF EF at 56..60 is
    returned, with dc_idx = abs(signed 16-bit little-endian of
    decrypted[60..62]) - 1, the reader wrapped with that trial decryptor
    standing four blocks after its IV, the writer wrapped with an
    encryptor keyed by SHA-256(reverse(preamble[8..56])[0..32] || secret)
    with IV reverse(preamble[8..56])[32..48], and the 48 bytes
    enc_key || enc_iv. *)
Theorem handshake_accepts_first_match (stream : bytes) (reader writer : stream_id)
    (before rest : list (string * string)) (u hex : string) (secret : bytes) :
  (64 <= length stream)%nat ->
  Forall (fun uh => exists s, fromhex (snd uh) = Some s
                              /\ magic_found (firstn 64 stream) s = false) before ->
  fromhex hex = Some secret ->
  magic_found (firstn 64 stream) secret = true ->
  handle_handshake (before ++ (u, hex) :: rest) reader writer (Ok stream)
  = (Ok (Some
      {| hs_reader :=
           {| rd_stream := reader;
              decryptor :=
                AesCtr {| key := dec_key_of (firstn 64 stream) secret;
                          counter := (dec_iv_of (firstn 64 stream) + 4)
                                     mod COUNTER_MODULUS;
                          remaining := [] |} |};
         hs_writer :=
           {| wr_stream := writer;
              encryptor :=
                AesCtr (create_aes (enc_key_of (firstn 64 stream) secret)
                          (int_from_bytes_big (enc_iv_of (firstn 64 stream)))) |};
         hs_user := u;
         hs_dc_idx :=
           Z.abs (int_from_bytes_little_signed
                    (slice (trial_decrypt (firstn 64 stream) secret) 60 62)) - 1;
         hs_enc_key_and_iv :=
           enc_key_of (firstn 64 stream) secret ++ enc_iv_of (firstn 64 stream) |}),
     [EvReadExactly reader 64])
  /\ snd (decrypt (trial_decryptor (firstn 64 stream) secret) (firstn 64 stream))
     = {| key := dec_key_of (firstn 64 stream) secret;
          counter := (dec_iv_of (firstn 64 stream) + 4) mod COUNTER_MODULUS;
          remaining := [] |}
  /\ length (enc_key_of (firstn 64 stream) secret ++ enc_iv_of (firstn 64 stream))
     = 48%nat.
Proof.
  intros Hlen Hbefore Hhex Hmagic.
  assert (Hh : length (firstn 64 stream) = 64%nat) by (rewrite length_firstn; lia).
  split; [|split].
  - rewrite (handle_handshake_first_match _ _ _ _ _ _ _ _ Hlen Hbefore Hhex Hmagic).
    now rewrite trial_decryptor_after_preamble.
  - now apply trial_decryptor_after_preamble.
  - now apply enc_key_and_iv_length.
Qed.
End Acceptor.

Lemma signed_le_i16_spec (b0 b1 : Z) :
  int_from_bytes_little_signed [b0; b1] = signed_le_i16 b0 b1.
Proof.
  unfold int_from_bytes_little_signed, signed_le_i16, int_from_bytes_little.
  cbn [fold_right length].
  replace (b0 + 256 * (b1 + 256 * 0)) with (b0 + 256 * b1) by lia.
  reflexivity.
Qed.

(** The datacenter field [FE FF] is -2 and selects index 1; [01 00]
    selects index 0. *)
Example dc_field_examples :
  Z.abs (int_from_bytes_little_signed [254; 255]) - 1 = 1
  /\ Z.abs (int_from_bytes_little_signed [1; 0]) - 1 = 0
  /\ Z.abs (int_from_bytes_little_signed [0; 0]) - 1 = -1.
Proof. repeat split. Qed.

Lemma handshake_accepts_first_match_witness :
  (64 <= length example_preamble)%nat
  /\ @magic_found toy_primitives (firstn 64 example_preamble) example_secret = true
  /\ fst (@handle_handshake toy_primitives example_users Client Client (Ok example_preamble))
     = Ok (Some
        {| hs_reader :=
             {| rd_stream := Client;
                decryptor :=
                  AesCtr {| key := @dec_key_of toy_primitives (firstn 64 example_preamble)
                                     example_secret;
                            counter := (dec_iv_of (firstn 64 example_preamble) + 4)
                                       mod COUNTER_MODULUS;
                            remaining := [] |} |};
           hs_writer :=
             {| wr_stream := Client;
                encryptor :=
                  AesCtr (create_aes
                            (@enc_key_of toy_primitives (firstn 64 example_preamble)
                               example_secret)
                            (int_from_bytes_big (enc_iv_of (firstn 64 example_preamble)))) |};
           hs_user := "tg";
           hs_dc_idx := 1;
           hs_enc_key_and_iv :=
             @enc_key_of toy_primitives (firstn 64 example_preamble) example_secret
             ++ enc_iv_of (firstn 64 example_preamble) |}).
Proof.
  assert (H1 : (64 <= length example_preamble)%nat) by (vm_compute; lia).
  assert (H2 : @magic_found toy_primitives (firstn 64 example_preamble) example_secret
               = true) by (vm_compute; reflexivity).
  split; [exact H1|]. split; [exact H2|].
  assert (H0 : Forall (fun uh => exists s, @fromhex toy_primitives (snd uh) = Some s
                  /\ @magic_found toy_primitives (firstn 64 example_preamble) s = false)
                 [("alice", "ffffffffffffffffffffffffffffffff")%string]).
  { constructor; [|constructor].
    eexists. split; [reflexivity|vm_compute; reflexivity]. }
  destruct (@handshake_accepts_first_match toy_primitives example_preamble Client Client
              [("alice", "ffffffffffffffffffffffffffffffff")%string] []
              "tg"%string example_secret_hex example_secret H1 H0 eq_refl H2)
    as [E _].
  change ([("alice", "ffffffffffffffffffffffffffffffff")%string]
          ++ [("tg"%string, example_secret_hex)]) with example_users in E.
  rewrite E. reflexivity.
Defined.

(** ** C9 and C5: what the supervisor does with a useless or failed handshake *)

Section Supervisor.
Context `{Primitives}.

Lemma do_direct_handshake_out_of_range (cfg : config) (dc_idx : Z)
    (reuse : option bytes) (env : upstream_env) :
  dc_idx < 0 \/ 5 <= dc_idx ->
  do_direct_handshake cfg dc_idx reuse env = (Ok None, []).
Proof.
  intros Hdc. unfold do_direct_handshake.
  change (Z.of_nat (length TG_DATACENTERS_V6)) with 5.
  change (Z.of_nat (length TG_DATACENTERS_V4)) with 5.
  assert (E : (0 <=? dc_idx) && (dc_idx <? 5) = false).
  { apply andb_false_iff. destruct Hdc; [left; lia|right; lia]. }
  rewrite E. now destruct (PREFER_IPV6 cfg).
Qed.

(** C9.  When the first matching user's decrypted datacenter field is
    0, [handle_handshake] succeeds with dc_idx = -1; the upstream
    handshake for -1 fails its bounds check under either address list
    before any connection is attempted; the supervisor has counted the
    connect, closes the client and schedules no pump. *)
Theorem zero_dc_authenticated_then_closed (cfg cfg' : config) (stream : bytes)
    (reader writer : stream_id) (before rest : list (string * string))
    (u hex : string) (secret : bytes) (env : client_env)
    (stats : gmap string Counter) (reuse : option bytes) (uenv : upstream_env) :
  USERS cfg = before ++ (u, hex) :: rest ->
  client_input env = Ok stream ->
  (64 <= length stream)%nat ->
  Forall (fun uh => exists s, fromhex (snd uh) = Some s
                              /\ magic_found (firstn 64 stream) s = false) before ->
  fromhex hex = Some secret ->
  magic_found (firstn 64 stream) secret = true ->
  int_from_bytes_little_signed (slice (trial_decrypt (firstn 64 stream) secret) 60 62)
  = 0 ->
  (exists hs,
      fst (handle_handshake (USERS cfg) reader writer (Ok stream)) = Ok (Some hs)
      /\ hs_user hs = u /\ hs_dc_idx hs = -1)
  /\ do_direct_handshake cfg' (-1) reuse uenv = (Ok None, [])
  /\ handle_client_wrapper cfg reader writer env stats
     = {| run_result := Ok tt;
          run_trace := [EvReadExactly reader 64; EvClose writer];
          run_stats := update_stats u 1 0 0 stats;
          run_pumps := [] |}.
Proof.
  intros Hcfg Hin Hlen Hbefore Hhex Hmagic Hdc.
  pose proof (handle_handshake_first_match stream reader writer before rest u hex
                secret Hlen Hbefore Hhex Hmagic) as Hhs.
  rewrite Hdc in Hhs. change (Z.abs 0 - 1) with (-1) in Hhs.
  split; [|split].
  - rewrite Hcfg, Hhs. eexists. split; [reflexivity|]. split; reflexivity.
  - apply do_direct_handshake_out_of_range. lia.
  - unfold handle_client_wrapper, handle_client.
    rewrite Hcfg, Hin, Hhs.
    cbn [hs_reader hs_writer hs_user hs_dc_idx hs_enc_key_and_iv].
    change (negb USE_MIDDLE_PROXY) with true. cbv iota.
    rewrite !do_direct_handshake_out_of_range by lia.
    destruct (FAST_MODE cfg); reflexivity.
Qed.

(** C5.  If the client delivers fewer than 64 bytes, or no configured
    user's trial decryption shows the magic, [handle_handshake] raises
    the incomplete-read error or returns False, and the supervisor ends
    normally having made exactly two calls on the client stream: the one
    read of 64 bytes and the close.  Nothing is written and no pump is
    scheduled. *)
Theorem handshake_rejected_closes_silently (cfg : config) (stream : bytes)
    (reader writer : stream_id) (env : client_env) (stats : gmap string Counter) :
  client_input env = Ok stream ->
  (length stream < 64)%nat
  \/ ((64 <= length stream)%nat
      /\ Forall (fun uh => exists s, fromhex (snd uh) = Some s
                                     /\ magic_found (firstn 64 stream) s = false)
                (USERS cfg)) ->
  (fst (handle_handshake (USERS cfg) reader writer (Ok stream))
     = Raise IncompleteReadError
   \/ fst (handle_handshake (USERS cfg) reader writer (Ok stream)) = Ok None)
  /\ snd (handle_handshake (USERS cfg) reader writer (Ok stream))
     = [EvReadExactly reader 64]
  /\ handle_client_wrapper cfg reader writer env stats
     = {| run_result := Ok tt;
          run_trace := [EvReadExactly reader 64; EvClose writer];
          run_stats := stats;
          run_pumps := [] |}
  /\ written_to writer
       (run_trace (handle_client_wrapper cfg reader writer env stats)) = [].
Proof.
  intros Hin Hcase.
  assert (Hhs : handle_handshake (USERS cfg) reader writer (Ok stream)
                = (Raise IncompleteReadError, [EvReadExactly reader 64])
                \/ handle_handshake (USERS cfg) reader writer (Ok stream)
                   = (Ok None, [EvReadExactly reader 64])).
  { unfold handle_handshake. destruct Hcase as [Hshort|[Hlen Hnone]].
    - left. now rewrite readexactly_short by exact Hshort.
    - right. rewrite readexactly_ok by exact Hlen.
      change (firstn HANDSHAKE_LEN stream) with (firstn 64 stream).
      pose proof (handle_handshake_users_skip (firstn 64 stream) reader writer
                    (USERS cfg) [] Hnone) as E.
      rewrite app_nil_r in E. now rewrite E. }
  assert (Hrun : handle_client_wrapper cfg reader writer env stats
                 = {| run_result := Ok tt;
                      run_trace := [EvReadExactly reader 64; EvClose writer];
                      run_stats := stats;
                      run_pumps := [] |}).
  { unfold handle_client_wrapper, handle_client. rewrite Hin.
    destruct Hhs as [E|E]; rewrite E; reflexivity. }
  split; [|split; [|split]].
  - destruct Hhs as [E|E]; rewrite E; [left|right]; reflexivity.
  - destruct Hhs as [E|E]; rewrite E; reflexivity.
  - exact Hrun.
  - rewrite Hrun. reflexivity.
Qed.
End Supervisor.

Lemma zero_dc_authenticated_then_closed_witness :
  @magic_found toy_primitives (firstn 64 example_preamble_dc0) example_secret = true
  /\ int_from_bytes_little_signed
       (slice (@trial_decrypt toy_primitives (firstn 64 example_preamble_dc0)
                 example_secret) 60 62) = 0
  /\ @handle_client_wrapper toy_primitives example_config Client Client example_env_dc0
       (init_stats example_users)
     = {| run_result := Ok tt;
          run_trace := [EvReadExactly Client 64; EvClose Client];
          run_stats := update_stats "tg" 1 0 0 (init_stats example_users);
          run_pumps := [] |}.
Proof.
  assert (H2 : @magic_found toy_primitives (firstn 64 example_preamble_dc0)
                 example_secret = true) by (vm_compute; reflexivity).
  assert (H3 : int_from_bytes_little_signed
                 (slice (@trial_decrypt toy_primitives (firstn 64 example_preamble_dc0)
                           example_secret) 60 62) = 0) by (vm_compute; reflexivity).
  split; [exact H2|]. split; [exact H3|].
  assert (H1 : (64 <= length example_preamble_dc0)%nat) by (vm_compute; lia).
  assert (H0 : Forall (fun uh => exists s, @fromhex toy_primitives (snd uh) = Some s
                  /\ @magic_found toy_primitives (firstn 64 example_preamble_dc0) s = false)
                 [("alice", "ffffffffffffffffffffffffffffffff")%string]).
  { constructor; [|constructor].
    eexists. split; [reflexivity|vm_compute; reflexivity]. }
  apply (@zero_dc_authenticated_then_closed toy_primitives example_config example_config
           example_preamble_dc0 Client Client
           [("alice", "ffffffffffffffffffffffffffffffff")%string] []
           "tg"%string example_secret_hex example_secret example_env_dc0
           (init_stats example_users) None example_upstream
           eq_refl eq_refl H1 H0 eq_refl H2 H3).
Defined.

Lemma handshake_rejected_closes_silently_witness :
  (length [22; 3; 1] < 64)%nat
  /\ @handle_client_wrapper toy_primitives example_config Client Client example_env_short
       (init_stats example_users)
     = {| run_result := Ok tt;
          run_trace := [EvReadExactly Client 64; EvClose Client];
          run_stats := init_stats example_users;
          run_pumps := [] |}
  /\ Forall (fun uh => exists s, @fromhex toy_primitives (snd uh) = Some s
                /\ @magic_found toy_primitives (firstn 64 (repeat 0 64%nat)) s = false)
            (USERS example_config)
  /\ @handle_client_wrapper toy_primitives example_config Client Client example_env_zeros
       (init_stats example_users)
     = {| run_result := Ok tt;
          run_trace := [EvReadExactly Client 64; EvClose Client];
          run_stats := init_stats example_users;
          run_pumps := [] |}.
Proof.
  assert (H1 : (length [22; 3; 1] < 64)%nat) by (simpl; lia).
  assert (H2 : Forall (fun uh => exists s, @fromhex toy_primitives (snd uh) = Some s
                  /\ @magic_found toy_primitives (firstn 64 (repeat 0 64%nat)) s = false)
                 (USERS example_config)).
  { repeat constructor;
      (eexists; split; [reflexivity|vm_compute; reflexivity]). }
  split; [exact H1|]. split; [|split; [exact H2|]].
  - apply (@handshake_rejected_closes_silently toy_primitives example_config [22; 3; 1]
             Client Client example_env_short (init_stats example_users) eq_refl
             (or_introl H1)).
  - apply (@handshake_rejected_closes_silently toy_primitives example_config
             (repeat 0 64%nat) Client Client example_env_zeros
             (init_stats example_users) eq_refl).
    right. split; [simpl; lia|exact H2].
Defined.

(** ** C6 and C7: the preamble sent upstream *)

Lemma bytes_in_false (x : bytes) (l : list bytes) :
  bytes_in x l = false -> ~ In x l.
Proof.
  unfold bytes_in. intros Hf Hin.
  assert (Ht : existsb (bytes_eqb x) l = true).
  { apply existsb_exists. exists x. split; [exact Hin|now apply bytes_eqb_eq]. }
  congruence.
Qed.

(** What the sampling loop returns was drawn and passed the three tests. *)
Lemma sample_preamble_accepted (draws : list bytes) (rnd : bytes) :
  sample_preamble draws = Some rnd ->
  In rnd draws
  /\ bytes_in (firstn 1 rnd) RESERVED_NONCE_FIRST_CHARS = false
  /\ bytes_in (firstn 4 rnd) RESERVED_NONCE_BEGININGS = false
  /\ bytes_in (slice rnd 4 8) RESERVED_NONCE_CONTINUES = false.
Proof.
  induction draws as [|d draws IH]; cbn [sample_preamble]; [discriminate|].
  destruct (bytes_in (firstn 1 d) RESERVED_NONCE_FIRST_CHARS) eqn:E1;
    [intros Hs; destruct (IH Hs) as [Hin Hp]; split; [now right|exact Hp]|].
  destruct (bytes_in (firstn 4 d) RESERVED_NONCE_BEGININGS) eqn:E2;
    [intros Hs; destruct (IH Hs) as [Hin Hp]; split; [now right|exact Hp]|].
  destruct (bytes_in (slice d 4 8) RESERVED_NONCE_CONTINUES) eqn:E3;
    [intros Hs; destruct (IH Hs) as [Hin Hp]; split; [now right|exact Hp]|].
  intros [= <-]. split; [now left|]. now rewrite E1, E2, E3.
Qed.

(** The loop settles as soon as one draw passes the tests. *)
Lemma sample_preamble_settles (draws : list bytes) (d : bytes) :
  In d draws ->
  bytes_in (firstn 1 d) RESERVED_NONCE_FIRST_CHARS = false ->
  bytes_in (firstn 4 d) RESERVED_NONCE_BEGININGS = false ->
  bytes_in (slice d 4 8) RESERVED_NONCE_CONTINUES = false ->
  exists rnd, sample_preamble draws = Some rnd.
Proof.
  intros Hin E1 E2 E3.
  induction draws as [|d' draws IH]; [destruct Hin|].
  cbn [sample_preamble].
  destruct Hin as [->|Hin].
  - rewrite E1, E2, E3. now exists d.
  - destruct (IH Hin) as [rnd Hr]. rewrite Hr.
    destruct (bytes_in (firstn 1 d') _); [now exists rnd|].
    destruct (bytes_in (firstn 4 d') _); [now exists rnd|].
    destruct (bytes_in (slice d' 4 8) _); [now exists rnd|now exists d'].
Qed.

Lemma set_slice_head (rnd v : bytes) (a b n : nat) :
  (n <= a)%nat -> (a <= length rnd)%nat ->
  firstn n (set_slice rnd a b v) = firstn n rnd.
Proof.
  intros Hn Ha. unfold set_slice.
  rewrite firstn_app, length_firstn.
  replace (n - Nat.min a (length rnd))%nat with 0%nat by lia.
  rewrite firstn_O, app_nil_r, firstn_firstn.
  f_equal. lia.
Qed.

Lemma set_slice_length (rnd v : bytes) (a b : nat) :
  (a <= b)%nat -> (b <= length rnd)%nat ->
  length (set_slice rnd a b v) = (length rnd - (b - a) + length v)%nat.
Proof.
  intros Hab Hb. unfold set_slice.
  rewrite !length_app, length_firstn, length_skipn. lia.
Qed.

(** The overwrites leave the first eight bytes of the accepted draw. *)
Lemma upstream_preamble_head (reuse : option bytes) (draws : list bytes) (rnd : bytes) :
  Forall (fun d => length d = 64%nat) draws ->
  upstream_preamble reuse draws = Some rnd ->
  exists rnd0, sample_preamble draws = Some rnd0
               /\ length rnd0 = 64%nat
               /\ firstn 8 rnd = firstn 8 rnd0
               /\ (64 <= length rnd + 48)%nat.
Proof.
  intros Hlen. unfold upstream_preamble.
  change (MAGIC_VAL_POS + 4)%nat with 60%nat. change MAGIC_VAL_POS with 56%nat.
  change (SKIP_LEN + KEY_LEN + IV_LEN)%nat with 56%nat. change SKIP_LEN with 8%nat.
  destruct (sample_preamble draws) as [rnd0|] eqn:Es; [|discriminate].
  intros Hr. exists rnd0.
  assert (H0 : length rnd0 = 64%nat).
  { destruct (sample_preamble_accepted _ _ Es) as [Hin _].
    exact (proj1 (List.Forall_forall _ _) Hlen _ Hin). }
  assert (H1 : length (set_slice rnd0 56 60 MAGIC_VAL_TO_CHECK) = 64%nat).
  { rewrite set_slice_length by lia. rewrite H0. reflexivity. }
  split; [reflexivity|]. split; [exact H0|].
  destruct reuse as [[|b reuse]|]; injection Hr as <-.
  - split; [now rewrite set_slice_head by lia|lia].
  - split.
    + rewrite set_slice_head by lia. now rewrite set_slice_head by lia.
    + rewrite set_slice_length by lia. lia.
  - split; [now rewrite set_slice_head by lia|lia].
Qed.

Lemma upstream_preamble_length (reuse : option bytes) (draws : list bytes) (rnd : bytes) :
  Forall (fun d => length d = 64%nat) draws ->
  reuse = None \/ (exists r, reuse = Some r /\ length r = 48%nat) ->
  upstream_preamble reuse draws = Some rnd ->
  length rnd = 64%nat.
Proof.
  intros Hlen Hreuse. unfold upstream_preamble.
  change (MAGIC_VAL_POS + 4)%nat with 60%nat. change MAGIC_VAL_POS with 56%nat.
  change (SKIP_LEN + KEY_LEN + IV_LEN)%nat with 56%nat. change SKIP_LEN with 8%nat.
  destruct (sample_preamble draws) as [rnd0|] eqn:Es; [|discriminate].
  intros Hrnd.
  assert (H0 : length rnd0 = 64%nat).
  { destruct (sample_preamble_accepted _ _ Es) as [Hin _].
    exact (proj1 (List.Forall_forall _ _) Hlen _ Hin). }
  assert (H1 : length (set_slice rnd0 56 60 MAGIC_VAL_TO_CHECK) = 64%nat).
  { rewrite set_slice_length by lia. rewrite H0. reflexivity. }
  destruct Hreuse as [->|[r [-> Hr]]]; [now injection Hrnd as <-|].
  destruct r as [|b r]; [discriminate Hr|].
  injection Hrnd as <-.
  rewrite set_slice_length by lia.
  rewrite H1, ?length_app, ?length_rev. cbn [length] in *. lia.
Qed.

Section Initiator.
Context `{Primitives}.

(** [do_direct_handshake] for an index that passes the bounds check. *)
Lemma do_direct_handshake_in_range (cfg : config) (dc_idx : Z)
    (reuse : option bytes) (env : upstream_env) :
  0 <= dc_idx < 5 ->
  do_direct_handshake cfg dc_idx reuse env
  = let opened := [EvConnect (datacenter cfg dc_idx) TG_DATACENTER_PORT] in
    match connect_result env (datacenter cfg dc_idx) with
    | Raise e => if is_OSError e then (Ok None, opened) else (Raise e, opened)
    | Pending => (Pending, opened)
    | Ok _ =>
        match upstream_preamble reuse (random_draws env) with
        | None => (Pending, opened)
        | Some rnd =>
            let written := opened ++ [EvWrite Upstream (upstream_wire rnd)] in
            match write_result env with
            | Raise e => (Raise e, written)
            | Pending => (Pending, written)
            | Ok _ =>
                match drain_result env with
                | Raise e => (Raise e, written ++ [EvDrain Upstream])
                | Pending => (Pending, written ++ [EvDrain Upstream])
                | Ok _ =>
                    (Ok (Some
                       ({| rd_stream := Upstream;
                           decryptor := AesCtr (upstream_decryptor rnd) |},
                        {| wr_stream := Upstream;
                           encryptor :=
                             AesCtr (snd (encrypt (upstream_encryptor rnd) rnd)) |})),
                     written ++ [EvDrain Upstream])
                end
            end
        end
    end.
Proof.
  intros Hdc. unfold do_direct_handshake, datacenter.
  change (Z.of_nat (length TG_DATACENTERS_V6)) with 5.
  change (Z.of_nat (length TG_DATACENTERS_V4)) with 5.
  assert (E : (0 <=? dc_idx) && (dc_idx <? 5) = true).
  { apply andb_true_iff. split; [apply Z.leb_le|apply Z.ltb_lt]; lia. }
  rewrite E. cbn [negb].
  destruct (PREFER_IPV6 cfg);
    (destruct (connect_result env _) as [x|e|]; [|reflexivity|reflexivity];
     destruct (upstream_preamble reuse (random_draws env)) as [rnd|];
       [|reflexivity];
     change (SKIP_LEN + KEY_LEN + IV_LEN)%nat with 56%nat;
     change SKIP_LEN with 8%nat; change KEY_LEN with 32%nat;
     change MAGIC_VAL_POS with 56%nat;
     rewrite slice_8_56_prekey, slice_8_56_iv;
     unfold upstream_wire, upstream_decryptor;
     fold (upstream_encryptor rnd);
     destruct (encrypt (upstream_encryptor rnd) rnd) as [encrypted st1];
     reflexivity).
Qed.

(** A write to the datacenter only happens once a preamble is settled,
    and carries its wire form. *)
Lemma do_direct_handshake_written (cfg : config) (dc_idx : Z)
    (reuse : option bytes) (env : upstream_env) (data : bytes) :
  In (EvWrite Upstream data) (snd (do_direct_handshake cfg dc_idx reuse env)) ->
  exists rnd, upstream_preamble reuse (random_draws env) = Some rnd
              /\ data = upstream_wire rnd.
Proof.
  destruct (Z_lt_dec dc_idx 0) as [Hneg|Hpos];
    [rewrite do_direct_handshake_out_of_range by lia; intros []|].
  destruct (Z_le_dec 5 dc_idx) as [Hbig|Hsmall];
    [rewrite do_direct_handshake_out_of_range by lia; intros []|].
  rewrite do_direct_handshake_in_range by lia. cbv zeta.
  destruct (connect_result env _) as [x|e|];
    [|destruct (is_OSError e); cbn; intros [Hc|[]]; discriminate
     |cbn; intros [Hc|[]]; discriminate].
  destruct (upstream_preamble reuse (random_draws env)) as [rnd|];
    [|cbn; intros [Hc|[]]; discriminate].
  intros Hin. exists rnd. split; [reflexivity|].
  destruct (write_result env) as [y|e|]; [destruct (drain_result env) as [z|e|]|..];
    cbn in Hin;
    repeat (destruct Hin as [Hin|Hin]; [try discriminate; now injection Hin as <-|]);
    destruct Hin.
Qed.
End Initiator.

Lemma firstn_of_head (k : nat) (a b : bytes) :
  (k <= 8)%nat -> firstn 8 a = firstn 8 b -> firstn k a = firstn k b.
Proof.
  intros Hk E.
  replace k with (Nat.min k 8) by lia.
  rewrite <- !firstn_firstn. now rewrite E.
Qed.

Lemma slice_4_8_of_head (a b : bytes) :
  firstn 8 a = firstn 8 b -> slice a 4 8 = slice b 4 8.
Proof.
  intros E. unfold slice. cbn [Nat.sub].
  change 4%nat with (8 - 4)%nat at 1 3.
  rewrite <- !skipn_firstn_comm. now rewrite E.
Qed.

Section Preamble.
Context `{Primitives}.

(** C6.  Whenever [do_direct_handshake] writes to the datacenter it has
    settled on a preamble [rnd] (the accepted draw after the magic
    overwrite at 56..60 and the optional reuse overwrite at 8..56) whose
    byte 0 is not EF, whose bytes 0..4 are none of HEAD, POST, "GET "
    and EE EE EE EE, and whose bytes 4..8 are not 00 00 00 00; the bytes
    written start with the same eight bytes. *)
Theorem rejection_sampling_postcondition (cfg : config) (dc_idx : Z)
    (reuse : option bytes) (env : upstream_env) (data : bytes) :
  Forall (fun d => length d = 64%nat) (random_draws env) ->
  In (EvWrite Upstream data) (snd (do_direct_handshake cfg dc_idx reuse env)) ->
  exists rnd,
    upstream_preamble reuse (random_draws env) = Some rnd
    /\ data = upstream_wire rnd
    /\ firstn 8 data = firstn 8 rnd
    /\ firstn 1 rnd <> [239]
    /\ firstn 4 rnd <> [72; 69; 65; 68]
    /\ firstn 4 rnd <> [80; 79; 83; 84]
    /\ firstn 4 rnd <> [71; 69; 84; 32]
    /\ firstn 4 rnd <> [238; 238; 238; 238]
    /\ slice rnd 4 8 <> [0; 0; 0; 0].
Proof.
  intros Hlen Hin.
  destruct (do_direct_handshake_written _ _ _ _ _ Hin) as [rnd [Hrnd ->]].
  exists rnd. split; [exact Hrnd|]. split; [reflexivity|].
  destruct (upstream_preamble_head _ _ _ Hlen Hrnd)
    as [rnd0 [Hs [H0 [Hhead Hl]]]].
  destruct (sample_preamble_accepted _ _ Hs) as [_ [T1 [T2 T3]]].
  apply bytes_in_false in T1, T2, T3.
  rewrite (firstn_of_head 1 rnd rnd0), (firstn_of_head 4 rnd rnd0),
    (slice_4_8_of_head rnd rnd0) by (lia || exact Hhead).
  split.
  { unfold upstream_wire. rewrite firstn_app, length_firstn.
    replace (8 - Nat.min 56 (length rnd))%nat with 0%nat by lia.
    rewrite firstn_O, app_nil_r, firstn_firstn. reflexivity. }
  cbn [In RESERVED_NONCE_FIRST_CHARS RESERVED_NONCE_BEGININGS
          RESERVED_NONCE_CONTINUES] in T1, T2, T3.
  repeat split; intros E; rewrite E in *; tauto.
Qed.

(** C7.  For a preamble [rnd] settled from 64-byte draws (with no reuse
    or a 48-byte one), an index in range and a network that accepts the
    connection, the write and the flush, the bytes written to the
    datacenter are [rnd[0..56]] followed by the last 8 bytes of the
    encryption of the whole of [rnd] under the upstream encryptor
    (key [rnd[8..40]], IV [rnd[40..56]]); the encryptor returned in the
    writer has made that one call and stands 4 blocks after its IV with
    no keystream left over. *)
Theorem upstream_preamble_transmission (cfg : config) (dc_idx : Z)
    (reuse : option bytes) (env : upstream_env) (rnd : bytes) :
  0 <= dc_idx < 5 ->
  connect_result env (datacenter cfg dc_idx) = Ok tt ->
  write_result env = Ok tt ->
  drain_result env = Ok tt ->
  Forall (fun d => length d = 64%nat) (random_draws env) ->
  reuse = None \/ (exists r, reuse = Some r /\ length r = 48%nat) ->
  upstream_preamble reuse (random_draws env) = Some rnd ->
  do_direct_handshake cfg dc_idx reuse env
  = (Ok (Some
       ({| rd_stream := Upstream; decryptor := AesCtr (upstream_decryptor rnd) |},
        {| wr_stream := Upstream;
           encryptor :=
             AesCtr {| key := slice rnd 8 40;
                       counter := (int_from_bytes_big (slice rnd 40 56) + 4)
                                  mod COUNTER_MODULUS;
                       remaining := [] |} |})),
     [EvConnect (datacenter cfg dc_idx) 443;
      EvWrite Upstream
        (firstn 56 rnd
         ++ skipn 56 (fst (encrypt (create_aes (slice rnd 8 40)
                                      (int_from_bytes_big (slice rnd 40 56))) rnd)));
      EvDrain Upstream])
  /\ length rnd = 64%nat
  /\ length (fst (encrypt (create_aes (slice rnd 8 40)
                             (int_from_bytes_big (slice rnd 40 56))) rnd)) = 64%nat
  /\ snd (encrypt (create_aes (slice rnd 8 40)
                     (int_from_bytes_big (slice rnd 40 56))) rnd)
     = {| key := slice rnd 8 40;
          counter := (int_from_bytes_big (slice rnd 40 56) + 4) mod COUNTER_MODULUS;
          remaining := [] |}.
Proof.
  intros Hdc Hconn Hwrite Hdrain Hlen Hreuse Hrnd.
  assert (H64 : length rnd = 64%nat)
    by exact (upstream_preamble_length _ _ _ Hlen Hreuse Hrnd).
  assert (Hst : snd (encrypt (upstream_encryptor rnd) rnd)
                = {| key := slice rnd 8 40;
                     counter := (int_from_bytes_big (slice rnd 40 56) + 4)
                                mod COUNTER_MODULUS;
                     remaining := [] |}).
  { unfold upstream_encryptor. now rewrite encrypt_fresh_64. }
  split; [|split; [exact H64|split]].
  - rewrite do_direct_handshake_in_range by exact Hdc. cbv zeta.
    rewrite Hconn, Hrnd, Hwrite, Hdrain, Hst. reflexivity.
  - rewrite encrypt_length. exact H64.
  - exact Hst.
Qed.
End Preamble.

Lemma rejection_sampling_postcondition_witness :
  Forall (fun d => length d = 64%nat) (random_draws example_upstream)
  /\ In (EvWrite Upstream (@upstream_wire toy_primitives (example_wire_preamble)))
        (snd (@do_direct_handshake toy_primitives example_config 1 None example_upstream))
  /\ firstn 8 (@upstream_wire toy_primitives example_wire_preamble)
     = [100; 101; 102; 103; 104; 105; 106; 107].
Proof.
  assert (H1 : Forall (fun d => length d = 64%nat) (random_draws example_upstream)).
  { repeat constructor. }
  assert (H2 : In (EvWrite Upstream (@upstream_wire toy_primitives example_wire_preamble))
                  (snd (@do_direct_handshake toy_primitives example_config 1 None
                          example_upstream))).
  { vm_compute. right. left. reflexivity. }
  split; [exact H1|]. split; [exact H2|].
  destruct (@rejection_sampling_postcondition toy_primitives example_config 1 None
              example_upstream _ H1 H2) as [rnd [Hr [_ [Hh _]]]].
  rewrite Hh. injection Hr as <-. reflexivity.
Defined.

Lemma upstream_preamble_transmission_witness :
  upstream_preamble None (random_draws example_upstream) = Some example_wire_preamble
  /\ snd (@do_direct_handshake toy_primitives example_config 1 None example_upstream)
     = [EvConnect "149.154.167.51" 443;
        EvWrite Upstream
          (firstn 56 example_wire_preamble
           ++ skipn 56 (fst (@encrypt toy_primitives
                               (create_aes (slice example_wire_preamble 8 40)
                                  (int_from_bytes_big (slice example_wire_preamble 40 56)))
                               example_wire_preamble)));
        EvDrain Upstream].
Proof.
  assert (H1 : upstream_preamble None (random_draws example_upstream)
               = Some example_wire_preamble) by reflexivity.
  split; [exact H1|].
  destruct (@upstream_preamble_transmission toy_primitives example_config 1 None
              example_upstream example_wire_preamble
              ltac:(lia) eq_refl eq_refl eq_refl
              ltac:(repeat constructor) (or_introl eq_refl) H1) as [E _].
  rewrite E. reflexivity.
Defined.

(** ** C1: fast mode *)

Lemma slice_set_slice (rnd v : bytes) (a b : nat) :
  (a <= length rnd)%nat -> length v = (b - a)%nat ->
  slice (set_slice rnd a b v) a b = v.
Proof.
  intros Ha Hv. unfold slice, set_slice.
  rewrite skipn_app, length_firstn.
  replace (a - Nat.min a (length rnd))%nat with 0%nat by lia.
  rewrite skipn_O, skipn_all2 by (rewrite length_firstn; lia).
  cbn [app]. rewrite firstn_app, <- Hv, Nat.sub_diag, firstn_O, app_nil_r.
  apply firstn_all.
Qed.

Section FastMode.
Context `{Primitives}.

(** What a successful client handshake returned, whichever user matched. *)
Lemma handle_handshake_ok_inv (users : list (string * string))
    (reader writer : stream_id) (stream : bytes) (hs : handshake_ok)
    (tr : list event) :
  handle_handshake users reader writer (Ok stream) = (Ok (Some hs), tr) ->
  (64 <= length stream)%nat
  /\ exists secret,
      hs_writer hs
      = {| wr_stream := writer;
           encryptor := AesCtr (create_aes (enc_key_of (firstn 64 stream) secret)
                                  (int_from_bytes_big (enc_iv_of (firstn 64 stream)))) |}
      /\ hs_enc_key_and_iv hs
         = enc_key_of (firstn 64 stream) secret ++ enc_iv_of (firstn 64 stream).
Proof.
  unfold handle_handshake.
  destruct (Nat.le_gt_cases 64 (length stream)) as [Hlen|Hshort];
    [|rewrite readexactly_short by exact Hshort; discriminate].
  rewrite readexactly_ok by exact Hlen.
  change (firstn HANDSHAKE_LEN stream) with (firstn 64 stream).
  intros E. split; [exact Hlen|].
  injection E as E _. revert E.
  induction users as [|[u hex] users IH].
  - discriminate.
  - destruct (fromhex hex) as [secret|] eqn:Hhex.
    + rewrite (handle_handshake_users_cons _ _ _ _ _ _ _ Hhex).
      destruct (magic_found (firstn 64 stream) secret); [|exact IH].
      intros [= <-]. exists secret. split; reflexivity.
    + cbn [handle_handshake_users]. rewrite Hhex. discriminate.
Qed.

(** What a successful upstream handshake returned. *)
Lemma do_direct_handshake_ok_inv (cfg : config) (dc_idx : Z) (reuse : option bytes)
    (env : upstream_env) (rd_tg : CryptoWrappedStreamReader)
    (wr_tg : CryptoWrappedStreamWriter) (tr : list event) :
  do_direct_handshake cfg dc_idx reuse env = (Ok (Some (rd_tg, wr_tg)), tr) ->
  exists rnd,
    upstream_preamble reuse (random_draws env) = Some rnd
    /\ rd_tg = {| rd_stream := Upstream; decryptor := AesCtr (upstream_decryptor rnd) |}
    /\ wr_tg = {| wr_stream := Upstream;
                  encryptor := AesCtr (snd (encrypt (upstream_encryptor rnd) rnd)) |}.
Proof.
  destruct (Z_lt_dec dc_idx 0) as [Hneg|Hpos];
    [rewrite do_direct_handshake_out_of_range by lia; discriminate|].
  destruct (Z_le_dec 5 dc_idx) as [Hbig|Hsmall];
    [rewrite do_direct_handshake_out_of_range by lia; discriminate|].
  rewrite do_direct_handshake_in_range by lia. cbv zeta.
  destruct (connect_result env _) as [x|e|];
    [|destruct (is_OSError e); discriminate|discriminate].
  destruct (upstream_preamble reuse (random_draws env)) as [rnd|]; [|discriminate].
  destruct (write_result env) as [y|e|]; [|discriminate|discriminate].
  destruct (drain_result env) as [z|e|]; [|discriminate|discriminate].
  intros [= <- <- _]. exists rnd. repeat split.
Qed.

(** With the client's [enc_key || enc_iv] as reuse, the upstream
    decryptor is created from exactly that key and IV. *)
Lemma upstream_decryptor_reuse (enc_key enc_iv : bytes) (draws : list bytes)
    (rnd : bytes) :
  length enc_key = 32%nat -> length enc_iv = 16%nat ->
  Forall (fun d => length d = 64%nat) draws ->
  upstream_preamble (Some (enc_key ++ enc_iv)) draws = Some rnd ->
  upstream_decryptor rnd = create_aes enc_key (int_from_bytes_big enc_iv).
Proof.
  intros Hk Hi Hlen. unfold upstream_preamble.
  change (MAGIC_VAL_POS + 4)%nat with 60%nat. change MAGIC_VAL_POS with 56%nat.
  change (SKIP_LEN + KEY_LEN + IV_LEN)%nat with 56%nat. change SKIP_LEN with 8%nat.
  destruct (sample_preamble draws) as [rnd0|] eqn:Es; [|discriminate].
  assert (H0 : length rnd0 = 64%nat).
  { destruct (sample_preamble_accepted _ _ Es) as [Hin _].
    exact (proj1 (List.Forall_forall _ _) Hlen _ Hin). }
  assert (H1 : length (set_slice rnd0 56 60 MAGIC_VAL_TO_CHECK) = 64%nat).
  { rewrite set_slice_length by lia. rewrite H0. reflexivity. }
  destruct enc_key as [|k0 ek]; [discriminate Hk|].
  cbn [app]. intros Hr.
  change (k0 :: ek ++ enc_iv) with ((k0 :: ek) ++ enc_iv) in Hr.
  set (enc_key := k0 :: ek) in *.
  assert (H48 : length (enc_key ++ enc_iv) = 48%nat)
    by (rewrite length_app; lia).
  set (reuse := enc_key ++ enc_iv) in *.
  assert (E : rnd = set_slice (set_slice rnd0 56 60 MAGIC_VAL_TO_CHECK) 8 56
                      (rev reuse)) by congruence.
  subst rnd. unfold upstream_decryptor.
  rewrite slice_set_slice by (rewrite ?length_rev; lia).
  rewrite rev_involutive. unfold reuse.
  rewrite firstn_app, <- Hk, Nat.sub_diag, firstn_O, app_nil_r, firstn_all.
  rewrite skipn_app, Nat.sub_diag, skipn_all, skipn_O. reflexivity.
Qed.

Lemma encrypt_decrypt_same_state (st : aes_ctr) (raw : bytes) :
  encrypt st (fst (decrypt st raw)) = (raw, snd (decrypt st raw)).
Proof.
  destruct (decrypt_encrypt_same_state st raw) as [E1 E2].
  unfold decrypt in *.
  destruct (encrypt st (fst (encrypt st raw))) as [out st'].
  cbn [fst snd] in E1, E2. now rewrite E1, E2.
Qed.

Lemma decrypt_nonempty (st : aes_ctr) (b : Z) (raw : bytes) :
  fst (decrypt st (b :: raw)) <> [].
Proof.
  intros E. pose proof (encrypt_length st (b :: raw)) as Hl.
  unfold decrypt in E. rewrite E in Hl. discriminate Hl.
Qed.

(** One operation keeps the two pumps together: same calls, same
    statistics. *)
Lemma fast_sim_step (cfg : config) (p q : pump_state) (io : result bytes)
    (stats : gmap string Counter) :
  fast_sim p q ->
  fast_sim (fst (fst (pump_step cfg p io stats))) (fst (fst (pump_step cfg q io stats)))
  /\ snd (fst (pump_step cfg p io stats)) = snd (fst (pump_step cfg q io stats))
  /\ snd (pump_step cfg p io stats) = snd (pump_step cfg q io stats).
Proof.
  intros [st rs ws u l Hl|st rs ws u raw].
  - destruct io as [raw|e|]; destruct l as [| | | |data| |r];
      try (exfalso; now apply (Hl data));
      unfold pump_step, pump_except, set_pc;
      cbn [pc rd wr user rd_stream wr_stream reader_read];
      try (destruct (caught_by_pump e));
      cbn [fst snd];
      try (split; [constructor; intros; discriminate|split; reflexivity]).
    cbn [decryptor cipher_decrypt].
    destruct raw as [|b raw].
    + unfold decrypt. rewrite encrypt_nil. cbn [fst snd].
      split; [constructor; intros; discriminate|split; reflexivity].
    + pose proof (decrypt_nonempty st b raw) as Hne.
      pose proof (encrypt_length st (b :: raw)) as Hlen.
      unfold decrypt in *.
      destruct (encrypt st (b :: raw)) as [[|d data] st'] eqn:E;
        [now contradiction Hne|].
      cbn [fst snd] in *.
      split; [|split; [now rewrite Hlen|reflexivity]].
      pose proof (sim_in_flight st rs ws u (b :: raw)) as S.
      unfold decrypt in S. rewrite E in S. exact S.
  - destruct io as [x|e|];
      unfold pump_step, pump_except, set_pc, writer_write, cipher_encrypt;
      cbn [pc rd wr user rd_stream wr_stream encryptor];
      rewrite ?encrypt_decrypt_same_state; cbn [fst snd].
    + split; [constructor; intros; discriminate|split; reflexivity].
    + destruct (caught_by_pump e); cbn [fst snd];
        (split; [constructor; intros; discriminate|split; reflexivity]).
    + split; [apply sim_in_flight|split; reflexivity].
Qed.

Lemma fast_sim_run (cfg : config) (script : list (result bytes)) :
  forall (p q : pump_state) (stats : gmap string Counter),
    fast_sim p q ->
    fast_sim (fst (fst (pump_run cfg p stats script)))
             (fst (fst (pump_run cfg q stats script)))
    /\ snd (fst (pump_run cfg p stats script)) = snd (fst (pump_run cfg q stats script))
    /\ snd (pump_run cfg p stats script) = snd (pump_run cfg q stats script).
Proof.
  induction script as [|io script IH]; intros p q stats Hsim.
  - cbn [pump_run fst snd]. repeat split. exact Hsim.
  - cbn [pump_run].
    destruct (fast_sim_step cfg p q io stats Hsim) as [S1 [S2 S3]].
    destruct (pump_step cfg p io stats) as [[p1 s1] e1].
    destruct (pump_step cfg q io stats) as [[q1 s2] e2].
    cbn [fst snd] in S1, S2, S3. subst s2 e2.
    destruct (IH p1 q1 s1 S1) as [T1 [T2 T3]].
    destruct (pump_run cfg p1 s1 script) as [[p2 s3] e3].
    destruct (pump_run cfg q1 s1 script) as [[q2 s4] e4].
    cbn [fst snd] in *. subst. repeat split. exact T1.
Qed.
End FastMode.

Section FastModeClaim.
Context `{Primitives}.

(** C1.  After a client handshake that succeeded with key material
    enc_key || enc_iv (48 bytes), an upstream handshake given that
    material as reuse returns an upstream decryptor created from the
    same key and IV as the client-bound encryptor.  Consequently the
    pump from the datacenter to the client makes the same calls, byte
    for byte, and leaves the same statistics whether it decrypts with
    the upstream decryptor and re-encrypts with the client encryptor or
    forwards verbatim through the two identity transforms, for every
    script of read results and transport outcomes; and in fast mode the
    supervisor schedules exactly the verbatim pump. *)
Theorem fast_mode_equivalence (cfg : config) (reader writer : stream_id)
    (stream : bytes) (hs : handshake_ok) (tr0 tr : list event)
    (env : upstream_env) (rd_tg : CryptoWrappedStreamReader)
    (wr_tg : CryptoWrappedStreamWriter) (u : string)
    (stats : gmap string Counter) (script : list (result bytes)) :
  handle_handshake (USERS cfg) reader writer (Ok stream) = (Ok (Some hs), tr0) ->
  Forall (fun d => length d = 64%nat) (random_draws env) ->
  do_direct_handshake cfg (hs_dc_idx hs) (Some (hs_enc_key_and_iv hs)) env
  = (Ok (Some (rd_tg, wr_tg)), tr) ->
  (exists enc_key enc_iv,
      hs_enc_key_and_iv hs = enc_key ++ enc_iv
      /\ length enc_key = 32%nat /\ length enc_iv = 16%nat
      /\ decryptor rd_tg = AesCtr (create_aes enc_key (int_from_bytes_big enc_iv))
      /\ encryptor (hs_writer hs)
         = AesCtr (create_aes enc_key (int_from_bytes_big enc_iv)))
  /\ decryptor rd_tg = encryptor (hs_writer hs)
  /\ snd (connect_reader_to_writer cfg rd_tg (hs_writer hs) u stats script)
     = snd (connect_reader_to_writer cfg
              {| rd_stream := rd_stream rd_tg; decryptor := Fake |}
              {| wr_stream := wr_stream (hs_writer hs); encryptor := Fake |}
              u stats script)
  /\ snd (fst (connect_reader_to_writer cfg rd_tg (hs_writer hs) u stats script))
     = snd (fst (connect_reader_to_writer cfg
                   {| rd_stream := rd_stream rd_tg; decryptor := Fake |}
                   {| wr_stream := wr_stream (hs_writer hs); encryptor := Fake |}
                   u stats script))
  /\ (FAST_MODE cfg = true ->
      run_pumps (handle_client cfg reader writer
                   {| client_input := Ok stream; upstream := env |} stats)
      = [ {| rd := {| rd_stream := rd_stream rd_tg; decryptor := Fake |};
             wr := {| wr_stream := wr_stream (hs_writer hs); encryptor := Fake |};
             user := hs_user hs; pc := NotStarted |};
          {| rd := hs_reader hs; wr := wr_tg; user := hs_user hs;
             pc := NotStarted |} ]).
Proof.
  intros Hhs Hlen Hdd.
  destruct (handle_handshake_ok_inv _ _ _ _ _ _ Hhs)
    as [H64 [secret [Hwr Hmat]]].
  destruct (do_direct_handshake_ok_inv _ _ _ _ _ _ _ Hdd)
    as [rnd [Hrnd [Hrd Hwt]]].
  set (h := firstn 64 stream) in *.
  assert (Hh : length h = 64%nat) by (unfold h; rewrite length_firstn; lia).
  assert (Hk : length (enc_key_of h secret) = 32%nat) by apply sha256_length.
  assert (Hi : length (enc_iv_of h) = 16%nat).
  { unfold enc_iv_of. rewrite length_skipn, length_rev, slice_length by lia.
    reflexivity. }
  rewrite Hmat in Hrnd.
  pose proof (upstream_decryptor_reuse _ _ _ _ Hk Hi Hlen Hrnd) as Hdec.
  assert (Hsame : decryptor rd_tg = encryptor (hs_writer hs)).
  { rewrite Hrd, Hwr. cbn [decryptor encryptor]. now rewrite Hdec. }
  split; [|split; [exact Hsame|]].
  { exists (enc_key_of h secret), (enc_iv_of h).
    rewrite Hrd, Hwr. cbn [decryptor encryptor]. rewrite Hdec.
    repeat split; assumption. }
  assert (Hsim : fast_sim
            {| rd := rd_tg; wr := hs_writer hs; user := u; pc := Reading |}
            {| rd := {| rd_stream := rd_stream rd_tg; decryptor := Fake |};
               wr := {| wr_stream := wr_stream (hs_writer hs); encryptor := Fake |};
               user := u; pc := Reading |}).
  { rewrite Hrd, Hwr. cbn [rd_stream wr_stream]. rewrite Hdec.
    constructor. intros; discriminate. }
  unfold connect_reader_to_writer, pump_enter, set_pc.
  cbn [rd wr user pc].
  destruct (fast_sim_run cfg script _ _ (update_stats u 0 1 0 stats) Hsim)
    as [_ [S2 S3]].
  split; [exact S3|]. split; [exact S2|].
  intros Hfast. unfold handle_client. cbn [client_input upstream].
  rewrite Hhs. change (negb USE_MIDDLE_PROXY) with true.
  cbv iota. rewrite Hfast, Hdd. reflexivity.
Qed.
End FastModeClaim.

(** ** C3: the per-user count of running pumps *)

Lemma current_x2_update_stats (u u' : string) (c x o : Z) (stats : gmap string Counter) :
  current_x2 (update_stats u c x o stats) u'
  = current_x2 stats u' + (if bool_decide (u = u') then x else 0).
Proof.
  unfold update_stats, current_x2.
  destruct (stats !! u) as [cnt|] eqn:E.
  - rewrite E. destruct (bool_decide_reflect (u = u')) as [<-|Hne].
    + rewrite lookup_insert_eq, E. reflexivity.
    + rewrite lookup_insert_ne by exact Hne. lia.
  - rewrite lookup_insert_eq.
    destruct (bool_decide_reflect (u = u')) as [<-|Hne].
    + rewrite lookup_insert_eq, E. reflexivity.
    + rewrite !lookup_insert_ne by exact Hne. lia.
Qed.

Ltac balance :=
  unfold alive_of, alive; cbn [pc user set_pc];
  rewrite ?current_x2_update_stats;
  repeat match goal with
         | |- context [bool_decide ?P] => destruct (bool_decide P)
         end;
  cbn [andb]; lia.

Section Accounting.
Context `{Primitives}.
Variable cfg : config.

Lemma pump_except_balance (p : pump_state) (e : exn) (stats : gmap string Counter)
    (evs : list event) (u : string) :
  alive p = true ->
  current_x2 (snd (fst (pump_except p e stats evs))) u
  - alive_of u (fst (fst (pump_except p e stats evs)))
  = current_x2 stats u - alive_of u p.
Proof.
  intros Ha. unfold pump_except.
  destruct (caught_by_pump e); cbn [fst snd];
    unfold alive_of; rewrite Ha; unfold alive; cbn [pc user set_pc];
    rewrite current_x2_update_stats;
    destruct (bool_decide (user p = u)); cbn [andb]; lia.
Qed.

(** Entering adds one to the owner's count and makes the pump alive. *)
Lemma pump_enter_balance (p : pump_state) (stats : gmap string Counter) (u : string) :
  pc p = NotStarted ->
  current_x2 (snd (pump_enter p stats)) u - alive_of u (fst (pump_enter p stats))
  = current_x2 stats u - alive_of u p.
Proof.
  intros Hpc. unfold pump_enter. cbn [fst snd].
  unfold alive_of, alive. rewrite Hpc. cbn [pc user set_pc].
  rewrite current_x2_update_stats.
  destruct (bool_decide (user p = u)); cbn [andb]; lia.
Qed.

(** Every operation keeps count minus aliveness: the count drops by
    one exactly when the pump leaves, on whichever path. *)
Lemma pump_step_balance (p : pump_state) (io : result bytes)
    (stats : gmap string Counter) (u : string) :
  current_x2 (snd (fst (pump_step cfg p io stats))) u
  - alive_of u (fst (fst (pump_step cfg p io stats)))
  = current_x2 stats u - alive_of u p.
Proof.
  destruct p as [rd0 wr0 u0 l].
  destruct io as [raw|e|]; destruct l as [| | | |data| |r];
    unfold pump_step; cbn [pc rd wr user];
    rewrite ?reader_read_ok; cbn [reader_read];
    try reflexivity;
    try (apply pump_except_balance; reflexivity);
    try (cbn [fst snd]; balance).
  all: try (destruct (fst (cipher_decrypt (decryptor rd0) raw));
            cbn [fst snd]; balance).
  all: destruct (writer_write wr0 _) as [out wr']; cbn [fst snd];
    first [balance|rewrite pump_except_balance by reflexivity; reflexivity].
Qed.

Lemma pump_step_user (p : pump_state) (io : result bytes)
    (stats : gmap string Counter) :
  user (fst (fst (pump_step cfg p io stats))) = user p.
Proof.
  destruct p as [rd0 wr0 u0 l].
  destruct io as [raw|e|]; destruct l as [| | | |data| |r];
    unfold pump_step, pump_except; cbn [pc rd wr user];
    rewrite ?reader_read_ok; cbn [reader_read];
    try reflexivity;
    try (destruct (caught_by_pump e); reflexivity).
  all: try (destruct (fst (cipher_decrypt (decryptor rd0) raw)); reflexivity).
  all: destruct (writer_write wr0 _); try destruct (caught_by_pump e); reflexivity.
Qed.

Lemma alive_count_insert (u : string) (pumps : list pump_state) (i : nat)
    (p q : pump_state) :
  pumps !! i = Some p ->
  alive_count u (<[i := q]> pumps) = alive_count u pumps - alive_of u p + alive_of u q.
Proof.
  assert (Hcons : forall x l, alive_count u (x :: l) = alive_of u x + alive_count u l)
    by reflexivity.
  revert i. induction pumps as [|x pumps IH]; intros [|i] Hi; try discriminate Hi.
  - injection Hi as ->.
    change (<[0%nat := q]> (p :: pumps)) with (q :: pumps).
    rewrite !Hcons. lia.
  - change (<[S i := q]> (x :: pumps)) with (x :: <[i := q]> pumps).
    rewrite !Hcons, (IH i Hi). lia.
Qed.

Lemma sys_step_balance (s s' : system) (u : string) :
  sys_step cfg s s' ->
  current_x2 (sys_stats s') u - alive_count u (sys_pumps s')
  = current_x2 (sys_stats s) u - alive_count u (sys_pumps s).
Proof.
  intros [s1 i p Hi Hpc|s1 i p io Hi]; cbn [sys_stats sys_pumps];
    rewrite (alive_count_insert u _ i p _ Hi).
  - pose proof (pump_enter_balance p (sys_stats s1) u Hpc). lia.
  - pose proof (pump_step_balance p io (sys_stats s1) u). lia.
Qed.

(** However the scheduled pumps are interleaved, a user's count minus
    the number of the user's pumps alive does not change. *)
Lemma sys_steps_balance (s s' : system) (u : string) :
  sys_steps cfg s s' ->
  current_x2 (sys_stats s') u - alive_count u (sys_pumps s')
  = current_x2 (sys_stats s) u - alive_count u (sys_pumps s).
Proof.
  induction 1 as [s|s1 s2 s3 _ IH Hstep]; [reflexivity|].
  rewrite (sys_step_balance _ _ u Hstep). exact IH.
Qed.

(** The pumps of a connection stay two pumps of the same user. *)
Lemma sys_steps_pair (s s' : system) (u : string) :
  sys_steps cfg s s' ->
  (exists p1 p2, sys_pumps s = [p1; p2] /\ user p1 = u /\ user p2 = u) ->
  exists q1 q2, sys_pumps s' = [q1; q2] /\ user q1 = u /\ user q2 = u.
Proof.
  induction 1 as [s|s1 s2 s3 _ IH Hstep]; intros Hpair; [exact Hpair|].
  destruct (IH Hpair) as [q1 [q2 [Hq [U1 U2]]]].
  assert (Hins : forall i p q, sys_pumps s2 !! i = Some p -> user q = user p ->
            exists r1 r2, <[i := q]> (sys_pumps s2) = [r1; r2]
                          /\ user r1 = u /\ user r2 = u).
  { intros i p q Hi Hu. rewrite Hq in Hi |- *.
    destruct i as [|[|i]]; cbn in Hi |- *;
      [injection Hi as <-; exists q, q2|injection Hi as <-; exists q1, q
      |discriminate Hi]; repeat split; congruence. }
  destruct Hstep as [s2 i p Hi Hpc|s2 i p io Hi]; cbn [sys_pumps].
  - apply (Hins i p _ Hi). reflexivity.
  - apply (Hins i p _ Hi). apply pump_step_user.
Qed.
End Accounting.

Section AccountingClaim.
Context `{Primitives}.

(** C3.  A pump adds exactly one to its user's [curr_connects_x2] on
    entry and takes exactly one off when it leaves, and changes nothing
    in between; and it does leave on every exit path: an exception
    raised by the operation a running pump waits on, whether its
    [except] clause lists it or not, ends the pump at that step with the
    count one lower, and so does the end of the source stream, after the
    read, the half-close and the flush.  Hence, however the two pumps of
    a connection are interleaved, the user's count is its value before
    the connection plus the number of the two pumps alive: plus 2 while
    both are alive, the initial value once both have finished. *)
Theorem pump_counter_accounting (cfg : config) (stats0 : gmap string Counter)
    (p1 p2 : pump_state) (u : string) (s : system) :
  pc p1 = NotStarted -> pc p2 = NotStarted ->
  user p1 = u -> user p2 = u ->
  sys_steps cfg {| sys_stats := stats0; sys_pumps := [p1; p2] |} s ->
  (exists q1 q2,
      sys_pumps s = [q1; q2]
      /\ current_x2 (sys_stats s) u
         = current_x2 stats0 u + (if alive q1 then 1 else 0)
           + (if alive q2 then 1 else 0)
      /\ (alive q1 = true -> alive q2 = true ->
          current_x2 (sys_stats s) u = current_x2 stats0 u + 2)
      /\ ((exists r1 r2, pc q1 = Finished r1 /\ pc q2 = Finished r2) ->
          current_x2 (sys_stats s) u = current_x2 stats0 u))
  /\ (forall p stats,
         current_x2 (snd (pump_enter p stats)) (user p)
         = current_x2 stats (user p) + 1)
  /\ (forall p io stats,
         alive p = true ->
         current_x2 (snd (fst (pump_step cfg p io stats))) (user p)
         = current_x2 stats (user p)
           - (if alive (fst (fst (pump_step cfg p io stats))) then 0 else 1))
  /\ (forall p e stats evs,
         pc (fst (fst (pump_except p e stats evs)))
         = Finished (if caught_by_pump e then None else Some e)
         /\ current_x2 (snd (fst (pump_except p e stats evs))) (user p)
            = current_x2 stats (user p) - 1)
  /\ (forall p e stats,
         alive p = true ->
         pc (fst (fst (pump_step cfg p (Raise e) stats)))
         = Finished (if caught_by_pump e then None else Some e)
         /\ current_x2 (snd (fst (pump_step cfg p (Raise e) stats))) (user p)
            = current_x2 stats (user p) - 1)
  /\ (forall p b1 b2 stats,
         pc p = Reading ->
         pc (fst (fst (pump_run cfg p stats [Ok []; Ok b1; Ok b2]))) = Finished None
         /\ snd (pump_run cfg p stats [Ok []; Ok b1; Ok b2])
            = [EvRead (rd_stream (rd p)) (READ_BUF_SIZE cfg);
               EvWriteEof (wr_stream (wr p)); EvDrain (wr_stream (wr p));
               EvClose (wr_stream (wr p))]
         /\ current_x2 (snd (fst (pump_run cfg p stats [Ok []; Ok b1; Ok b2]))) (user p)
            = current_x2 stats (user p) - 1)
  /\ (forall p data b1 b2 stats,
         pc p = Reading ->
         data <> [] ->
         alive (fst (fst (pump_run cfg p stats [Ok data; Ok b1; Ok b2]))) = true
         /\ current_x2 (snd (fst (pump_run cfg p stats [Ok data; Ok b1; Ok b2]))) (user p)
            = current_x2 stats (user p)).
Proof.
  intros Hpc1 Hpc2 Hu1 Hu2 Hsteps.
  split; [|split; [|split; [|split; [|split; [|split]]]]].
  - destruct (sys_steps_pair cfg _ _ u Hsteps) as [q1 [q2 [Hq [U1 U2]]]].
    { exists p1, p2. repeat split; assumption. }
    pose proof (sys_steps_balance cfg _ _ u Hsteps) as Hbal.
    cbn [sys_stats sys_pumps] in Hbal. rewrite Hq in Hbal.
    unfold alive_count, alive_of in Hbal. cbn [fold_right] in Hbal.
    rewrite Hu1, Hu2, U1, U2 in Hbal.
    unfold alive in Hbal at 3 4. rewrite Hpc1, Hpc2 in Hbal.
    rewrite bool_decide_eq_true_2 in Hbal by reflexivity.
    rewrite !andb_true_r in Hbal. cbn [andb] in Hbal.
    assert (Hcount : current_x2 (sys_stats s) u
                     = current_x2 stats0 u + (if alive q1 then 1 else 0)
                       + (if alive q2 then 1 else 0)) by lia.
    exists q1, q2. split; [exact Hq|]. split; [exact Hcount|]. split.
    + intros A1 A2. rewrite Hcount, A1, A2. lia.
    + intros [r1 [r2 [F1 F2]]]. rewrite Hcount.
      unfold alive. rewrite F1, F2. lia.
  - intros p stats. unfold pump_enter. cbn [snd].
    rewrite current_x2_update_stats, bool_decide_eq_true_2 by reflexivity.
    reflexivity.
  - intros p io stats Ha.
    pose proof (pump_step_balance cfg p io stats (user p)) as Hbal.
    unfold alive_of in Hbal. rewrite pump_step_user, Ha in Hbal.
    rewrite bool_decide_eq_true_2 in Hbal by reflexivity.
    rewrite !andb_true_r in Hbal.
    destruct (alive (fst (fst (pump_step cfg p io stats)))); lia.
  - intros p e stats evs. unfold pump_except.
    destruct (caught_by_pump e); cbn [fst snd pc set_pc];
      rewrite current_x2_update_stats, bool_decide_eq_true_2 by reflexivity;
      (split; [reflexivity|lia]).
  - intros p e stats Ha. destruct p as [rd0 wr0 u0 l].
    unfold alive in Ha. cbn [pc] in Ha.
    destruct l as [| | | |data| |r]; try discriminate Ha;
      unfold pump_step, pump_except; cbn [pc rd wr user reader_read];
      try destruct (writer_write wr0 data) as [out wr'];
      destruct (caught_by_pump e); cbn [fst snd pc set_pc user];
      rewrite current_x2_update_stats, bool_decide_eq_true_2 by reflexivity;
      (split; [reflexivity|lia]).
  - intros p b1 b2 stats Hpc. destruct p as [rd0 wr0 u0 l]. cbn [pc] in Hpc.
    subst l. unfold pump_run, pump_step. cbn [pc rd wr user].
    unfold reader_read. rewrite cipher_decrypt_nil.
    cbn [fst snd pc set_pc rd wr user app].
    rewrite current_x2_update_stats, bool_decide_eq_true_2 by reflexivity.
    split; [reflexivity|]. split; [reflexivity|lia].
  - intros p data b1 b2 stats Hpc Hdata. destruct p as [rd0 wr0 u0 l].
    cbn [pc] in Hpc. subst l.
    pose proof (cipher_decrypt_length (decryptor rd0) data) as Hlen.
    destruct (cipher_decrypt (decryptor rd0) data) as [plain d'] eqn:Ed.
    cbn [fst] in Hlen.
    destruct plain as [|b plain];
      [destruct data; [now elim Hdata|discriminate Hlen]|].
    assert (E1 : pump_step cfg {| rd := rd0; wr := wr0; user := u0; pc := Reading |}
                   (Ok data) stats
                 = ({| rd := {| rd_stream := rd_stream rd0; decryptor := d' |};
                       wr := wr0; user := u0; pc := Writing (b :: plain) |},
                    update_stats u0 0 0 (Z.of_nat (length (b :: plain))) stats,
                    [EvRead (rd_stream rd0) (READ_BUF_SIZE cfg)])).
    { unfold pump_step, reader_read. cbn [pc rd wr user]. now rewrite Ed. }
    unfold pump_run. rewrite E1.
    unfold pump_step. cbn [pc rd wr user].
    destruct (writer_write wr0 (b :: plain)) as [out wr'].
    cbn [fst snd pc set_pc rd wr user alive].
    rewrite current_x2_update_stats.
    split; [reflexivity|].
    destruct (bool_decide (u0 = u0)); lia.
Qed.
End AccountingClaim.

Lemma pump_counter_accounting_witness :
  @sys_steps toy_primitives example_config example_system_0 example_system_2
  /\ current_x2 (sys_stats example_system_2) "tg"
     = current_x2 (init_stats example_users) "tg" + 2
  /\ @sys_steps toy_primitives example_config example_system_0 example_system_6
  /\ map pc (sys_pumps example_system_6) = [Finished None; Finished None]
  /\ current_x2 (sys_stats example_system_6) "tg"
     = current_x2 (init_stats example_users) "tg".
Proof.
  assert (Hsteps : @sys_steps toy_primitives example_config example_system_0 example_system_2).
  { eapply steps_cons; [eapply steps_cons; [apply steps_refl|]|].
    - apply (@step_enter toy_primitives example_config example_system_0 0 example_pump_down);
        reflexivity.
    - apply (@step_enter toy_primitives example_config example_system_1 1 example_pump_up);
        reflexivity. }
  assert (Hend : @sys_steps toy_primitives example_config example_system_0 example_system_6).
  { eapply steps_cons; [eapply steps_cons; [eapply steps_cons;
      [eapply steps_cons; [exact Hsteps|]|]|]|].
    - apply (@step_io toy_primitives example_config example_system_2 0 example_down_1
               (Raise ConnectionResetError)); reflexivity.
    - apply (@step_io toy_primitives example_config example_system_3 1 example_up_1
               (Ok [])); reflexivity.
    - apply (@step_io toy_primitives example_config example_system_4 1 example_up_2
               (Ok [])); reflexivity.
    - apply (@step_io toy_primitives example_config example_system_5 1 example_up_3
               (Ok [])); reflexivity. }
  split; [exact Hsteps|]. split.
  - destruct (@pump_counter_accounting toy_primitives example_config
                (init_stats example_users) example_pump_down example_pump_up "tg"%string
                example_system_2 eq_refl eq_refl eq_refl eq_refl Hsteps)
      as [[q1 [q2 [Hq [_ [Hboth _]]]]] _].
    injection Hq as <- <-. apply Hboth; reflexivity.
  - split; [exact Hend|]. split; [reflexivity|].
    destruct (@pump_counter_accounting toy_primitives example_config
                (init_stats example_users) example_pump_down example_pump_up "tg"%string
                example_system_6 eq_refl eq_refl eq_refl eq_refl Hend)
      as [[q1 [q2 [Hq [_ [_ Hdone]]]]] _].
    injection Hq as <- <-. apply Hdone. exists None, None. split; reflexivity.
Defined.

(** ** C4: a transport fault that leaves the wrapper *)

Section Containment.
Context `{Primitives}.




End Containment.

Section ContainmentClaim.
Context `{Primitives}.

Lemma is_OSError_caught_by_pump (e : exn) :
  is_OSError e = true -> caught_by_pump e = true.
Proof. destruct e; intros E; try reflexivity; discriminate E. Qed.

(** A running pump meeting an exception its [except] clause lists
    finishes without raising, its last call being the close of its
    destination. *)
Lemma pump_step_contains (cfg : config) (p : pump_state) (e : exn)
    (stats : gmap string Counter) :
  alive p = true ->
  caught_by_pump e = true ->
  pc (fst (fst (pump_step cfg p (Raise e) stats))) = Finished None
  /\ exists evs, snd (pump_step cfg p (Raise e) stats)
                 = evs ++ [EvClose (wr_stream (wr p))].
Proof.
  intros Ha Hc. destruct p as [rd0 wr0 u0 l]. unfold alive in Ha. cbn [pc] in Ha.
  destruct l as [| | | |data| |r]; try discriminate Ha;
    unfold pump_step, pump_except; cbn [pc rd wr user reader_read];
    try destruct (writer_write wr0 data) as [out wr'] eqn:Ew;
    rewrite Hc; cbn [fst snd pc set_pc wr];
    (split; [reflexivity|]); try (eexists; reflexivity).
  unfold writer_write in Ew.
  destruct (cipher_encrypt (encryptor wr0) data) as [o c].
  injection Ew as _ <-. eexists. reflexivity.
Qed.

(** C4.  The claim fails at the handshake read.  When the client
    connection fails with an OS error that is not a connection reset (a
    timeout, an unreachable host) while [readexactly] waits for the 64
    bytes, the exception leaves [handle_client_wrapper]: the read is the
    only call made, the client writer is not closed, nothing is counted
    and no pump is scheduled.  The [except] clause of the wrapper does
    not list [OSError], while the sibling paths contain the same
    exception: a running pump that meets it closes its destination and
    finishes without raising, and [do_direct_handshake] meeting it on the
    connection attempt returns False. *)
Theorem os_error_escapes_wrapper (cfg : config) (reader writer : stream_id)
    (up : upstream_env) (stats : gmap string Counter) :
  handle_client_wrapper cfg reader writer
    {| client_input := Raise OSError; upstream := up |} stats
  = {| run_result := Raise OSError;
       run_trace := [EvReadExactly reader 64];
       run_stats := stats;
       run_pumps := [] |}
  /\ caught_by_wrapper OSError = false
  /\ caught_by_pump OSError = true
  /\ (forall p pstats,
         alive p = true ->
         pc (fst (fst (pump_step cfg p (Raise OSError) pstats))) = Finished None
         /\ exists evs, snd (pump_step cfg p (Raise OSError) pstats)
                        = evs ++ [EvClose (wr_stream (wr p))])
  /\ (forall dc_idx reuse uenv,
         0 <= dc_idx < 5 ->
         connect_result uenv (datacenter cfg dc_idx) = Raise OSError ->
         do_direct_handshake cfg dc_idx reuse uenv
         = (Ok None, [EvConnect (datacenter cfg dc_idx) 443])).
Proof.
  split; [reflexivity|]. split; [reflexivity|]. split; [reflexivity|]. split.
  - intros p pstats Ha. now apply pump_step_contains.
  - intros dc_idx reuse uenv Hdc Hconn.
    rewrite do_direct_handshake_in_range by exact Hdc.
    cbv zeta. rewrite Hconn. reflexivity.
Qed.
End ContainmentClaim.

Lemma fast_mode_equivalence_witness :
  fst (@handle_handshake toy_primitives (USERS example_config) Client Client
         (Ok example_preamble)) = Ok (Some example_hs)
  /\ fst (@do_direct_handshake toy_primitives example_config (hs_dc_idx example_hs)
            (Some (hs_enc_key_and_iv example_hs)) example_upstream)
     = Ok (Some (example_rd_tg, example_wr_tg))
  /\ decryptor example_rd_tg = encryptor (hs_writer example_hs)
  /\ written_to Client
       (snd (@connect_reader_to_writer toy_primitives example_config example_rd_tg
               (hs_writer example_hs) "tg" (init_stats example_users) example_script))
     = [[10; 20; 30]; [40; 50]].
Proof.
  assert (H1 : @handle_handshake toy_primitives (USERS example_config) Client Client
                 (Ok example_preamble)
               = (Ok (Some example_hs), [EvReadExactly Client 64]))
    by (vm_compute; reflexivity).
  assert (H2 : Forall (fun d => length d = 64%nat) (random_draws example_upstream))
    by (repeat constructor).
  assert (H3 : @do_direct_handshake toy_primitives example_config (hs_dc_idx example_hs)
                 (Some (hs_enc_key_and_iv example_hs)) example_upstream
               = (Ok (Some (example_rd_tg, example_wr_tg)),
                  snd (@do_direct_handshake toy_primitives example_config
                         (hs_dc_idx example_hs)
                         (Some (hs_enc_key_and_iv example_hs)) example_upstream)))
    by (vm_compute; reflexivity).
  split; [now rewrite H1|]. split; [now rewrite H3|].
  destruct (@fast_mode_equivalence toy_primitives example_config Client Client
              example_preamble example_hs _ _ example_upstream example_rd_tg
              example_wr_tg "tg"%string (init_stats example_users) example_script
              H1 H2 H3) as [_ [Hsame [Hev _]]].
  split; [exact Hsame|].
  rewrite Hev. vm_compute. reflexivity.
Defined.

(** ** The pumps a supervisor run schedules *)

Section Scheduled.
Context `{Primitives}.

(** [handle_client] schedules either nothing or the two pumps of the
    connection, not yet started and counted for the same user. *)
Lemma handle_client_pumps (cfg : config) (reader writer : stream_id)
    (env : client_env) (stats : gmap string Counter) :
  run_pumps (handle_client cfg reader writer env stats) = []
  \/ exists p1 p2,
      run_pumps (handle_client cfg reader writer env stats) = [p1; p2]
      /\ pc p1 = NotStarted /\ pc p2 = NotStarted /\ user p1 = user p2.
Proof.
  unfold handle_client.
  destruct (handle_handshake (USERS cfg) reader writer (client_input env))
    as [[[hs|]|e0|] tr]; cbn [run_pumps]; try (now left).
  change (negb USE_MIDDLE_PROXY) with true. cbv iota.
  destruct (FAST_MODE cfg);
    match goal with
    | |- context [do_direct_handshake ?c ?d ?r ?v] =>
        destruct (do_direct_handshake c d r v) as [[[[rd1 wr1]|]|e1|] tr1]
    end;
    cbn [run_pumps andb]; try (now left);
    right; eexists _, _; repeat split.
Qed.
End Scheduled.

(* ================================================================== *)
(** * Further properties of the code *)
(* ================================================================== *)

(** ** The statistics registry *)

Lemma update_stats_lookup_at (u u' : string) (c x o : Z) (stats : gmap string Counter) :
  update_stats u c x o stats !! u'
  = if decide (u = u')
    then Some {| connects := connects (counter_of stats u) + c;
                 curr_connects_x2 := curr_connects_x2 (counter_of stats u) + x;
                 octets := octets (counter_of stats u) + o |}
    else stats !! u'.
Proof.
  unfold update_stats, counter_of.
  destruct (stats !! u) as [cnt|] eqn:E.
  - rewrite E. cbn [default]. rewrite lookup_insert. reflexivity.
  - rewrite lookup_insert_eq. cbn [default].
    rewrite lookup_insert. destruct (decide (u = u')) as [->|Hne]; [reflexivity|].
    now rewrite lookup_insert_ne.
Qed.

(** X1.  [update_stats] on a user without an entry creates the entry
    from the empty counter; on a user with an entry it adds the three
    increments to it; every other user's entry is left as it was, and
    the only key that can appear is the user's. *)
Theorem update_stats_entry (u u' : string) (c x o : Z) (stats : gmap string Counter) :
  update_stats u c x o stats !! u'
  = (if decide (u = u')
     then Some {| connects := connects (counter_of stats u) + c;
                  curr_connects_x2 := curr_connects_x2 (counter_of stats u) + x;
                  octets := octets (counter_of stats u) + o |}
     else stats !! u')
  /\ dom (update_stats u c x o stats) = {[u]} ∪ dom stats.
Proof.
  split; [apply update_stats_lookup_at|].
  apply set_eq. intros v. rewrite elem_of_union, elem_of_singleton, !elem_of_dom.
  rewrite update_stats_lookup_at.
  destruct (decide (u = v)) as [->|Hne].
  - split; [now left|]. intros _. eexists. reflexivity.
  - split; [now right|]. intros [Hc|Hs]; [congruence|exact Hs].
Qed.

(** X2.  Updates add up and commute: two updates of one user are the
    update by the sums, and updates of any two users can be swapped, so
    the registry does not depend on the order in which pumps and
    supervisors report. *)
Theorem update_stats_compose (u v : string) (c1 x1 o1 c2 x2 o2 : Z)
    (stats : gmap string Counter) :
  update_stats u c1 x1 o1 (update_stats u c2 x2 o2 stats)
  = update_stats u (c2 + c1) (x2 + x1) (o2 + o1) stats
  /\ update_stats u c1 x1 o1 (update_stats v c2 x2 o2 stats)
     = update_stats v c2 x2 o2 (update_stats u c1 x1 o1 stats).
Proof.
  split; apply map_eq; intros w; rewrite !update_stats_lookup_at; unfold counter_of;
    rewrite ?update_stats_lookup_at; unfold counter_of.
  - destruct (decide (u = w)) as [->|Hne]; [|reflexivity].
    rewrite decide_True by reflexivity. simpl. f_equal. f_equal; lia.
  - destruct (decide (u = w)) as [->|Huw], (decide (v = w)) as [->|Hvw];
      rewrite ?decide_True by reflexivity; rewrite ?decide_False by congruence;
      simpl; try reflexivity; f_equal; f_equal; lia.
Qed.

Lemma init_stats_lookup (users : list (string * string)) (u : string) :
  init_stats users !! u
  = if decide (u ∈ map fst users) then Some empty_counter else None.
Proof.
  unfold init_stats. induction users as [|[n hex] users IH]; cbn [map fst].
  - rewrite list_to_map_nil, lookup_empty.
    rewrite decide_False by apply not_elem_of_nil. reflexivity.
  - rewrite list_to_map_cons, lookup_insert.
    destruct (decide (n = u)) as [->|Hne].
    + rewrite decide_True by apply list_elem_of_here. reflexivity.
    + rewrite IH. destruct (decide (u ∈ map fst users)) as [Hin|Hout].
      * rewrite decide_True by now apply list_elem_of_further. reflexivity.
      * rewrite decide_False; [reflexivity|].
        intros Hc. apply elem_of_cons in Hc as [Hc|Hc]; congruence.
Qed.

(** X3.  [init_stats] gives every configured user an entry with the
    three counters at zero and gives no entry to anybody else; a later
    [update_stats] for an unconfigured user starts from zero all the
    same. *)
Theorem init_stats_entries (users : list (string * string)) (u : string) (c x o : Z) :
  init_stats users !! u
  = (if decide (u ∈ map fst users) then Some empty_counter else None)
  /\ counter_of (init_stats users) u = empty_counter
  /\ update_stats u c x o (init_stats users) !! u
     = Some {| connects := c; curr_connects_x2 := x; octets := o |}.
Proof.
  assert (Hc : counter_of (init_stats users) u = empty_counter).
  { unfold counter_of. rewrite init_stats_lookup.
    now destruct (decide (u ∈ map fst users)). }
  split; [apply init_stats_lookup|]. split; [exact Hc|].
  rewrite update_stats_lookup_at, decide_True by reflexivity. rewrite Hc.
  reflexivity.
Qed.

(** ** The pumps: what they count, forward and close *)

Lemma written_to_app (s : stream_id) (a b : list event) :
  written_to s (a ++ b) = written_to s a ++ written_to s b.
Proof.
  induction a as [|ev a IH]; [reflexivity|].
  destruct ev as [s' n|s' n|s' data|s'|s'|s'|h p]; cbn [app written_to];
    try exact IH.
  destruct s, s'; cbn [app]; now rewrite IH.
Qed.

Lemma written_to_write (s : stream_id) (data : bytes) (rest : list event) :
  written_to s (EvWrite s data :: rest) = data :: written_to s rest.
Proof. now destruct s. Qed.

Lemma counter_of_update_stats (u u' : string) (c x o : Z) (stats : gmap string Counter) :
  counter_of (update_stats u c x o stats) u'
  = if decide (u = u')
    then {| connects := connects (counter_of stats u) + c;
            curr_connects_x2 := curr_connects_x2 (counter_of stats u) + x;
            octets := octets (counter_of stats u) + o |}
    else counter_of stats u'.
Proof.
  unfold counter_of at 1. rewrite update_stats_lookup_at.
  now destruct (decide (u = u')).
Qed.

Section PumpFacts.
Context `{Primitives}.
Variable cfg : config.

Lemma writer_write_spec (w : CryptoWrappedStreamWriter) (data : bytes) :
  writer_write w data
  = (fst (cipher_encrypt (encryptor w) data),
     {| wr_stream := wr_stream w;
        encryptor := snd (cipher_encrypt (encryptor w) data) |}).
Proof. unfold writer_write. now destruct (cipher_encrypt (encryptor w) data). Qed.

(** The case analysis shared by the facts about one operation. *)
Ltac pump_cases p io :=
  destruct p as [? ? ? [| | | |?| |?]]; destruct io as [?|?|];
  unfold pump_step, pump_except, in_flight;
  cbn [pc rd wr user];
  rewrite ?reader_read_ok, ?writer_write_spec; cbn [reader_read];
  repeat match goal with
         | |- context [match fst (cipher_decrypt ?d ?raw) with _ => _ end] =>
             destruct (fst (cipher_decrypt d raw)) eqn:?
         | |- context [if caught_by_pump ?e then _ else _] =>
             destruct (caught_by_pump e) eqn:?
         end;
  cbn [fst snd pc rd wr user set_pc rd_stream wr_stream].

Lemma pump_step_streams (p : pump_state) (io : result bytes)
    (stats : gmap string Counter) :
  rd_stream (rd (fst (fst (pump_step cfg p io stats)))) = rd_stream (rd p)
  /\ wr_stream (wr (fst (fst (pump_step cfg p io stats)))) = wr_stream (wr p).
Proof. pump_cases p io; split; reflexivity. Qed.

Lemma pump_step_finished (p : pump_state) (io : result bytes)
    (stats : gmap string Counter) :
  alive p = false -> pump_step cfg p io stats = (p, stats, []).
Proof.
  destruct p as [? ? ? [| | | |?| |?]]; destruct io as [?|?|];
    intros Ha; try discriminate Ha; reflexivity.
Qed.

Lemma pump_run_finished (p : pump_state) (stats : gmap string Counter)
    (script : list (result bytes)) :
  alive p = false -> pump_run cfg p stats script = (p, stats, []).
Proof.
  intros Ha. induction script as [|io script IH]; [reflexivity|].
  cbn [pump_run]. rewrite (pump_step_finished p io stats Ha), IH. reflexivity.
Qed.

(** One operation and the byte count: the user's octets grow by what
    was written plus the change of what is in flight. *)
Lemma pump_step_octets (p : pump_state) (io : result bytes)
    (stats : gmap string Counter) (u' : string) :
  octets (counter_of (snd (fst (pump_step cfg p io stats))) u')
  + (if decide (user p = u') then Z.of_nat (in_flight p) else 0)
  = octets (counter_of stats u')
    + (if decide (user p = u')
       then Z.of_nat (length (concat (written_to (wr_stream (wr p))
                                        (snd (pump_step cfg p io stats))))
                      + in_flight (fst (fst (pump_step cfg p io stats))))
       else 0)
  /\ connects (counter_of (snd (fst (pump_step cfg p io stats))) u')
     = connects (counter_of stats u').
Proof.
  pump_cases p io;
    rewrite ?counter_of_update_stats;
    rewrite ?written_to_app, ?written_to_write;
    cbn [written_to concat app length];
    rewrite ?app_nil_r, ?cipher_encrypt_length;
    repeat match goal with
           | |- context [decide ?P] => destruct (decide P)
           end;
    subst; cbn [connects octets length]; split; lia.
Qed.

Lemma pump_run_octets (script : list (result bytes)) :
  forall (p : pump_state) (stats : gmap string Counter) (u' : string),
    (octets (counter_of (snd (fst (pump_run cfg p stats script))) u')
     + (if decide (user p = u') then Z.of_nat (in_flight p) else 0)
     = octets (counter_of stats u')
       + (if decide (user p = u')
          then Z.of_nat (length (concat (written_to (wr_stream (wr p))
                                           (snd (pump_run cfg p stats script))))
                         + in_flight (fst (fst (pump_run cfg p stats script))))
          else 0))
    /\ connects (counter_of (snd (fst (pump_run cfg p stats script))) u')
       = connects (counter_of stats u').
Proof.
  induction script as [|io script IH]; intros p stats u'.
  - cbn [pump_run fst snd written_to concat length]. split; [|reflexivity].
    destruct (decide (user p = u')); lia.
  - cbn [pump_run].
    destruct (pump_step_octets p io stats u') as [S1 S2].
    pose proof (pump_step_user cfg p io stats) as Hu.
    destruct (pump_step_streams p io stats) as [_ Hw].
    destruct (pump_step cfg p io stats) as [[p1 s1] ev1].
    cbn [fst snd] in S1, S2, Hu, Hw.
    destruct (IH p1 s1 u') as [T1 T2]. rewrite Hu, Hw in T1.
    destruct (pump_run cfg p1 s1 script) as [[p2 s2] ev2].
    cbn [fst snd] in *.
    rewrite written_to_app, concat_app, length_app.
    split; [|congruence].
    destruct (decide (user p = u')); lia.
Qed.

(** Every call of one operation is a read on the pump's source or a
    write, write_eof, drain or close on its destination. *)
Lemma pump_step_events (p : pump_state) (io : result bytes)
    (stats : gmap string Counter) :
  Forall (pump_event (rd_stream (rd p)) (wr_stream (wr p)) (READ_BUF_SIZE cfg))
         (snd (pump_step cfg p io stats)).
Proof.
  pump_cases p io; repeat constructor;
    try (apply Forall_app; split); repeat constructor.
Qed.

Lemma pump_run_events (script : list (result bytes)) :
  forall (p : pump_state) (stats : gmap string Counter),
    Forall (pump_event (rd_stream (rd p)) (wr_stream (wr p)) (READ_BUF_SIZE cfg))
           (snd (pump_run cfg p stats script)).
Proof.
  induction script as [|io script IH]; intros p stats; [constructor|].
  cbn [pump_run].
  pose proof (pump_step_events p io stats) as E1.
  destruct (pump_step_streams p io stats) as [Hr Hw].
  destruct (pump_step cfg p io stats) as [[p1 s1] ev1].
  cbn [fst snd] in E1, Hr, Hw.
  pose proof (IH p1 s1) as E2. rewrite Hr, Hw in E2.
  destruct (pump_run cfg p1 s1 script) as [[p2 s2] ev2].
  cbn [fst snd] in *. apply Forall_app. split; assumption.
Qed.

(** One operation of a running pump and the closing of its destination. *)
Lemma pump_step_close (p : pump_state) (io : result bytes)
    (stats : gmap string Counter) :
  alive p = true ->
  match pc (fst (fst (pump_step cfg p io stats))) with
  | Finished None =>
      exists ev0, snd (pump_step cfg p io stats) = ev0 ++ [EvClose (wr_stream (wr p))]
                  /\ existsb is_close ev0 = false
  | Finished (Some e) =>
      caught_by_pump e = false
      /\ existsb is_close (snd (pump_step cfg p io stats)) = false
  | _ => existsb is_close (snd (pump_step cfg p io stats)) = false
  end.
Proof.
  intros Ha. revert Ha.
  pump_cases p io; intros Ha; try discriminate Ha; try reflexivity;
    try (split; [assumption|reflexivity]);
    try (eexists; split; [reflexivity|reflexivity]).
  exists [EvDrain (wr_stream wr0)]. split; reflexivity.
Qed.

Lemma pump_run_close (script : list (result bytes)) :
  forall (p : pump_state) (stats : gmap string Counter),
    alive p = true ->
    match pc (fst (fst (pump_run cfg p stats script))) with
    | Finished None =>
        exists tr0, snd (pump_run cfg p stats script)
                    = tr0 ++ [EvClose (wr_stream (wr p))]
                    /\ existsb is_close tr0 = false
    | Finished (Some e) =>
        caught_by_pump e = false
        /\ existsb is_close (snd (pump_run cfg p stats script)) = false
    | _ => existsb is_close (snd (pump_run cfg p stats script)) = false
    end.
Proof.
  induction script as [|io script IH]; intros p stats Ha.
  - cbn [pump_run fst snd]. unfold alive in Ha.
    destruct (pc p) as [| | | |data| |r]; try discriminate Ha; reflexivity.
  - cbn [pump_run].
    pose proof (pump_step_close p io stats Ha) as S1.
    destruct (pump_step_streams p io stats) as [_ Hw].
    destruct (pump_step cfg p io stats) as [[p1 s1] ev1].
    cbn [fst snd] in S1, Hw.
    destruct (alive p1) eqn:Ha1.
    + pose proof (IH p1 s1 Ha1) as S2. rewrite Hw in S2.
      assert (Hev1 : existsb is_close ev1 = false).
      { unfold alive in Ha1.
        destruct (pc p1) as [| | | |data| |r]; try discriminate Ha1; exact S1. }
      destruct (pump_run cfg p1 s1 script) as [[p2 s2] ev2]. cbn [fst snd] in *.
      destruct (pc p2) as [| | | |data| |[e|]];
        rewrite ?existsb_app, ?Hev1; try exact S2.
      destruct S2 as [tr0 [-> Hn]]. exists (ev1 ++ tr0).
      split; [now rewrite app_assoc|]. now rewrite existsb_app, Hev1.
    + rewrite (pump_run_finished p1 s1 script Ha1). cbn [fst snd].
      rewrite app_nil_r. exact S1.
Qed.
End PumpFacts.

Section PumpRuns.
Context `{Primitives}.

(** X4.  However a pump's run goes, the owner's [octets] has grown by
    exactly the bytes the pump handed to [write] on its destination plus
    the chunk it has read but not yet written, nobody else's [octets] has
    changed, and nobody's [connects] has changed. *)
Theorem pump_octets_accounting (cfg : config) (rd0 : CryptoWrappedStreamReader)
    (wr0 : CryptoWrappedStreamWriter) (u u' : string)
    (stats : gmap string Counter) (script : list (result bytes)) :
  octets (counter_of (snd (fst (connect_reader_to_writer cfg rd0 wr0 u stats script))) u')
  = octets (counter_of stats u')
    + (if decide (u = u')
       then Z.of_nat
              (length (concat (written_to (wr_stream wr0)
                         (snd (connect_reader_to_writer cfg rd0 wr0 u stats script))))
               + in_flight (fst (fst (connect_reader_to_writer cfg rd0 wr0 u stats script))))
       else 0)
  /\ connects (counter_of (snd (fst (connect_reader_to_writer cfg rd0 wr0 u stats script))) u')
     = connects (counter_of stats u').
Proof.
  unfold connect_reader_to_writer, pump_enter, set_pc. cbn [rd wr user pc].
  destruct (pump_run_octets cfg script
              {| rd := rd0; wr := wr0; user := u; pc := Reading |}
              (update_stats u 0 1 0 stats) u') as [E1 E2].
  cbn [user wr in_flight pc] in E1.
  rewrite counter_of_update_stats in E1, E2.
  destruct (decide (u = u')) as [->|Hne]; cbn [octets connects] in E1, E2;
    split; lia.
Qed.

(** X5.  Whatever the source and the transports do, a pump only ever
    reads from its source stream, with the configured buffer size, and
    only ever writes to, flushes, half-closes or closes its destination
    stream. *)
Theorem pump_stream_discipline (cfg : config) (rd0 : CryptoWrappedStreamReader)
    (wr0 : CryptoWrappedStreamWriter) (u : string)
    (stats : gmap string Counter) (script : list (result bytes)) :
  Forall (pump_event (rd_stream rd0) (wr_stream wr0) (READ_BUF_SIZE cfg))
         (snd (connect_reader_to_writer cfg rd0 wr0 u stats script)).
Proof.
  unfold connect_reader_to_writer, pump_enter, set_pc. cbn [rd wr user pc].
  apply (pump_run_events cfg script
           {| rd := rd0; wr := wr0; user := u; pc := Reading |}).
Qed.

(** X6.  A pump that has ended without raising has closed its
    destination exactly once, as its last call; a pump left by an
    exception outside its [except] clause has not closed its destination
    at all; a pump still running has not closed it either. *)
Theorem pump_close_discipline (cfg : config) (rd0 : CryptoWrappedStreamReader)
    (wr0 : CryptoWrappedStreamWriter) (u : string)
    (stats : gmap string Counter) (script : list (result bytes)) :
  match pc (fst (fst (connect_reader_to_writer cfg rd0 wr0 u stats script))) with
  | Finished None =>
      exists tr0,
        snd (connect_reader_to_writer cfg rd0 wr0 u stats script)
        = tr0 ++ [EvClose (wr_stream wr0)]
        /\ existsb is_close tr0 = false
  | Finished (Some e) =>
      caught_by_pump e = false
      /\ existsb is_close (snd (connect_reader_to_writer cfg rd0 wr0 u stats script))
         = false
  | _ =>
      existsb is_close (snd (connect_reader_to_writer cfg rd0 wr0 u stats script))
      = false
  end.
Proof.
  unfold connect_reader_to_writer, pump_enter, set_pc. cbn [rd wr user pc].
  apply (pump_run_close cfg script
           {| rd := rd0; wr := wr0; user := u; pc := Reading |}).
  reflexivity.
Qed.
End PumpRuns.

(** ** A pump on a source that delivers and then ends *)

Section PumpRelay.
Context `{Primitives}.
Variable cfg : config.

Lemma cipher_encrypt_app (c : cipher) (a b : bytes) :
  cipher_encrypt c (a ++ b)
  = (fst (cipher_encrypt c a) ++ fst (cipher_encrypt (snd (cipher_encrypt c a)) b),
     snd (cipher_encrypt (snd (cipher_encrypt c a)) b)).
Proof.
  destruct c as [st|]; [|reflexivity].
  unfold cipher_encrypt. rewrite encrypt_app.
  destruct (encrypt st a) as [ya st1]. cbn [fst snd].
  destruct (encrypt st1 b) as [yb st2]. reflexivity.
Qed.

Lemma cipher_encrypt_nil (c : cipher) : cipher_encrypt c [] = ([], c).
Proof. apply cipher_decrypt_nil. Qed.

Lemma relay_chunks_cons (d e : cipher) (c : bytes) (rest : list bytes) :
  relay_chunks d e (c :: rest)
  = (fst (cipher_encrypt e (fst (cipher_decrypt d c)))
       :: fst (relay_chunks (snd (cipher_decrypt d c))
                            (snd (cipher_encrypt e (fst (cipher_decrypt d c)))) rest),
     snd (relay_chunks (snd (cipher_decrypt d c))
                       (snd (cipher_encrypt e (fst (cipher_decrypt d c)))) rest)).
Proof.
  cbn [relay_chunks].
  destruct (cipher_decrypt d c) as [data d1]. cbn [fst snd].
  destruct (cipher_encrypt e data) as [out e1]. cbn [fst snd].
  now destruct (relay_chunks d1 e1 rest).
Qed.

(** Chunk by chunk or in one piece, the relayed stream is the same. *)
Lemma relay_chunks_concat (chunks : list bytes) :
  forall d e : cipher,
    concat (fst (relay_chunks d e chunks))
    = fst (cipher_encrypt e (fst (cipher_decrypt d (concat chunks))))
    /\ map (@length Z) (fst (relay_chunks d e chunks)) = map (@length Z) chunks
    /\ snd (relay_chunks d e chunks)
       = (snd (cipher_decrypt d (concat chunks)),
          snd (cipher_encrypt e (fst (cipher_decrypt d (concat chunks))))).
Proof.
  induction chunks as [|c chunks IH]; intros d e.
  - cbn [relay_chunks concat fst snd map].
    rewrite cipher_decrypt_nil. cbn [fst snd]. rewrite cipher_encrypt_nil.
    repeat split.
  - rewrite relay_chunks_cons. cbn [fst snd concat map].
    destruct (IH (snd (cipher_decrypt d c))
                 (snd (cipher_encrypt e (fst (cipher_decrypt d c)))))
      as [I1 [I2 I3]].
    rewrite I1, I2, I3.
    change (cipher_decrypt d (c ++ concat chunks))
      with (cipher_encrypt d (c ++ concat chunks)).
    rewrite (cipher_encrypt_app d). cbn [fst snd].
    rewrite (cipher_encrypt_app e). cbn [fst snd].
    rewrite cipher_encrypt_length, cipher_decrypt_length.
    repeat split.
Qed.

Lemma update_stats_twice (u : string) (c1 x1 o1 c2 x2 o2 : Z)
    (stats : gmap string Counter) :
  update_stats u c1 x1 o1 (update_stats u c2 x2 o2 stats)
  = update_stats u (c2 + c1) (x2 + x1) (o2 + o1) stats.
Proof.
  apply map_eq. intros w. rewrite !update_stats_lookup_at.
  destruct (decide (u = w)) as [->|Hne]; [|reflexivity].
  rewrite counter_of_update_stats, decide_True by reflexivity.
  cbn [connects curr_connects_x2 octets]. f_equal. f_equal; lia.
Qed.

(** One chunk: the read, the write and the flush. *)
Lemma pump_run_chunk (rs ws : stream_id) (d e : cipher) (u : string)
    (stats : gmap string Counter) (c : bytes) (script : list (result bytes)) :
  c <> [] ->
  pump_run cfg {| rd := {| rd_stream := rs; decryptor := d |};
                  wr := {| wr_stream := ws; encryptor := e |};
                  user := u; pc := Reading |} stats
           ([Ok c; Ok []; Ok []] ++ script)
  = (fst (fst (pump_run cfg
                 {| rd := {| rd_stream := rs; decryptor := snd (cipher_decrypt d c) |};
                    wr := {| wr_stream := ws;
                             encryptor :=
                               snd (cipher_encrypt e (fst (cipher_decrypt d c))) |};
                    user := u; pc := Reading |}
                 (update_stats u 0 0 (Z.of_nat (length c)) stats) script)),
     snd (fst (pump_run cfg
                 {| rd := {| rd_stream := rs; decryptor := snd (cipher_decrypt d c) |};
                    wr := {| wr_stream := ws;
                             encryptor :=
                               snd (cipher_encrypt e (fst (cipher_decrypt d c))) |};
                    user := u; pc := Reading |}
                 (update_stats u 0 0 (Z.of_nat (length c)) stats) script)),
     [EvRead rs (READ_BUF_SIZE cfg);
      EvWrite ws (fst (cipher_encrypt e (fst (cipher_decrypt d c))));
      EvDrain ws]
     ++ snd (pump_run cfg
               {| rd := {| rd_stream := rs; decryptor := snd (cipher_decrypt d c) |};
                  wr := {| wr_stream := ws;
                           encryptor :=
                             snd (cipher_encrypt e (fst (cipher_decrypt d c))) |};
                  user := u; pc := Reading |}
               (update_stats u 0 0 (Z.of_nat (length c)) stats) script)).
Proof.
  intros Hc. cbn [app pump_run].
  unfold pump_step at 1. cbn [pc rd wr user]. rewrite reader_read_ok.
  cbn [decryptor rd_stream].
  pose proof (cipher_decrypt_length d c) as Hl.
  destruct (fst (cipher_decrypt d c)) as [|b data] eqn:Ed.
  { destruct c; [now contradiction Hc|discriminate Hl]. }
  rewrite Hl.
  unfold pump_step at 1. cbn [pc rd wr user]. rewrite writer_write_spec.
  cbn [encryptor wr_stream fst snd].
  unfold pump_step at 1. cbn [pc rd wr user set_pc wr_stream].
  destruct (pump_run cfg _ _ script) as [[p2 s2] ev2]. reflexivity.
Qed.

Lemma pump_run_relay (rs ws : stream_id) (u : string) (chunks : list bytes) :
  Forall (fun c => c <> []) chunks ->
  forall (d e : cipher) (stats : gmap string Counter),
    pump_run cfg {| rd := {| rd_stream := rs; decryptor := d |};
                    wr := {| wr_stream := ws; encryptor := e |};
                    user := u; pc := Reading |} stats (relay_script chunks)
    = ({| rd := {| rd_stream := rs; decryptor := fst (snd (relay_chunks d e chunks)) |};
          wr := {| wr_stream := ws; encryptor := snd (snd (relay_chunks d e chunks)) |};
          user := u; pc := Finished None |},
       update_stats u 0 (-1) (Z.of_nat (length (concat chunks))) stats,
       flat_map (fun out => [EvRead rs (READ_BUF_SIZE cfg); EvWrite ws out; EvDrain ws])
                (fst (relay_chunks d e chunks))
       ++ [EvRead rs (READ_BUF_SIZE cfg); EvWriteEof ws; EvDrain ws; EvClose ws]).
Proof.
  induction 1 as [|c chunks Hc _ IH]; intros d e stats.
  - cbn [relay_script flat_map app relay_chunks fst snd concat length pump_run].
    unfold pump_step at 1. cbn [pc rd wr user]. rewrite reader_read_ok.
    rewrite cipher_decrypt_nil. cbn [fst snd].
    reflexivity.
  - unfold relay_script. cbn [flat_map]. rewrite <- app_assoc.
    fold (relay_script chunks).
    rewrite (pump_run_chunk rs ws d e u stats c _ Hc), IH.
    rewrite relay_chunks_cons. cbn [fst snd flat_map concat].
    rewrite update_stats_twice, length_app, Nat2Z.inj_add.
    rewrite <- app_assoc. reflexivity.
Qed.

(** X7.  When the source delivers non-empty chunks and then ends, and
    every write and flush succeeds, the pump ends without raising after
    a read, write and flush per chunk followed by the final read,
    write_eof, flush and close; the chunks written keep the sizes of the
    chunks read, and put end to end they are the encryption, under the
    writer's cipher, of the decryption, under the reader's cipher, of the
    whole input, whatever the chunk boundaries; the owner's [octets] has
    grown by the length of the input and the count of running pumps is
    back where it was. *)
Theorem pump_relays_stream (rd0 : CryptoWrappedStreamReader)
    (wr0 : CryptoWrappedStreamWriter) (u : string)
    (stats : gmap string Counter) (chunks : list bytes) :
  Forall (fun c => c <> []) chunks ->
  connect_reader_to_writer cfg rd0 wr0 u stats (relay_script chunks)
  = ({| rd := {| rd_stream := rd_stream rd0;
                 decryptor := snd (cipher_decrypt (decryptor rd0) (concat chunks)) |};
        wr := {| wr_stream := wr_stream wr0;
                 encryptor :=
                   snd (cipher_encrypt (encryptor wr0)
                          (fst (cipher_decrypt (decryptor rd0) (concat chunks)))) |};
        user := u; pc := Finished None |},
     update_stats u 0 0 (Z.of_nat (length (concat chunks))) stats,
     flat_map (fun out => [EvRead (rd_stream rd0) (READ_BUF_SIZE cfg);
                           EvWrite (wr_stream wr0) out; EvDrain (wr_stream wr0)])
              (fst (relay_chunks (decryptor rd0) (encryptor wr0) chunks))
     ++ [EvRead (rd_stream rd0) (READ_BUF_SIZE cfg); EvWriteEof (wr_stream wr0);
         EvDrain (wr_stream wr0); EvClose (wr_stream wr0)])
  /\ concat (fst (relay_chunks (decryptor rd0) (encryptor wr0) chunks))
     = fst (cipher_encrypt (encryptor wr0)
              (fst (cipher_decrypt (decryptor rd0) (concat chunks))))
  /\ map (@length Z) (fst (relay_chunks (decryptor rd0) (encryptor wr0) chunks))
     = map (@length Z) chunks.
Proof.
  intros Hne.
  destruct (relay_chunks_concat chunks (decryptor rd0) (encryptor wr0))
    as [R1 [R2 R3]].
  split; [|split; assumption].
  unfold connect_reader_to_writer, pump_enter, set_pc. cbn [rd wr user pc].
  destruct rd0 as [rs d], wr0 as [ws e]. cbn [rd_stream wr_stream decryptor encryptor] in *.
  rewrite (pump_run_relay rs ws u chunks Hne), R3, update_stats_twice.
  reflexivity.
Qed.
End PumpRelay.

Lemma pump_relays_stream_witness :
  Forall (fun c : bytes => c <> []) example_chunks
  /\ pc (fst (fst (@connect_reader_to_writer toy_primitives example_config
                     example_reader example_writer "tg" (init_stats example_users)
                     (relay_script example_chunks))))
     = Finished None
  /\ concat (written_to Upstream
               (snd (@connect_reader_to_writer toy_primitives example_config
                       example_reader example_writer "tg" (init_stats example_users)
                       (relay_script example_chunks))))
     = fst (@cipher_encrypt toy_primitives (encryptor example_writer)
              (fst (@cipher_decrypt toy_primitives (decryptor example_reader)
                      [10; 20; 30; 40; 50]))).
Proof.
  assert (H1 : Forall (fun c : bytes => c <> []) example_chunks)
    by (repeat constructor; discriminate).
  split; [exact H1|].
  destruct (@pump_relays_stream toy_primitives example_config example_reader
              example_writer "tg"%string (init_stats example_users) example_chunks H1)
    as [E [_ _]].
  rewrite E. cbn [fst snd pc]. split; [reflexivity|].
  vm_compute. reflexivity.
Defined.

(** ** The handshakes: errors, bounds and order of the draws *)

Section HandshakeEdges.
Context `{Primitives}.

(** X8.  A configured secret that is not hexadecimal makes the client
    handshake raise [ValueError] as soon as the loop reaches that user,
    even when a later user would match; the supervisor does not catch
    it, so the wrapper raises it too and the client is neither closed
    nor counted. *)
Theorem malformed_secret_raises (cfg : config) (stream : bytes)
    (reader writer : stream_id) (before rest : list (string * string))
    (u hex : string) (env : client_env) (stats : gmap string Counter) :
  USERS cfg = before ++ (u, hex) :: rest ->
  client_input env = Ok stream ->
  (64 <= length stream)%nat ->
  Forall (fun uh => exists s, fromhex (snd uh) = Some s
                              /\ magic_found (firstn 64 stream) s = false) before ->
  fromhex hex = None ->
  handle_handshake (USERS cfg) reader writer (Ok stream)
  = (Raise ValueError, [EvReadExactly reader 64])
  /\ handle_client_wrapper cfg reader writer env stats
     = {| run_result := Raise ValueError;
          run_trace := [EvReadExactly reader 64];
          run_stats := stats;
          run_pumps := [] |}.
Proof.
  intros Hcfg Hin Hlen Hbefore Hhex.
  assert (Hhs : handle_handshake (USERS cfg) reader writer (Ok stream)
                = (Raise ValueError, [EvReadExactly reader 64])).
  { unfold handle_handshake. rewrite readexactly_ok by exact Hlen.
    change (firstn HANDSHAKE_LEN stream) with (firstn 64 stream).
    rewrite Hcfg, (handle_handshake_users_skip _ _ _ _ _ Hbefore).
    cbn [handle_handshake_users]. rewrite Hhex. reflexivity. }
  split; [exact Hhs|].
  unfold handle_client_wrapper, handle_client. rewrite Hin, Hhs. reflexivity.
Qed.

(** X9.  [do_direct_handshake] attempts a connection exactly when
    [0 <= dc_idx < 5], and then only to the address listed at that index
    in the list chosen by [PREFER_IPV6], on port 443; for every other
    index it returns False without touching the network. *)
Theorem datacenter_selection (cfg : config) (dc_idx : Z) (reuse : option bytes)
    (env : upstream_env) (host : string) (port : Z) :
  (In (EvConnect host port) (snd (do_direct_handshake cfg dc_idx reuse env))
   <-> 0 <= dc_idx < 5 /\ host = datacenter cfg dc_idx /\ port = 443)
  /\ (~ 0 <= dc_idx < 5 -> do_direct_handshake cfg dc_idx reuse env = (Ok None, []))
  /\ (0 <= dc_idx < 5 ->
      In (datacenter cfg dc_idx)
         (if PREFER_IPV6 cfg then TG_DATACENTERS_V6 else TG_DATACENTERS_V4)).
Proof.
  split; [|split].
  - destruct (Z_lt_dec dc_idx 0) as [Hneg|Hpos];
      [rewrite do_direct_handshake_out_of_range by lia; cbn; split;
         [intros []|intros [? _]; lia]|].
    destruct (Z_le_dec 5 dc_idx) as [Hbig|Hsmall];
      [rewrite do_direct_handshake_out_of_range by lia; cbn; split;
         [intros []|intros [? _]; lia]|].
    rewrite do_direct_handshake_in_range by lia. cbv zeta.
    assert (Hiff : forall rest : list event,
              (forall h p, ~ In (EvConnect h p) rest) ->
              In (EvConnect host port)
                 (EvConnect (datacenter cfg dc_idx) TG_DATACENTER_PORT :: rest)
              <-> 0 <= dc_idx < 5 /\ host = datacenter cfg dc_idx /\ port = 443).
    { intros rest Hrest. split.
      - intros [E|E]; [injection E as <- <-; repeat split; lia|].
        now destruct (Hrest _ _ E).
      - intros [_ [-> ->]]. now left. }
    destruct (connect_result env _) as [x|e|];
      [|destruct (is_OSError e); apply (Hiff []); intros ? ? []
       |apply (Hiff []); intros ? ? []].
    destruct (upstream_preamble reuse (random_draws env)) as [rnd|];
      [|apply (Hiff []); intros ? ? []].
    destruct (write_result env) as [y|e|]; [destruct (drain_result env) as [z|e|]|..];
      cbn [app]; apply Hiff; intros h p Hc; cbn in Hc;
      repeat (destruct Hc as [Hc|Hc]; [discriminate Hc|]); exact Hc.
  - intros Hout. apply do_direct_handshake_out_of_range. lia.
  - intros Hdc. unfold datacenter.
    apply nth_In. unfold TG_DATACENTERS_V6, TG_DATACENTERS_V4.
    destruct (PREFER_IPV6 cfg); cbn [length]; lia.
Qed.
End HandshakeEdges.

Lemma malformed_secret_raises_witness :
  @fromhex toy_primitives "not hex" = None
  /\ run_result (@handle_client_wrapper toy_primitives example_config_malformed
                   Client Client example_env_good (init_stats example_users_malformed))
     = Raise ValueError.
Proof.
  split; [reflexivity|].
  destruct (@malformed_secret_raises toy_primitives example_config_malformed
              example_preamble Client Client [] [("tg"%string, example_secret_hex)]
              "bob"%string "not hex"%string example_env_good
              (init_stats example_users_malformed)
              eq_refl eq_refl ltac:(vm_compute; lia) ltac:(constructor) eq_refl)
    as [_ E].
  rewrite E. reflexivity.
Defined.

Lemma acceptable_spec (rnd : bytes) :
  acceptable rnd = true
  <-> bytes_in (firstn 1 rnd) RESERVED_NONCE_FIRST_CHARS = false
      /\ bytes_in (firstn 4 rnd) RESERVED_NONCE_BEGININGS = false
      /\ bytes_in (slice rnd 4 8) RESERVED_NONCE_CONTINUES = false.
Proof.
  unfold acceptable.
  destruct (bytes_in (firstn 1 rnd) _), (bytes_in (firstn 4 rnd) _),
    (bytes_in (slice rnd 4 8) _); cbn; intuition congruence.
Qed.

Lemma sample_preamble_cons (d : bytes) (draws : list bytes) :
  sample_preamble (d :: draws)
  = if acceptable d then Some d else sample_preamble draws.
Proof.
  cbn [sample_preamble]. unfold acceptable.
  destruct (bytes_in (firstn 1 d) _); [reflexivity|].
  destruct (bytes_in (firstn 4 d) _); [reflexivity|].
  destruct (bytes_in (slice d 4 8) _); reflexivity.
Qed.

(** X10.  The sampling loop settles on the first draw that passes the
    three tests: the result is [rnd] exactly when the draws are some
    rejected draws followed by the accepted [rnd], and the loop is still
    running after the draws given exactly when every one was rejected. *)
Theorem sampling_takes_first_acceptable (draws : list bytes) (rnd : bytes) :
  (sample_preamble draws = Some rnd
   <-> exists pre post, draws = pre ++ rnd :: post
                        /\ Forall (fun d => acceptable d = false) pre
                        /\ acceptable rnd = true)
  /\ (sample_preamble draws = None <-> Forall (fun d => acceptable d = false) draws).
Proof.
  split.
  - induction draws as [|d draws IH].
    + split; [discriminate|]. intros [[|? ?] [post [E _]]]; discriminate E.
    + rewrite sample_preamble_cons. destruct (acceptable d) eqn:Ed.
      * split.
        -- intros [= <-]. exists [], draws. repeat split; [constructor|exact Ed].
        -- intros [[|d0 pre] [post [E [Hpre Hr]]]].
           ++ now injection E as <- _.
           ++ injection E as <- _. inversion Hpre; congruence.
      * rewrite IH. split.
        -- intros [pre [post [-> [Hpre Hr]]]]. exists (d :: pre), post.
           repeat split; [now constructor|exact Hr].
        -- intros [[|d0 pre] [post [E [Hpre Hr]]]].
           ++ injection E as <- _. congruence.
           ++ injection E as <- ->. exists pre, post.
              repeat split; [now inversion Hpre|exact Hr].
  - induction draws as [|d draws IH].
    + split; [constructor|reflexivity].
    + rewrite sample_preamble_cons. destruct (acceptable d) eqn:Ed.
      * split; [discriminate|]. intros Hall. inversion Hall; congruence.
      * rewrite IH. split; [now constructor|now inversion 1].
Qed.

(** ** Preambles that are accepted *)

Lemma lxor_is_byte (a b : Z) : is_byte a -> is_byte b -> is_byte (Z.lxor a b).
Proof.
  unfold is_byte. intros [Ha0 Ha] [Hb0 Hb].
  assert (H0 : 0 <= Z.lxor a b) by (apply Z.lxor_nonneg; tauto).
  split; [exact H0|].
  destruct (Z.eq_dec (Z.lxor a b) 0) as [->|Hnz]; [lia|].
  change 256 with (2 ^ 8). apply Z.log2_lt_pow2; [lia|].
  pose proof (Z.log2_lxor a b Ha0 Hb0) as Hl.
  assert (La : Z.log2 a < 8).
  { destruct (Z.eq_dec a 0) as [->|?]; [reflexivity|].
    apply Z.log2_lt_pow2; [lia|exact Ha]. }
  assert (Lb : Z.log2 b < 8).
  { destruct (Z.eq_dec b 0) as [->|?]; [reflexivity|].
    apply Z.log2_lt_pow2; [lia|exact Hb]. }
  lia.
Qed.

Lemma xor_bytes_is_byte (a b : bytes) :
  Forall is_byte a -> Forall is_byte b -> Forall is_byte (xor_bytes a b).
Proof.
  unfold xor_bytes. intros Ha. revert b.
  induction Ha as [|x a Hx _ IH]; intros [|y b] Hb; cbn; try constructor.
  - apply lxor_is_byte; [exact Hx|now inversion Hb].
  - apply IH. now inversion Hb.
Qed.

Lemma xor_bytes_skipn (n : nat) (a b : bytes) :
  skipn n (xor_bytes a b) = xor_bytes (skipn n a) (skipn n b).
Proof.
  unfold xor_bytes. revert a b.
  induction n as [|n IH]; intros a b; [reflexivity|].
  destruct a as [|x a], b as [|y b]; cbn [skipn zip_with]; try reflexivity.
  - now destruct (skipn n a).
  - apply IH.
Qed.

Lemma slice_app_l (x y : bytes) (a b : nat) :
  (b <= length x)%nat -> slice (x ++ y) a b = slice x a b.
Proof.
  intros Hb. unfold slice. rewrite skipn_app, firstn_app, length_skipn.
  replace (b - a - (length x - a))%nat with 0%nat by lia.
  rewrite firstn_O, app_nil_r. reflexivity.
Qed.

Lemma skipn_set_slice (rnd v : bytes) (a b : nat) :
  (a <= length rnd)%nat -> length v = (b - a)%nat -> (a <= b)%nat ->
  skipn b (set_slice rnd a b v) = skipn b rnd.
Proof.
  intros Ha Hv Hab. unfold set_slice.
  rewrite skipn_app, length_firstn, (skipn_all2 (firstn a rnd))
    by (rewrite length_firstn; lia).
  cbn [app]. rewrite skipn_app, skipn_all2 by lia. cbn [app].
  rewrite skipn_skipn. f_equal. lia.
Qed.

Section Reachable.
Context `{Primitives}.

Lemma keystream_blocks_is_byte (k : bytes) (c : Z) (m : nat) :
  (forall k' b, Forall is_byte (aes_encrypt k' b)) ->
  Forall is_byte (keystream_blocks k c m).
Proof.
  intros Haes. revert c. induction m as [|m IH]; intros c; cbn [keystream_blocks].
  - constructor.
  - apply Forall_app. split; [apply Haes|apply IH].
Qed.

(** The trial decryption of a 64-byte preamble is its XOR with four
    keystream blocks keyed by its own bytes 8..56 and the secret. *)
Lemma trial_decrypt_xor (P secret : bytes) :
  length P = 64%nat ->
  trial_decrypt P secret
  = xor_bytes P (keystream_blocks (dec_key_of P secret)
                                  (dec_iv_of P mod COUNTER_MODULUS) 4).
Proof.
  intros HP. unfold trial_decrypt, trial_decryptor, decrypt.
  now rewrite encrypt_fresh_64.
Qed.

(** With every secret up to it decodable, a user whose secret shows
    the magic makes the loop return a user: that one, or one listed
    before it whose secret shows the magic too. *)
Lemma handle_handshake_users_some_match (h : bytes) (reader writer : stream_id)
    (users : list (string * string)) (u hex : string) (secret : bytes) :
  Forall (fun uh => fromhex (snd uh) <> None) users ->
  In (u, hex) users ->
  fromhex hex = Some secret ->
  magic_found h secret = true ->
  exists hs hex' secret',
    handle_handshake_users h reader writer users = Ok (Some hs)
    /\ In (hs_user hs, hex') users
    /\ fromhex hex' = Some secret'
    /\ magic_found h secret' = true.
Proof.
  intros Hdec Hin Hhex Hmagic.
  induction Hdec as [|[u0 hex0] users Hd _ IH]; [destruct Hin|].
  cbn [snd] in Hd. destruct (fromhex hex0) as [s0|] eqn:Hs0; [|now elim Hd].
  rewrite (handle_handshake_users_cons _ _ _ _ _ _ _ Hs0).
  destruct (magic_found h s0) eqn:Hm0.
  - eexists _, hex0, s0. split; [reflexivity|]. cbn [hs_user].
    split; [now left|]. now split.
  - destruct Hin as [Heq|Hin]; [congruence|].
    destruct (IH Hin) as [hs [hex' [s' [E [Hi [Hh Hm]]]]]].
    exists hs, hex', s'. split; [exact E|]. split; [now right|]. now split.
Qed.

(** X11.  Every user can reach every datacenter field: for a secret
    that decodes, any 56 leading bytes and any field bytes, the 64 bytes
    made of the leading bytes followed by EF EF EF EF and the field
    XORed with the end of the user's keystream are a preamble whose trial
    decryption ends in EF EF EF EF followed by the field.  Wherever the
    user stands in the table, the handshake returns that user for this
    preamble, with dc_idx = abs(signed field) - 1, provided every user
    listed before decodes and misses the magic on it; and in any table
    of decodable secrets that lists the user the handshake returns a
    user whose secret shows the magic.  The preamble is a byte string
    whenever the block cipher returns bytes. *)
Theorem every_field_reachable (reader writer : stream_id) (u hex : string)
    (secret head : bytes) (f0 f1 g0 g1 : Z) :
  (forall k b, Forall is_byte (aes_encrypt k b)) ->
  fromhex hex = Some secret ->
  length head = 56%nat ->
  Forall is_byte head ->
  Forall is_byte [f0; f1; g0; g1] ->
  exists P,
    P = head
        ++ xor_bytes [239; 239; 239; 239; f0; f1; g0; g1]
             (skipn 56 (keystream_blocks
                          (sha256 (slice head 8 40 ++ secret))
                          (int_from_bytes_big (slice head 40 56) mod COUNTER_MODULUS)
                          4))
    /\ length P = 64%nat
    /\ Forall is_byte P
    /\ firstn 56 P = head
    /\ skipn 56 (trial_decrypt P secret) = [239; 239; 239; 239; f0; f1; g0; g1]
    /\ (forall before rest,
           Forall (fun uh => exists s, fromhex (snd uh) = Some s
                                       /\ magic_found P s = false) before ->
           exists hs,
             fst (handle_handshake (before ++ (u, hex) :: rest) reader writer (Ok P))
             = Ok (Some hs)
             /\ hs_user hs = u
             /\ hs_dc_idx hs = Z.abs (signed_le_i16 f0 f1) - 1)
    /\ (forall users,
           In (u, hex) users ->
           Forall (fun uh => fromhex (snd uh) <> None) users ->
           exists hs hex' secret',
             fst (handle_handshake users reader writer (Ok P)) = Ok (Some hs)
             /\ In (hs_user hs, hex') users
             /\ fromhex hex' = Some secret'
             /\ magic_found P secret' = true).
Proof.
  intros Haes Hhex Hhead Hbytes Hfield.
  set (tail := [239; 239; 239; 239; f0; f1; g0; g1]).
  set (K := keystream_blocks (sha256 (slice head 8 40 ++ secret))
              (int_from_bytes_big (slice head 40 56) mod COUNTER_MODULUS) 4).
  assert (HK : length K = 64%nat) by (unfold K; now rewrite keystream_blocks_length).
  assert (HK' : length (skipn 56 K) = 8%nat) by (rewrite length_skipn; lia).
  set (P := head ++ xor_bytes tail (skipn 56 K)).
  assert (HP : length P = 64%nat).
  { unfold P. rewrite length_app, xor_bytes_length, Hhead by (rewrite HK'; cbn; lia).
    reflexivity. }
  assert (Hkey : dec_key_of P secret = sha256 (slice head 8 40 ++ secret)).
  { unfold dec_key_of, P. now rewrite slice_app_l by lia. }
  assert (Hiv : dec_iv_of P = int_from_bytes_big (slice head 40 56)).
  { unfold dec_iv_of, P. now rewrite slice_app_l by lia. }
  assert (Hdec : skipn 56 (trial_decrypt P secret) = tail).
  { rewrite trial_decrypt_xor by exact HP. rewrite Hkey, Hiv. fold K.
    rewrite xor_bytes_skipn. unfold P.
    rewrite skipn_app, Hhead, Nat.sub_diag, skipn_O.
    rewrite skipn_all2 by lia. cbn [app].
    apply xor_bytes_involutive. rewrite HK'. cbn. lia. }
  assert (H56 : firstn 56 P = head).
  { unfold P. rewrite firstn_app, Hhead, Nat.sub_diag, firstn_O, app_nil_r.
    apply firstn_all2. lia. }
  assert (Hmagic : magic_found P secret = true).
  { unfold magic_found, slice. cbn [Nat.sub]. rewrite Hdec. reflexivity. }
  assert (Hfld : slice (trial_decrypt P secret) 60 62 = [f0; f1]).
  { unfold slice. cbn [Nat.sub].
    change 60%nat with (4 + 56)%nat. rewrite <- skipn_skipn, Hdec. reflexivity. }
  assert (Hall : firstn 64 P = P) by (apply firstn_all2; lia).
  exists P. split; [reflexivity|]. split; [exact HP|].
  split; [|split; [exact H56|split; [exact Hdec|split]]].
  - unfold P. apply Forall_app. split; [exact Hbytes|].
    apply xor_bytes_is_byte.
    + unfold tail. do 4 (constructor; [unfold is_byte; lia|]). exact Hfield.
    + apply Forall_drop. unfold K. now apply keystream_blocks_is_byte.
  - intros before rest Hbefore.
    pose proof (handle_handshake_first_match P reader writer before rest u hex secret
                  ltac:(lia)) as Hacc.
    rewrite Hall in Hacc. specialize (Hacc Hbefore Hhex Hmagic).
    eexists. split; [exact (f_equal fst Hacc)|].
    cbn [hs_user hs_dc_idx]. split; [reflexivity|].
    now rewrite Hfld, signed_le_i16_spec.
  - intros users Hin Hdecode.
    destruct (handle_handshake_users_some_match P reader writer users u hex secret
                Hdecode Hin Hhex Hmagic) as [hs [hex' [s' [E [Hi [Hh Hm]]]]]].
    exists hs, hex', s'. split; [|split; [exact Hi|now split]].
    unfold handle_handshake. change HANDSHAKE_LEN with 64%nat.
    rewrite readexactly_ok by lia. rewrite Hall. exact E.
Qed.
End Reachable.

Lemma toy_aes_encrypt_is_byte (k b : bytes) : Forall is_byte (toy_aes_encrypt k b).
Proof.
  unfold toy_aes_encrypt. apply List.Forall_forall. intros x Hx.
  apply in_map_iff in Hx as [i [<- _]].
  unfold is_byte. apply Z.mod_pos_bound. lia.
Qed.

Lemma every_field_reachable_witness :
  (forall k b, Forall is_byte (@aes_encrypt toy_primitives k b))
  /\ Forall is_byte example_head
  /\ exists P,
      length P = 64%nat
      /\ firstn 56 P = example_head
      /\ Forall (fun uh => exists s, @fromhex toy_primitives (snd uh) = Some s
                                     /\ @magic_found toy_primitives P s = false)
                [("alice"%string, "ffffffffffffffffffffffffffffffff"%string)]
      /\ exists hs,
          fst (@handle_handshake toy_primitives example_users
                 Client Client (Ok P)) = Ok (Some hs)
          /\ hs_user hs = "tg"%string
          /\ hs_dc_idx hs = 1.
Proof.
  assert (H1 : forall k b, Forall is_byte (@aes_encrypt toy_primitives k b))
    by exact toy_aes_encrypt_is_byte.
  assert (H2 : Forall is_byte example_head)
    by (repeat constructor; unfold is_byte; lia).
  split; [exact H1|]. split; [exact H2|].
  destruct (@every_field_reachable toy_primitives Client Client "tg"%string
              example_secret_hex example_secret example_head 254 255 0 0
              H1 eq_refl eq_refl H2
              ltac:(repeat constructor; unfold is_byte; lia))
    as [P [HeqP [HP [_ [Hh [_ [Hfirst _]]]]]]].
  assert (Hmiss : Forall (fun uh => exists s, @fromhex toy_primitives (snd uh) = Some s
                                     /\ @magic_found toy_primitives P s = false)
                    [("alice"%string, "ffffffffffffffffffffffffffffffff"%string)]).
  { constructor; [|constructor]. exists (repeat 255 16%nat).
    split; [reflexivity|]. rewrite HeqP. vm_compute. reflexivity. }
  exists P. split; [exact HP|]. split; [exact Hh|]. split; [exact Hmiss|].
  destruct (Hfirst [("alice"%string, "ffffffffffffffffffffffffffffffff"%string)] []
              Hmiss) as [hs [E1 [E2 E3]]].
  exists hs. split; [exact E1|]. split; [exact E2|exact E3].
Defined.

(** ** What goes on the wire to the datacenter *)

Section Wire.
Context `{Primitives}.

Lemma upstream_wire_xor (rnd : bytes) :
  length rnd = 64%nat ->
  upstream_wire rnd
  = firstn 56 rnd
    ++ xor_bytes (skipn 56 rnd)
         (skipn 56 (keystream_blocks (slice rnd 8 40)
                      (int_from_bytes_big (slice rnd 40 56) mod COUNTER_MODULUS) 4)).
Proof.
  intros Hr. unfold upstream_wire, upstream_encryptor.
  rewrite encrypt_fresh_64 by exact Hr. cbn [fst].
  now rewrite xor_bytes_skipn.
Qed.

Lemma upstream_preamble_magic (reuse : option bytes) (draws : list bytes) (rnd : bytes) :
  Forall (fun d => length d = 64%nat) draws ->
  reuse = None \/ (exists r, reuse = Some r /\ length r = 48%nat) ->
  upstream_preamble reuse draws = Some rnd ->
  slice rnd 56 60 = MAGIC_VAL_TO_CHECK.
Proof.
  intros Hlen Hreuse. unfold upstream_preamble.
  change (MAGIC_VAL_POS + 4)%nat with 60%nat. change MAGIC_VAL_POS with 56%nat.
  change (SKIP_LEN + KEY_LEN + IV_LEN)%nat with 56%nat. change SKIP_LEN with 8%nat.
  destruct (sample_preamble draws) as [rnd0|] eqn:Es; [|discriminate].
  intros Hrnd.
  assert (H0 : length rnd0 = 64%nat).
  { destruct (sample_preamble_accepted _ _ Es) as [Hin _].
    exact (proj1 (List.Forall_forall _ _) Hlen _ Hin). }
  assert (H1 : length (set_slice rnd0 56 60 MAGIC_VAL_TO_CHECK) = 64%nat).
  { rewrite set_slice_length by lia. rewrite H0. reflexivity. }
  assert (Hm : slice (set_slice rnd0 56 60 MAGIC_VAL_TO_CHECK) 56 60
               = MAGIC_VAL_TO_CHECK).
  { apply slice_set_slice; [lia|reflexivity]. }
  destruct Hreuse as [->|[r [-> Hr]]]; [now injection Hrnd as <-|].
  destruct r as [|b r]; [discriminate Hr|].
  set (v := rev (b :: r)) in *.
  assert (Hv : length v = 48%nat) by (unfold v; now rewrite length_rev).
  assert (E : rnd = set_slice (set_slice rnd0 56 60 MAGIC_VAL_TO_CHECK) 8 56 v)
    by congruence.
  subst rnd. unfold slice at 1.
  rewrite skipn_set_slice by lia. exact Hm.
Qed.

(** X12.  The 64 bytes sent to the datacenter are readable by a peer
    that knows nothing but those bytes: keying a CTR cipher from bytes
    8..40 and 40..56 of what was received and decrypting all of it gives
    back the last eight bytes of the settled preamble, which start with
    the magic EF EF EF EF; the first 56 bytes travel in the clear. *)
Theorem upstream_wire_round_trip (reuse : option bytes) (draws : list bytes)
    (rnd : bytes) :
  Forall (fun d => length d = 64%nat) draws ->
  reuse = None \/ (exists r, reuse = Some r /\ length r = 48%nat) ->
  upstream_preamble reuse draws = Some rnd ->
  length (upstream_wire rnd) = 64%nat
  /\ firstn 56 (upstream_wire rnd) = firstn 56 rnd
  /\ skipn 56 (fst (decrypt (create_aes (slice (upstream_wire rnd) 8 40)
                               (int_from_bytes_big (slice (upstream_wire rnd) 40 56)))
                            (upstream_wire rnd)))
     = skipn 56 rnd
  /\ slice (fst (decrypt (create_aes (slice (upstream_wire rnd) 8 40)
                            (int_from_bytes_big (slice (upstream_wire rnd) 40 56)))
                         (upstream_wire rnd))) 56 60
     = [239; 239; 239; 239].
Proof.
  intros Hlen Hreuse Hrnd.
  pose proof (upstream_preamble_length _ _ _ Hlen Hreuse Hrnd) as H64.
  pose proof (upstream_preamble_magic _ _ _ Hlen Hreuse Hrnd) as Hmagic.
  set (K := keystream_blocks (slice rnd 8 40)
              (int_from_bytes_big (slice rnd 40 56) mod COUNTER_MODULUS) 4).
  assert (HK : length K = 64%nat) by (unfold K; now rewrite keystream_blocks_length).
  assert (Hw : upstream_wire rnd = firstn 56 rnd ++ xor_bytes (skipn 56 rnd) (skipn 56 K))
    by (now apply upstream_wire_xor).
  assert (Hf : length (firstn 56 rnd) = 56%nat) by (rewrite length_firstn; lia).
  assert (Hx : length (xor_bytes (skipn 56 rnd) (skipn 56 K)) = 8%nat).
  { rewrite xor_bytes_length; rewrite !length_skipn; lia. }
  assert (Hwl : length (upstream_wire rnd) = 64%nat).
  { rewrite Hw, length_app, Hf, Hx. reflexivity. }
  assert (Hs1 : slice (upstream_wire rnd) 8 40 = slice rnd 8 40).
  { rewrite Hw, slice_app_l by lia. unfold slice.
    rewrite skipn_firstn_comm, firstn_firstn. reflexivity. }
  assert (Hs2 : slice (upstream_wire rnd) 40 56 = slice rnd 40 56).
  { rewrite Hw, slice_app_l by lia. unfold slice.
    rewrite skipn_firstn_comm, firstn_firstn. reflexivity. }
  assert (Hd : skipn 56 (fst (decrypt (create_aes (slice (upstream_wire rnd) 8 40)
                     (int_from_bytes_big (slice (upstream_wire rnd) 40 56)))
                     (upstream_wire rnd))) = skipn 56 rnd).
  { unfold decrypt. rewrite encrypt_fresh_64 by exact Hwl. cbn [fst].
    rewrite Hs1, Hs2. fold K. rewrite xor_bytes_skipn, Hw.
    rewrite skipn_app, Hf, Nat.sub_diag, skipn_O, skipn_all2 by lia.
    cbn [app]. apply xor_bytes_involutive. rewrite !length_skipn. lia. }
  split; [exact Hwl|]. split; [|split; [exact Hd|]].
  - rewrite Hw, firstn_app, Hf, Nat.sub_diag, firstn_O, app_nil_r.
    apply firstn_all2. lia.
  - unfold slice at 1. unfold slice in Hmagic. rewrite Hd. exact Hmagic.
Qed.
End Wire.

Lemma upstream_wire_round_trip_witness :
  upstream_preamble None (random_draws example_upstream) = Some example_wire_preamble
  /\ slice (fst (@decrypt toy_primitives
                   (create_aes (slice (@upstream_wire toy_primitives example_wire_preamble) 8 40)
                      (int_from_bytes_big
                         (slice (@upstream_wire toy_primitives example_wire_preamble) 40 56)))
                   (@upstream_wire toy_primitives example_wire_preamble))) 56 60
     = [239; 239; 239; 239].
Proof.
  assert (H1 : upstream_preamble None (random_draws example_upstream)
               = Some example_wire_preamble) by reflexivity.
  split; [exact H1|].
  apply (@upstream_wire_round_trip toy_primitives None (random_draws example_upstream)
           example_wire_preamble ltac:(repeat constructor) (or_introl eq_refl) H1).
Defined.

(** ** The supervisor: order of events, closing and counting *)

Lemma slice_as_skipn_firstn (x : bytes) (a b : nat) :
  slice x a b = skipn a (firstn b x).
Proof. unfold slice. now rewrite skipn_firstn_comm. Qed.

Lemma upstream_preamble_inv (reuse : option bytes) (draws : list bytes) (rnd : bytes) :
  upstream_preamble reuse draws = Some rnd ->
  exists rnd0,
    sample_preamble draws = Some rnd0
    /\ rnd = match reuse with
             | Some (b :: r) =>
                 set_slice (set_slice rnd0 56 60 MAGIC_VAL_TO_CHECK) 8 56 (rev (b :: r))
             | _ => set_slice rnd0 56 60 MAGIC_VAL_TO_CHECK
             end.
Proof.
  unfold upstream_preamble.
  change (MAGIC_VAL_POS + 4)%nat with 60%nat. change MAGIC_VAL_POS with 56%nat.
  change (SKIP_LEN + KEY_LEN + IV_LEN)%nat with 56%nat. change SKIP_LEN with 8%nat.
  destruct (sample_preamble draws) as [rnd0|]; [|discriminate].
  intros Hr. exists rnd0. split; [reflexivity|]. congruence.
Qed.

Section SupervisorFacts.
Context `{Primitives}.

(** [handle_client] after a successful client handshake, by the outcome
    of the upstream handshake. *)
Lemma handle_client_authenticated (cfg : config) (reader writer : stream_id)
    (env : client_env) (stats : gmap string Counter) (hs : handshake_ok)
    (tr : list event) :
  handle_handshake (USERS cfg) reader writer (client_input env) = (Ok (Some hs), tr) ->
  handle_client cfg reader writer env stats
  = match do_direct_handshake cfg (hs_dc_idx hs)
            (if FAST_MODE cfg then Some (hs_enc_key_and_iv hs) else None)
            (upstream env) with
    | (Ok (Some (reader_tg, writer_tg)), tr_tg) =>
        {| run_result := Ok tt; run_trace := tr ++ tr_tg;
           run_stats := update_stats (hs_user hs) 1 0 0 stats;
           run_pumps :=
             [ {| rd := if FAST_MODE cfg
                        then {| rd_stream := rd_stream reader_tg; decryptor := Fake |}
                        else reader_tg;
                  wr := if FAST_MODE cfg
                        then {| wr_stream := wr_stream (hs_writer hs); encryptor := Fake |}
                        else hs_writer hs;
                  user := hs_user hs; pc := NotStarted |};
               {| rd := hs_reader hs; wr := writer_tg; user := hs_user hs;
                  pc := NotStarted |} ] |}
    | (Ok None, tr_tg) =>
        {| run_result := Ok tt;
           run_trace := tr ++ tr_tg ++ [EvClose (wr_stream (hs_writer hs))];
           run_stats := update_stats (hs_user hs) 1 0 0 stats; run_pumps := [] |}
    | (Raise e, tr_tg) =>
        {| run_result := Raise e; run_trace := tr ++ tr_tg;
           run_stats := update_stats (hs_user hs) 1 0 0 stats; run_pumps := [] |}
    | (Pending, tr_tg) =>
        {| run_result := Pending; run_trace := tr ++ tr_tg;
           run_stats := update_stats (hs_user hs) 1 0 0 stats; run_pumps := [] |}
    end.
Proof.
  intros Hhs. unfold handle_client. rewrite Hhs.
  change (negb USE_MIDDLE_PROXY) with true. cbv iota.
  destruct (FAST_MODE cfg);
    match goal with
    | |- context [do_direct_handshake ?c ?d ?r ?v] =>
        destruct (do_direct_handshake c d r v) as [[[[rd1 wr1]|]|e1|] tr1]
    end; reflexivity.
Qed.

(** [handle_client] when the client handshake gives no user. *)
Lemma handle_client_unauthenticated (cfg : config) (reader writer : stream_id)
    (env : client_env) (stats : gmap string Counter) :
  (forall hs, fst (handle_handshake (USERS cfg) reader writer (client_input env))
              <> Ok (Some hs)) ->
  handle_client cfg reader writer env stats
  = {| run_result :=
         match fst (handle_handshake (USERS cfg) reader writer (client_input env)) with
         | Ok _ => Ok tt
         | Raise e => Raise e
         | Pending => Pending
         end;
       run_trace :=
         match fst (handle_handshake (USERS cfg) reader writer (client_input env)) with
         | Ok _ => [EvReadExactly reader 64; EvClose writer]
         | _ => [EvReadExactly reader 64]
         end;
       run_stats := stats;
       run_pumps := [] |}.
Proof.
  intros Hno. unfold handle_client.
  assert (Htr : snd (handle_handshake (USERS cfg) reader writer (client_input env))
                = [EvReadExactly reader 64]).
  { unfold handle_handshake.
    now destruct (readexactly (client_input env) HANDSHAKE_LEN). }
  destruct (handle_handshake (USERS cfg) reader writer (client_input env))
    as [[[hs|]|e|] tr]; cbn [fst snd] in *; subst tr; try reflexivity.
  now destruct (Hno hs).
Qed.

Lemma handle_handshake_trace (users : list (string * string))
    (reader writer : stream_id) (input : result bytes) :
  snd (handle_handshake users reader writer input) = [EvReadExactly reader 64].
Proof.
  unfold handle_handshake. now destruct (readexactly input HANDSHAKE_LEN).
Qed.

Lemma handle_handshake_writer (users : list (string * string))
    (reader writer : stream_id) (input : result bytes) (hs : handshake_ok)
    (tr : list event) :
  handle_handshake users reader writer input = (Ok (Some hs), tr) ->
  wr_stream (hs_writer hs) = writer
  /\ length (hs_enc_key_and_iv hs) = 48%nat
  /\ hs_enc_key_and_iv hs <> [].
Proof.
  destruct input as [stream|e|]; [|discriminate|discriminate].
  intros Hhs.
  destruct (handle_handshake_ok_inv _ _ _ _ _ _ Hhs) as [H64 [secret [Hw Hm]]].
  assert (Hl : length (hs_enc_key_and_iv hs) = 48%nat).
  { rewrite Hm. apply enc_key_and_iv_length. rewrite length_firstn. lia. }
  split; [now rewrite Hw|]. split; [exact Hl|].
  intros E. rewrite E in Hl. discriminate Hl.
Qed.

(** A write to the datacenter happens only on an index in range, after
    the connection was accepted. *)
Lemma do_direct_handshake_written_connected (cfg : config) (dc_idx : Z)
    (reuse : option bytes) (env : upstream_env) (data : bytes) :
  In (EvWrite Upstream data) (snd (do_direct_handshake cfg dc_idx reuse env)) ->
  0 <= dc_idx < 5 /\ connect_result env (datacenter cfg dc_idx) = Ok tt.
Proof.
  destruct (Z_lt_dec dc_idx 0) as [Hneg|Hpos];
    [rewrite do_direct_handshake_out_of_range by lia; intros []|].
  destruct (Z_le_dec 5 dc_idx) as [Hbig|Hsmall];
    [rewrite do_direct_handshake_out_of_range by lia; intros []|].
  rewrite do_direct_handshake_in_range by lia. cbv zeta.
  destruct (connect_result env _) as [[]|e|];
    [intros _; split; [lia|reflexivity]
    |destruct (is_OSError e); cbn; intros [Hc|[]]; discriminate
    |cbn; intros [Hc|[]]; discriminate].
Qed.

Lemma upstream_wire_clear (rnd : bytes) :
  length rnd = 64%nat ->
  length (upstream_wire rnd) = 64%nat
  /\ firstn 56 (upstream_wire rnd) = firstn 56 rnd.
Proof.
  intros H64. rewrite upstream_wire_xor by exact H64.
  assert (Hf : length (firstn 56 rnd) = 56%nat) by (rewrite length_firstn; lia).
  split.
  - rewrite length_app, Hf, xor_bytes_length;
      rewrite ?length_skipn, ?keystream_blocks_length; lia.
  - rewrite firstn_app, Hf, Nat.sub_diag, firstn_O, app_nil_r.
    apply firstn_all2. lia.
Qed.
End SupervisorFacts.

Section SupervisorClaims.
Context `{Primitives}.

(** Apart from the handshake read and the closing of the client, the
    calls of an authenticated run are those of the upstream handshake. *)
Lemma handle_client_upstream_event (cfg : config) (reader writer : stream_id)
    (env : client_env) (stats : gmap string Counter) (hs : handshake_ok)
    (tr : list event) (ev : event) :
  handle_handshake (USERS cfg) reader writer (client_input env) = (Ok (Some hs), tr) ->
  (forall s n, ev <> EvReadExactly s n) ->
  (forall s, ev <> EvClose s) ->
  In ev (run_trace (handle_client cfg reader writer env stats)) ->
  In ev (snd (do_direct_handshake cfg (hs_dc_idx hs)
                (if FAST_MODE cfg then Some (hs_enc_key_and_iv hs) else None)
                (upstream env))).
Proof.
  intros Hhs Hnr Hnc.
  rewrite (handle_client_authenticated cfg reader writer env stats hs tr Hhs).
  pose proof (handle_handshake_trace (USERS cfg) reader writer (client_input env))
    as Htr.
  rewrite Hhs in Htr. cbn [snd] in Htr. subst tr.
  destruct (do_direct_handshake cfg (hs_dc_idx hs) _ (upstream env))
    as [[[[rd1 wr1]|]|e1|] tr1]; cbn [run_trace snd app];
    intros [E|E]; try (now destruct (Hnr _ _ (eq_sym E))); try exact E.
  apply in_app_or in E as [E|[E|[]]]; [exact E|].
  now destruct (Hnc _ (eq_sym E)).
Qed.

(** X13.  What the datacenter is told in the clear.  In an
    authenticated run the 64 bytes written upstream begin with the first
    eight bytes of the accepted random draw; bytes 8..56 are the reversal
    of the client-bound key material [enc_key || enc_iv] in fast mode,
    and the draw's own bytes 8..56 otherwise. *)
Theorem upstream_clear_part (cfg : config) (reader writer : stream_id)
    (env : client_env) (stats : gmap string Counter) (hs : handshake_ok)
    (tr : list event) (data : bytes) :
  handle_handshake (USERS cfg) reader writer (client_input env) = (Ok (Some hs), tr) ->
  Forall (fun d => length d = 64%nat) (random_draws (upstream env)) ->
  In (EvWrite Upstream data) (run_trace (handle_client cfg reader writer env stats)) ->
  exists rnd0,
    sample_preamble (random_draws (upstream env)) = Some rnd0
    /\ length data = 64%nat
    /\ firstn 8 data = firstn 8 rnd0
    /\ slice data 8 56
       = (if FAST_MODE cfg then rev (hs_enc_key_and_iv hs) else slice rnd0 8 56).
Proof.
  intros Hhs Hlen Hin.
  apply (handle_client_upstream_event cfg reader writer env stats hs tr _ Hhs) in Hin;
    [|discriminate|discriminate].
  destruct (do_direct_handshake_written _ _ _ _ _ Hin) as [rnd [Hrnd ->]].
  destruct (handle_handshake_writer _ _ _ _ _ _ Hhs) as [_ [H48 Hne]].
  assert (Hreuse : (if FAST_MODE cfg then Some (hs_enc_key_and_iv hs) else None) = None
                   \/ exists r, (if FAST_MODE cfg then Some (hs_enc_key_and_iv hs) else None)
                                = Some r /\ length r = 48%nat).
  { destruct (FAST_MODE cfg); [right; now exists (hs_enc_key_and_iv hs)|now left]. }
  pose proof (upstream_preamble_length _ _ _ Hlen Hreuse Hrnd) as H64.
  destruct (upstream_wire_clear rnd H64) as [Hwl Hwf].
  destruct (upstream_preamble_inv _ _ _ Hrnd) as [rnd0 [Hs Erd]].
  assert (H0 : length rnd0 = 64%nat).
  { destruct (sample_preamble_accepted _ _ Hs) as [Hi _].
    exact (proj1 (List.Forall_forall _ _) Hlen _ Hi). }
  assert (H1 : length (set_slice rnd0 56 60 MAGIC_VAL_TO_CHECK) = 64%nat).
  { rewrite set_slice_length by lia. rewrite H0. reflexivity. }
  exists rnd0. split; [exact Hs|]. split; [exact Hwl|].
  assert (Hs856 : slice (upstream_wire rnd) 8 56 = slice rnd 8 56).
  { now rewrite !slice_as_skipn_firstn, Hwf. }
  assert (Hf8 : firstn 8 (upstream_wire rnd) = firstn 8 rnd).
  { replace 8%nat with (Nat.min 8 56) by reflexivity.
    now rewrite <- !firstn_firstn, Hwf. }
  rewrite Hs856, Hf8.
  destruct (FAST_MODE cfg).
  - destruct (hs_enc_key_and_iv hs) as [|b r] eqn:Em; [now contradiction Hne|].
    set (v := rev (b :: r)) in *.
    assert (Hv : length v = 48%nat) by (unfold v; now rewrite length_rev).
    subst rnd. split.
    + rewrite set_slice_head by lia. now rewrite set_slice_head by lia.
    + apply slice_set_slice; lia.
  - subst rnd. split.
    + now rewrite set_slice_head by lia.
    + rewrite !slice_as_skipn_firstn. now rewrite set_slice_head by lia.
Qed.

(** X14.  Nothing goes upstream for a client that has not
    authenticated.  Every run of the wrapper starts with the one read of
    64 bytes from the client; a connection is attempted only after a
    handshake that returned a user, only for an index in [0, 5), and only
    to the address at that index on port 443; bytes are written upstream
    only once that connection was accepted. *)
Theorem nothing_upstream_before_authentication (cfg : config)
    (reader writer : stream_id) (env : client_env) (stats : gmap string Counter) :
  (exists rest,
      run_trace (handle_client_wrapper cfg reader writer env stats)
      = EvReadExactly reader 64 :: rest)
  /\ (forall host port,
         In (EvConnect host port)
            (run_trace (handle_client_wrapper cfg reader writer env stats)) ->
         exists hs,
           fst (handle_handshake (USERS cfg) reader writer (client_input env))
           = Ok (Some hs)
           /\ 0 <= hs_dc_idx hs < 5
           /\ host = datacenter cfg (hs_dc_idx hs) /\ port = 443)
  /\ (forall data,
         In (EvWrite Upstream data)
            (run_trace (handle_client_wrapper cfg reader writer env stats)) ->
         exists hs,
           fst (handle_handshake (USERS cfg) reader writer (client_input env))
           = Ok (Some hs)
           /\ connect_result (upstream env) (datacenter cfg (hs_dc_idx hs)) = Ok tt).
Proof.
  assert (Hwrap : forall ev, (forall s, ev <> EvClose s) ->
            In ev (run_trace (handle_client_wrapper cfg reader writer env stats)) ->
            In ev (run_trace (handle_client cfg reader writer env stats))).
  { intros ev Hnc. unfold handle_client_wrapper.
    destruct (run_result (handle_client cfg reader writer env stats)) as [x|e|];
      try (intros E; exact E).
    destruct (caught_by_wrapper e); [|intros E; exact E].
    cbn [run_trace]. intros E. apply in_app_or in E as [E|[E|[]]]; [exact E|].
    now destruct (Hnc _ (eq_sym E)). }
  assert (Hhead : exists rest,
            run_trace (handle_client cfg reader writer env stats)
            = EvReadExactly reader 64 :: rest).
  { pose proof (handle_handshake_trace (USERS cfg) reader writer (client_input env))
      as Htr.
    destruct (handle_handshake (USERS cfg) reader writer (client_input env))
      as [[[hs|]|e|] tr] eqn:Hhs; cbn [snd] in Htr; subst tr.
    - rewrite (handle_client_authenticated cfg reader writer env stats hs _ Hhs).
      destruct (do_direct_handshake cfg (hs_dc_idx hs) _ (upstream env))
        as [[[[rd1 wr1]|]|e1|] tr1]; cbn [run_trace app]; eexists; reflexivity.
    - unfold handle_client. rewrite Hhs. eexists. reflexivity.
    - unfold handle_client. rewrite Hhs. eexists. reflexivity.
    - unfold handle_client. rewrite Hhs. eexists. reflexivity. }
  assert (Hauth : forall ev, (forall s n, ev <> EvReadExactly s n) ->
            (forall s, ev <> EvClose s) ->
            In ev (run_trace (handle_client cfg reader writer env stats)) ->
            exists hs,
              fst (handle_handshake (USERS cfg) reader writer (client_input env))
              = Ok (Some hs)
              /\ In ev (snd (do_direct_handshake cfg (hs_dc_idx hs)
                               (if FAST_MODE cfg then Some (hs_enc_key_and_iv hs)
                                else None) (upstream env)))).
  { intros ev Hnr Hnc Hin.
    destruct (handle_handshake (USERS cfg) reader writer (client_input env))
      as [[[hs|]|e|] tr] eqn:Hhs.
    - exists hs. split; [reflexivity|].
      exact (handle_client_upstream_event cfg reader writer env stats hs tr ev
               Hhs Hnr Hnc Hin).
    - exfalso. unfold handle_client in Hin. rewrite Hhs in Hin. cbn [run_trace] in Hin.
      pose proof (handle_handshake_trace (USERS cfg) reader writer (client_input env))
        as Htr. rewrite Hhs in Htr. cbn [snd] in Htr. subst tr.
      destruct Hin as [E|[E|[]]];
        [now destruct (Hnr _ _ (eq_sym E))|now destruct (Hnc _ (eq_sym E))].
    - exfalso. unfold handle_client in Hin. rewrite Hhs in Hin. cbn [run_trace] in Hin.
      pose proof (handle_handshake_trace (USERS cfg) reader writer (client_input env))
        as Htr. rewrite Hhs in Htr. cbn [snd] in Htr. subst tr.
      destruct Hin as [E|[]]. now destruct (Hnr _ _ (eq_sym E)).
    - exfalso. unfold handle_client in Hin. rewrite Hhs in Hin. cbn [run_trace] in Hin.
      pose proof (handle_handshake_trace (USERS cfg) reader writer (client_input env))
        as Htr. rewrite Hhs in Htr. cbn [snd] in Htr. subst tr.
      destruct Hin as [E|[]]. now destruct (Hnr _ _ (eq_sym E)). }
  split; [|split].
  - destruct Hhead as [rest Hrest]. unfold handle_client_wrapper.
    destruct (run_result (handle_client cfg reader writer env stats)) as [x|e|];
      try (now exists rest).
    destruct (caught_by_wrapper e); [|now exists rest].
    cbn [run_trace]. rewrite Hrest. eexists. reflexivity.
  - intros host port Hin. apply Hwrap in Hin; [|discriminate].
    destruct (Hauth (EvConnect host port) ltac:(discriminate) ltac:(discriminate) Hin)
      as [hs [Hhs Hc]].
    exists hs. split; [exact Hhs|].
    destruct (Z_lt_dec (hs_dc_idx hs) 0) as [Hneg|Hpos];
      [rewrite do_direct_handshake_out_of_range in Hc by lia; destruct Hc|].
    destruct (Z_le_dec 5 (hs_dc_idx hs)) as [Hbig|Hsmall];
      [rewrite do_direct_handshake_out_of_range in Hc by lia; destruct Hc|].
    split; [lia|].
    rewrite do_direct_handshake_in_range in Hc by lia. cbv zeta in Hc.
    assert (Hfirst : forall rest : list event,
              (forall h p, ~ In (EvConnect h p) rest) ->
              In (EvConnect host port)
                 (EvConnect (datacenter cfg (hs_dc_idx hs)) TG_DATACENTER_PORT :: rest) ->
              host = datacenter cfg (hs_dc_idx hs) /\ port = 443).
    { intros rest Hrest [E|E]; [now injection E as <- <-|now destruct (Hrest _ _ E)]. }
    revert Hc.
    destruct (connect_result (upstream env) _) as [x|e|];
      [|destruct (is_OSError e); apply (Hfirst []); intros ? ? []
       |apply (Hfirst []); intros ? ? []].
    destruct (upstream_preamble _ (random_draws (upstream env))) as [rnd|];
      [|apply (Hfirst []); intros ? ? []].
    destruct (write_result (upstream env)) as [y|e|];
      [destruct (drain_result (upstream env)) as [z|e|]|..];
      cbn [app]; apply Hfirst; intros h p Hc; cbn in Hc;
      repeat (destruct Hc as [Hc|Hc]; [discriminate Hc|]); exact Hc.
  - intros data Hin. apply Hwrap in Hin; [|discriminate].
    destruct (Hauth (EvWrite Upstream data) ltac:(discriminate) ltac:(discriminate) Hin)
      as [hs [Hhs Hc]].
    exists hs. split; [exact Hhs|].
    exact (proj2 (do_direct_handshake_written_connected _ _ _ _ _ Hc)).
Qed.
End SupervisorClaims.

Lemma upstream_clear_part_witness :
  @handle_handshake toy_primitives (USERS example_config) Client Client
    (client_input example_env_good)
  = (Ok (Some example_hs), [EvReadExactly Client 64])
  /\ In (EvWrite Upstream (@upstream_wire toy_primitives example_fast_preamble))
        (run_trace (@handle_client toy_primitives example_config Client Client
                      example_env_good (init_stats example_users)))
  /\ slice (@upstream_wire toy_primitives example_fast_preamble) 8 56
     = rev (hs_enc_key_and_iv example_hs).
Proof.
  assert (H1 : @handle_handshake toy_primitives (USERS example_config) Client Client
                 (client_input example_env_good)
               = (Ok (Some example_hs), [EvReadExactly Client 64]))
    by (vm_compute; reflexivity).
  assert (H2 : Forall (fun d => length d = 64%nat)
                 (random_draws (upstream example_env_good)))
    by (repeat constructor).
  assert (H3 : In (EvWrite Upstream (@upstream_wire toy_primitives example_fast_preamble))
                  (run_trace (@handle_client toy_primitives example_config Client Client
                                example_env_good (init_stats example_users)))).
  { vm_compute. right. right. left. reflexivity. }
  split; [exact H1|]. split; [exact H3|].
  destruct (@upstream_clear_part toy_primitives example_config Client Client
              example_env_good (init_stats example_users) example_hs _ _ H1 H2 H3)
    as [rnd0 [_ [_ [_ E]]]].
  exact E.
Defined.

Section SupervisorClosing.
Context `{Primitives}.

(** X15.  The wrapper and the client stream.  When the wrapper returns
    without having scheduled pumps, it has closed the client writer
    exactly once, as its last call; when it has scheduled the pumps it has
    not closed anything; when an exception leaves it, that exception is
    not one it catches, no pump is scheduled and the client has not been
    closed. *)
Theorem wrapper_close_discipline (cfg : config) (reader writer : stream_id)
    (env : client_env) (stats : gmap string Counter) :
  match run_result (handle_client_wrapper cfg reader writer env stats),
        run_pumps (handle_client_wrapper cfg reader writer env stats) with
  | Ok _, [] =>
      exists tr0,
        run_trace (handle_client_wrapper cfg reader writer env stats)
        = tr0 ++ [EvClose writer]
        /\ existsb is_close tr0 = false
  | Ok _, _ :: _ =>
      existsb is_close (run_trace (handle_client_wrapper cfg reader writer env stats))
      = false
  | Raise e, pumps =>
      pumps = [] /\ caught_by_wrapper e = false
      /\ existsb is_close (run_trace (handle_client_wrapper cfg reader writer env stats))
         = false
  | Pending, pumps =>
      pumps = []
      /\ existsb is_close (run_trace (handle_client_wrapper cfg reader writer env stats))
         = false
  end.
Proof.
  assert (Hdd : forall dc reuse uenv,
            existsb is_close (snd (do_direct_handshake cfg dc reuse uenv)) = false).
  { intros dc reuse uenv.
    destruct (Z_lt_dec dc 0) as [Hneg|Hpos];
      [now rewrite do_direct_handshake_out_of_range by lia|].
    destruct (Z_le_dec 5 dc) as [Hbig|Hsmall];
      [now rewrite do_direct_handshake_out_of_range by lia|].
    rewrite do_direct_handshake_in_range by lia. cbv zeta.
    destruct (connect_result uenv _) as [x|e|];
      [|now destruct (is_OSError e)|reflexivity].
    destruct (upstream_preamble reuse (random_draws uenv)) as [rnd|]; [|reflexivity].
    destruct (write_result uenv) as [y|e|]; [|reflexivity|reflexivity].
    now destruct (drain_result uenv) as [z|e|]. }
  pose proof (handle_handshake_trace (USERS cfg) reader writer (client_input env))
    as Htr.
  unfold handle_client_wrapper.
  destruct (handle_handshake (USERS cfg) reader writer (client_input env))
    as [[[hs|]|e|] tr] eqn:Hhs; cbn [snd] in Htr; subst tr.
  - rewrite (handle_client_authenticated cfg reader writer env stats hs _ Hhs).
    destruct (handle_handshake_writer _ _ _ _ _ _ Hhs) as [Hw _].
    specialize (Hdd (hs_dc_idx hs)
                    (if FAST_MODE cfg then Some (hs_enc_key_and_iv hs) else None)
                    (upstream env)).
    destruct (do_direct_handshake cfg (hs_dc_idx hs) _ (upstream env))
      as [[[[rd1 wr1]|]|e1|] tr1]; cbn [snd] in Hdd; cbn [run_result run_pumps run_trace].
    + cbn [existsb is_close orb]. exact Hdd.
    + rewrite Hw. exists (EvReadExactly reader 64 :: tr1).
      split; [reflexivity|]. cbn [existsb is_close orb]. exact Hdd.
    + destruct (caught_by_wrapper e1) eqn:Hc; cbn [run_result run_pumps run_trace].
      * exists (EvReadExactly reader 64 :: tr1).
        split; [reflexivity|]. cbn [existsb is_close orb]. exact Hdd.
      * split; [reflexivity|]. split; [exact Hc|].
        cbn [existsb is_close orb app]. exact Hdd.
    + split; [reflexivity|]. cbn [existsb is_close orb app]. exact Hdd.
  - unfold handle_client. rewrite Hhs. cbn [run_result run_pumps run_trace].
    exists [EvReadExactly reader 64]. split; reflexivity.
  - unfold handle_client. rewrite Hhs. cbn [run_result].
    destruct (caught_by_wrapper e) eqn:Hc; cbn [run_result run_pumps run_trace].
    + exists [EvReadExactly reader 64]. split; reflexivity.
    + split; [reflexivity|]. split; [exact Hc|reflexivity].
  - unfold handle_client. rewrite Hhs. cbn [run_result run_pumps run_trace].
    split; reflexivity.
Qed.

(** X16.  [connects] counts authenticated handshakes.  The wrapper
    adds one to the user's [connects] exactly when the client handshake
    returned that user, whatever the upstream handshake does afterwards,
    and otherwise leaves the registry as it was; it never changes
    [curr_connects_x2] or [octets]. *)
Theorem authenticated_handshakes_are_counted (cfg : config)
    (reader writer : stream_id) (env : client_env) (stats : gmap string Counter)
    (u : string) :
  run_stats (handle_client_wrapper cfg reader writer env stats)
  = match fst (handle_handshake (USERS cfg) reader writer (client_input env)) with
    | Ok (Some hs) => update_stats (hs_user hs) 1 0 0 stats
    | _ => stats
    end
  /\ current_x2 (run_stats (handle_client_wrapper cfg reader writer env stats)) u
     = current_x2 stats u
  /\ octets (counter_of (run_stats (handle_client_wrapper cfg reader writer env stats)) u)
     = octets (counter_of stats u).
Proof.
  assert (Hs : run_stats (handle_client_wrapper cfg reader writer env stats)
               = match fst (handle_handshake (USERS cfg) reader writer
                              (client_input env)) with
                 | Ok (Some hs) => update_stats (hs_user hs) 1 0 0 stats
                 | _ => stats
                 end).
  { unfold handle_client_wrapper.
    destruct (handle_handshake (USERS cfg) reader writer (client_input env))
      as [[[hs|]|e|] tr] eqn:Hhs; cbn [fst].
    - rewrite (handle_client_authenticated cfg reader writer env stats hs _ Hhs).
      destruct (do_direct_handshake cfg (hs_dc_idx hs) _ (upstream env))
        as [[[[rd1 wr1]|]|e1|] tr1]; cbn [run_result run_stats]; try reflexivity.
      now destruct (caught_by_wrapper e1).
    - unfold handle_client. rewrite Hhs. reflexivity.
    - unfold handle_client. rewrite Hhs. cbn [run_result].
      now destruct (caught_by_wrapper e).
    - unfold handle_client. rewrite Hhs. reflexivity. }
  split; [exact Hs|]. rewrite Hs.
  destruct (fst (handle_handshake (USERS cfg) reader writer (client_input env)))
    as [[hs|]|e|]; try (split; reflexivity).
  rewrite current_x2_update_stats, counter_of_update_stats.
  destruct (bool_decide (hs_user hs = u)), (decide (hs_user hs = u));
    subst; cbn [octets]; split; lia.
Qed.
End SupervisorClosing.

(** ** The cipher object: position and initial value *)

Lemma blocks_needed_tight (r n : nat) :
  (16 * blocks_needed r n <= n - r + 15)%nat.
Proof.
  unfold blocks_needed.
  pose proof (Nat.div_mod_eq (n - r + 15) 16). lia.
Qed.

Lemma int_from_bytes_big_snoc (b : bytes) (x : Z) :
  int_from_bytes_big (b ++ [x]) = 256 * int_from_bytes_big b + x.
Proof.
  unfold int_from_bytes_big. rewrite fold_left_app. cbn [fold_left]. lia.
Qed.

Lemma counter_bytes_snoc (n : nat) (c : Z) :
  map (fun i => Z.shiftr c (8 * Z.of_nat i) mod 256) (rev (seq 0 (S n)))
  = map (fun i => Z.shiftr (Z.shiftr c 8) (8 * Z.of_nat i) mod 256) (rev (seq 0 n))
    ++ [c mod 256].
Proof.
  change (seq 0 (S n)) with (0%nat :: seq 1 n).
  cbn [rev]. rewrite map_app. cbn [map]. f_equal.
  rewrite <- seq_shift, <- map_rev, map_map.
  apply map_ext. intros i. rewrite Z.shiftr_shiftr by lia.
  do 2 f_equal. lia.
Qed.

(** Big-endian decoding followed by the counter's byte extraction gives
    the bytes back. *)
Lemma counter_bytes_of_int (b : bytes) :
  Forall is_byte b ->
  0 <= int_from_bytes_big b < 256 ^ Z.of_nat (length b)
  /\ map (fun i => Z.shiftr (int_from_bytes_big b) (8 * Z.of_nat i) mod 256)
         (rev (seq 0 (length b))) = b.
Proof.
  induction b as [|x b IH] using rev_ind; intros Hb.
  - split; [cbn; lia|reflexivity].
  - apply Forall_app in Hb as [Hb Hx].
    assert (Hx' : 0 <= x < 256) by (inversion Hx; assumption).
    destruct (IH Hb) as [Hr Hm].
    rewrite int_from_bytes_big_snoc, length_app. cbn [length].
    replace (length b + 1)%nat with (S (length b)) by lia.
    split.
    + rewrite Nat2Z.inj_succ, Z.pow_succ_r by lia. nia.
    + rewrite counter_bytes_snoc.
      rewrite Z.shiftr_div_pow2 by lia. change (2 ^ 8) with 256.
      replace ((256 * int_from_bytes_big b + x) / 256) with (int_from_bytes_big b)
        by (symmetry; rewrite Z.mul_comm; rewrite Z.div_add_l by lia;
            rewrite (Z.div_small x 256) by lia; lia).
      rewrite Hm. f_equal. f_equal.
      rewrite Z.add_comm, Z.mul_comm, Z.mod_add by lia.
      apply Z.mod_small. lia.
Qed.

Section Position.
Context `{Primitives}.

(** X17.  Where a cipher object stands after any number of calls: once
    [n] bytes in all have gone through a new object, in chunks of any
    sizes, its counter is the IV plus [ceil(n / 16)] modulo [2^128], the
    output is the XOR of the input with the first [n] keystream bytes,
    and fewer than 16 keystream bytes are kept for the next call. *)
Theorem ctr_position_after_chunks (k : bytes) (iv : Z) (chunks : list bytes) :
  snd (encrypt_chunks (create_aes k iv) chunks)
  = {| key := k;
       counter := (iv + (Z.of_nat (length (concat chunks)) + 15) / 16)
                  mod COUNTER_MODULUS;
       remaining :=
         skipn (length (concat chunks))
               (keystream_blocks k (iv mod COUNTER_MODULUS)
                  (blocks_needed 0 (length (concat chunks)))) |}
  /\ concat (fst (encrypt_chunks (create_aes k iv) chunks))
     = xor_bytes (concat chunks)
         (keystream_blocks k (iv mod COUNTER_MODULUS)
            (blocks_needed 0 (length (concat chunks))))
  /\ (length (remaining (snd (encrypt_chunks (create_aes k iv) chunks))) < 16)%nat.
Proof.
  destruct (encrypt_chunks_concat (create_aes k iv) chunks) as [E1 E2].
  rewrite E1, E2, encrypt_spec.
  cbn [fst snd create_aes key counter remaining length app].
  rewrite advance_in_range by (apply Z.mod_pos_bound; reflexivity).
  rewrite blocks_needed_fresh, Zplus_mod_idemp_l.
  split; [reflexivity|]. split; [reflexivity|].
  rewrite length_skipn, keystream_blocks_length.
  pose proof (blocks_needed_tight 0 (length (concat chunks))). lia.
Qed.

(** X18.  The IV survives the trip through [int.from_bytes(iv, "big")]
    and the counter: for 16 bytes the integer is below [2^128], so the
    counter starts at exactly that value, the first block handed to the
    block cipher is the 16 IV bytes themselves, and the first keystream
    block is their encryption under the key. *)
Theorem iv_round_trip (k iv p : bytes) :
  length iv = 16%nat ->
  Forall is_byte iv ->
  length p = 16%nat ->
  0 <= int_from_bytes_big iv < COUNTER_MODULUS
  /\ counter (create_aes k (int_from_bytes_big iv)) = int_from_bytes_big iv
  /\ counter_block (counter (create_aes k (int_from_bytes_big iv))) = iv
  /\ fst (encrypt (create_aes k (int_from_bytes_big iv)) p)
     = xor_bytes p (aes_encrypt k iv).
Proof.
  intros Hl Hb Hp.
  destruct (counter_bytes_of_int iv Hb) as [Hr Hm]. rewrite Hl in Hr, Hm.
  assert (Hrange : 0 <= int_from_bytes_big iv < COUNTER_MODULUS) by exact Hr.
  assert (Hc : counter (create_aes k (int_from_bytes_big iv)) = int_from_bytes_big iv).
  { cbn [create_aes counter]. now apply Z.mod_small. }
  assert (Hblock : counter_block (int_from_bytes_big iv) = iv) by exact Hm.
  split; [exact Hrange|]. split; [exact Hc|]. split; [now rewrite Hc|].
  rewrite encrypt_spec. cbn [fst create_aes key counter remaining length app].
  rewrite Hp. change (blocks_needed 0 16) with 1%nat.
  cbn [keystream_blocks]. rewrite app_nil_r.
  rewrite Z.mod_small by exact Hrange. now rewrite Hblock.
Qed.
End Position.

Lemma iv_round_trip_witness :
  Forall is_byte (map Z.of_nat (seq 240 16))
  /\ counter_block (counter (create_aes example_key
                               (int_from_bytes_big (map Z.of_nat (seq 240 16)))))
     = map Z.of_nat (seq 240 16).
Proof.
  assert (H1 : Forall is_byte (map Z.of_nat (seq 240 16)))
    by (repeat constructor; unfold is_byte; lia).
  split; [exact H1|].
  apply (@iv_round_trip toy_primitives example_key (map Z.of_nat (seq 240 16))
           (repeat 0 16%nat) eq_refl H1 eq_refl).
Defined.

(** ** What a returned handshake implies, and the streams after it *)

Section AfterHandshake.
Context `{Primitives}.

(** The loop over the users returns a user only from the round of a
    user whose secret decodes and shows the magic, all earlier users
    having decoded and missed. *)
Lemma handle_handshake_users_sound (h : bytes) (reader writer : stream_id)
    (users : list (string * string)) (hs : handshake_ok) :
  handle_handshake_users h reader writer users = Ok (Some hs) ->
  exists before hex rest secret,
    users = before ++ (hs_user hs, hex) :: rest
    /\ Forall (fun uh => exists s, fromhex (snd uh) = Some s
                                  /\ magic_found h s = false) before
    /\ fromhex hex = Some secret
    /\ magic_found h secret = true
    /\ hs = {| hs_reader := {| rd_stream := reader;
                               decryptor := AesCtr (snd (decrypt (trial_decryptor h secret) h)) |};
               hs_writer := {| wr_stream := writer;
                               encryptor := AesCtr (create_aes (enc_key_of h secret)
                                                      (int_from_bytes_big (enc_iv_of h))) |};
               hs_user := hs_user hs;
               hs_dc_idx :=
                 Z.abs (int_from_bytes_little_signed
                          (slice (trial_decrypt h secret) 60 62)) - 1;
               hs_enc_key_and_iv := enc_key_of h secret ++ enc_iv_of h |}.
Proof.
  induction users as [|[u hex] users IH]; [discriminate|].
  destruct (fromhex hex) as [secret|] eqn:Hhex.
  - rewrite (handle_handshake_users_cons _ _ _ _ _ _ _ Hhex).
    destruct (magic_found h secret) eqn:Hm.
    + intros [= <-]. cbn [hs_user].
      exists [], hex, users, secret. repeat split; try assumption. constructor.
    + intros E. destruct (IH E) as [before [hex' [rest [s' [-> [Hb [Hh [Hmg Hrec]]]]]]]].
      exists ((u, hex) :: before), hex', rest, s'.
      repeat split; try assumption.
      constructor; [|exact Hb]. exists secret. now split.
  - cbn [handle_handshake_users]. rewrite Hhex. discriminate.
Qed.

(** X19.  The acceptor never authenticates without the magic.  When
    [handle_handshake] returns a user, 64 bytes were read, that user is
    configured, its secret decodes and the trial decryption of the
    preamble under it shows EF EF EF EF at 56..60, and every user
    configured before it decodes and misses the magic. *)
Theorem handshake_soundness (users : list (string * string))
    (reader writer : stream_id) (input : result bytes) (hs : handshake_ok)
    (tr : list event) :
  handle_handshake users reader writer input = (Ok (Some hs), tr) ->
  exists stream before hex rest secret,
    input = Ok stream
    /\ (64 <= length stream)%nat
    /\ users = before ++ (hs_user hs, hex) :: rest
    /\ Forall (fun uh => exists s, fromhex (snd uh) = Some s
                                  /\ magic_found (firstn 64 stream) s = false) before
    /\ fromhex hex = Some secret
    /\ magic_found (firstn 64 stream) secret = true
    /\ hs_dc_idx hs
       = Z.abs (int_from_bytes_little_signed
                  (slice (trial_decrypt (firstn 64 stream) secret) 60 62)) - 1.
Proof.
  unfold handle_handshake, readexactly.
  destruct input as [stream|e|]; [|discriminate|discriminate].
  destruct (Nat.leb_spec HANDSHAKE_LEN (length stream)) as [Hlen|Hshort];
    [|discriminate].
  change (firstn HANDSHAKE_LEN stream) with (firstn 64 stream).
  intros E. injection E as E _.
  destruct (handle_handshake_users_sound _ _ _ _ _ E)
    as [before [hex [rest [secret [Hu [Hb [Hh [Hm Hrec]]]]]]]].
  exists stream, before, hex, rest, secret.
  repeat split; try assumption. rewrite Hrec. reflexivity.
Qed.

(** X20.  The reader returned by the handshake goes on where the magic
    check stopped: what it returns for the next bytes of the client is
    what decrypting the preamble and those bytes in one piece gives after
    position 64, under the key of the user returned. *)
Theorem reader_continues_after_preamble (users : list (string * string))
    (reader writer : stream_id) (stream payload : bytes) (hs : handshake_ok)
    (tr : list event) :
  handle_handshake users reader writer (Ok stream) = (Ok (Some hs), tr) ->
  exists hex secret,
    In (hs_user hs, hex) users
    /\ fromhex hex = Some secret
    /\ fst (reader_read (hs_reader hs) (Ok payload))
       = Ok (skipn 64 (fst (decrypt (trial_decryptor (firstn 64 stream) secret)
                                    (firstn 64 stream ++ payload)))).
Proof.
  unfold handle_handshake, readexactly.
  destruct (Nat.leb_spec HANDSHAKE_LEN (length stream)) as [Hlen|Hshort];
    [|discriminate].
  change (firstn HANDSHAKE_LEN stream) with (firstn 64 stream).
  change HANDSHAKE_LEN with 64%nat in Hlen.
  intros E. injection E as E _.
  destruct (handle_handshake_users_sound _ _ _ _ _ E)
    as [before [hex [rest [secret [Hu [Hb [Hh [Hm Hrec]]]]]]]].
  exists hex, secret. split; [rewrite Hu; apply in_or_app; right; now left|].
  split; [exact Hh|].
  rewrite Hrec. cbn [hs_reader]. rewrite reader_read_ok.
  cbn [fst decryptor cipher_decrypt]. unfold decrypt.
  rewrite (encrypt_app _ (firstn 64 stream) payload). cbn [fst].
  rewrite skipn_app, encrypt_length, length_firstn.
  replace (Nat.min 64 (length stream)) with 64%nat by lia.
  rewrite Nat.sub_diag, skipn_O, skipn_all2
    by (rewrite encrypt_length, length_firstn; lia).
  cbn [app].
  now destruct (encrypt (snd (encrypt _ (firstn 64 stream))) payload).
Qed.

(** X21.  The writer returned by the upstream handshake goes on where
    the preamble stopped: the bytes it hands to the transport for a
    payload are what encrypting the settled preamble and that payload in
    one piece gives after the preamble, while the reader it returns
    starts a decryption of its own at the reversed key and IV. *)
Theorem upstream_writer_continues_after_preamble (cfg : config) (dc_idx : Z)
    (reuse : option bytes) (env : upstream_env)
    (rd_tg : CryptoWrappedStreamReader) (wr_tg : CryptoWrappedStreamWriter)
    (tr : list event) (payload : bytes) :
  do_direct_handshake cfg dc_idx reuse env = (Ok (Some (rd_tg, wr_tg)), tr) ->
  exists rnd,
    upstream_preamble reuse (random_draws env) = Some rnd
    /\ fst (writer_write wr_tg payload)
       = skipn (length rnd) (fst (encrypt (upstream_encryptor rnd) (rnd ++ payload)))
    /\ fst (reader_read rd_tg (Ok payload))
       = Ok (fst (decrypt (upstream_decryptor rnd) payload)).
Proof.
  intros Hdd.
  destruct (do_direct_handshake_ok_inv _ _ _ _ _ _ _ Hdd) as [rnd [Hrnd [-> ->]]].
  exists rnd. split; [exact Hrnd|]. split.
  - unfold writer_write. cbn [encryptor cipher_encrypt].
    rewrite (encrypt_app _ rnd payload). cbn [fst].
    rewrite skipn_app, encrypt_length, Nat.sub_diag, skipn_O, skipn_all2
      by (rewrite encrypt_length; lia).
    cbn [app].
    now destruct (encrypt (snd (encrypt (upstream_encryptor rnd) rnd)) payload).
  - rewrite reader_read_ok. cbn [decryptor cipher_decrypt fst].
    now destruct (decrypt (upstream_decryptor rnd) payload).
Qed.
End AfterHandshake.

Lemma handshake_soundness_witness :
  @handle_handshake toy_primitives example_users Client Client (Ok example_preamble)
  = (Ok (Some example_hs), [EvReadExactly Client 64])
  /\ exists secret,
      @magic_found toy_primitives (firstn 64 example_preamble) secret = true.
Proof.
  assert (H1 : @handle_handshake toy_primitives example_users Client Client
                 (Ok example_preamble)
               = (Ok (Some example_hs), [EvReadExactly Client 64]))
    by (vm_compute; reflexivity).
  split; [exact H1|].
  destruct (@handshake_soundness toy_primitives example_users Client Client
              (Ok example_preamble) example_hs _ H1)
    as [stream [before [hex [rest [secret [Hi [_ [_ [_ [_ [Hm _]]]]]]]]]]].
  injection Hi as <-. now exists secret.
Defined.

Lemma reader_continues_after_preamble_witness :
  @handle_handshake toy_primitives example_users Client Client (Ok example_preamble)
  = (Ok (Some example_hs), [EvReadExactly Client 64])
  /\ exists secret,
      fst (@reader_read toy_primitives (hs_reader example_hs) (Ok [7; 8; 9]))
      = Ok (skipn 64 (fst (@decrypt toy_primitives
                             (@trial_decryptor toy_primitives
                                (firstn 64 example_preamble) secret)
                             (firstn 64 example_preamble ++ [7; 8; 9])))).
Proof.
  assert (H1 : @handle_handshake toy_primitives example_users Client Client
                 (Ok example_preamble)
               = (Ok (Some example_hs), [EvReadExactly Client 64]))
    by (vm_compute; reflexivity).
  split; [exact H1|].
  destruct (@reader_continues_after_preamble toy_primitives example_users Client Client
              example_preamble [7; 8; 9] example_hs _ H1)
    as [hex [secret [_ [_ E]]]].
  now exists secret.
Defined.

Lemma upstream_writer_continues_after_preamble_witness :
  fst (@do_direct_handshake toy_primitives example_config 1 None example_upstream)
  = Ok (Some ({| rd_stream := Upstream;
                 decryptor := AesCtr (upstream_decryptor example_wire_preamble) |},
              {| wr_stream := Upstream;
                 encryptor :=
                   AesCtr (snd (@encrypt toy_primitives
                                  (upstream_encryptor example_wire_preamble)
                                  example_wire_preamble)) |}))
  /\ exists rnd,
      fst (@writer_write toy_primitives
             {| wr_stream := Upstream;
                encryptor :=
                  AesCtr (snd (@encrypt toy_primitives
                                 (upstream_encryptor example_wire_preamble)
                                 example_wire_preamble)) |} [7; 8; 9])
      = skipn (length rnd)
              (fst (@encrypt toy_primitives (upstream_encryptor rnd) (rnd ++ [7; 8; 9]))).
Proof.
  assert (H1 : @do_direct_handshake toy_primitives example_config 1 None example_upstream
               = (Ok (Some ({| rd_stream := Upstream;
                               decryptor := AesCtr (upstream_decryptor example_wire_preamble) |},
                            {| wr_stream := Upstream;
                               encryptor :=
                                 AesCtr (snd (@encrypt toy_primitives
                                                (upstream_encryptor example_wire_preamble)
                                                example_wire_preamble)) |})),
                  snd (@do_direct_handshake toy_primitives example_config 1 None
                         example_upstream)))
    by (vm_compute; reflexivity).
  split; [now rewrite H1|].
  destruct (@upstream_writer_continues_after_preamble toy_primitives example_config 1
              None example_upstream _ _ _ [7; 8; 9] H1) as [rnd [_ [E _]]].
  now exists rnd.
Defined.

(** ** The figure printed as current connections *)

Lemma alive_count_not_started (u : string) (pumps : list pump_state) :
  Forall (fun p => pc p = NotStarted) pumps -> alive_count u pumps = 0.
Proof.
  induction 1 as [|p pumps Hp _ IH]; [reflexivity|].
  unfold alive_count in *. cbn [fold_right]. rewrite IH.
  unfold alive_of, alive. rewrite Hp. reflexivity.
Qed.

Lemma current_x2_init_stats (users : list (string * string)) (u : string) :
  current_x2 (init_stats users) u = 0.
Proof.
  unfold current_x2. rewrite init_stats_lookup.
  now destruct (decide (u ∈ map fst users)).
Qed.

(** X22.  Starting from the statistics of [init_stats] and pumps not
    yet entered, a user's [curr_connects_x2] is at every moment the
    number of that user's pumps alive, so the figure [stats_printer]
    prints, [curr_connects_x2 // 2], is half that number rounded down:
    for the two pumps of one connection it is 1 while both are alive and
    0 when one of them has not entered yet or has finished. *)
Theorem displayed_current_connections `{Primitives} (cfg : config)
    (users : list (string * string)) (pumps : list pump_state) (s : system)
    (u : string) :
  Forall (fun p => pc p = NotStarted) pumps ->
  sys_steps cfg {| sys_stats := init_stats users; sys_pumps := pumps |} s ->
  current_x2 (sys_stats s) u = alive_count u (sys_pumps s)
  /\ displayed_current (sys_stats s) u = alive_count u (sys_pumps s) / 2
  /\ (forall q1 q2, sys_pumps s = [q1; q2] -> user q1 = u -> user q2 = u ->
      displayed_current (sys_stats s) u = if alive q1 && alive q2 then 1 else 0).
Proof.
  intros Hns Hsteps.
  pose proof (sys_steps_balance cfg _ _ u Hsteps) as Hbal.
  cbn [sys_stats sys_pumps] in Hbal.
  rewrite current_x2_init_stats, (alive_count_not_started u pumps Hns) in Hbal.
  assert (Hcur : current_x2 (sys_stats s) u = alive_count u (sys_pumps s)) by lia.
  split; [exact Hcur|]. split.
  - unfold displayed_current. now rewrite Hcur.
  - intros q1 q2 Hq U1 U2. unfold displayed_current. rewrite Hcur, Hq.
    unfold alive_count, alive_of. cbn [fold_right]. rewrite U1, U2.
    rewrite bool_decide_eq_true_2 by reflexivity.
    destruct (alive q1), (alive q2); reflexivity.
Qed.

Lemma displayed_current_connections_witness :
  @sys_steps toy_primitives example_config example_system_0 example_system_1
  /\ current_x2 (sys_stats example_system_1) "tg"
     = alive_count "tg" (sys_pumps example_system_1)
  /\ displayed_current (sys_stats example_system_1) "tg" = 0.
Proof.
  assert (Hsteps : @sys_steps toy_primitives example_config example_system_0 example_system_1).
  { eapply steps_cons; [apply steps_refl|].
    apply (@step_enter toy_primitives example_config example_system_0 0 example_pump_down);
      reflexivity. }
  split; [exact Hsteps|].
  destruct (@displayed_current_connections toy_primitives example_config example_users
              [example_pump_down; example_pump_up] example_system_1 "tg"%string
              ltac:(repeat constructor) Hsteps) as [Hcur [_ Hpair]].
  split; [exact Hcur|].
  exact (Hpair _ _ eq_refl eq_refl eq_refl).
Defined.

(** ** Faults met by the supervisor *)

Section SupervisorFaults.
Context `{Primitives}.


(** X23.  A refused or otherwise failed connection attempt is
    contained.  When the client has authenticated with an index in
    range and [open_connection] raises an [OSError] of any kind, the
    wrapper ends normally: after the read of the preamble and the
    connection attempt its only further call is the close of the client
    writer, the connect has been counted and no pump is scheduled. *)
Theorem connect_failure_closes_client (cfg : config) (reader writer : stream_id)
    (env : client_env) (stats : gmap string Counter) (hs : handshake_ok)
    (tr : list event) (e : exn) :
  handle_handshake (USERS cfg) reader writer (client_input env) = (Ok (Some hs), tr) ->
  0 <= hs_dc_idx hs < 5 ->
  connect_result (upstream env) (datacenter cfg (hs_dc_idx hs)) = Raise e ->
  is_OSError e = true ->
  handle_client_wrapper cfg reader writer env stats
  = {| run_result := Ok tt;
       run_trace := [EvReadExactly reader 64;
                     EvConnect (datacenter cfg (hs_dc_idx hs)) 443;
                     EvClose writer];
       run_stats := update_stats (hs_user hs) 1 0 0 stats;
       run_pumps := [] |}.
Proof.
  intros Hhs Hdc Hconn Hos.
  destruct (handle_handshake_writer _ _ _ _ _ _ Hhs) as [Hw _].
  pose proof (handle_handshake_trace (USERS cfg) reader writer (client_input env))
    as Htr.
  rewrite Hhs in Htr. cbn [snd] in Htr. subst tr.
  unfold handle_client_wrapper.
  rewrite (handle_client_authenticated cfg reader writer env stats hs _ Hhs).
  rewrite do_direct_handshake_in_range by exact Hdc.
  cbv zeta. rewrite Hconn, Hos, Hw. reflexivity.
Qed.

End SupervisorFaults.

Lemma connect_failure_closes_client_witness :
  @handle_client_wrapper toy_primitives example_config Client Client
    example_env_refused (init_stats example_users)
  = {| run_result := Ok tt;
       run_trace := [EvReadExactly Client 64;
                     EvConnect "149.154.167.51" 443;
                     EvClose Client];
       run_stats := update_stats "tg" 1 0 0 (init_stats example_users);
       run_pumps := [] |}.
Proof.
  assert (H1 : @handle_handshake toy_primitives (USERS example_config) Client Client
                 (client_input example_env_refused)
               = (Ok (Some example_hs), [EvReadExactly Client 64]))
    by (vm_compute; reflexivity).
  exact (@connect_failure_closes_client toy_primitives example_config Client Client
           example_env_refused (init_stats example_users) example_hs _
           ConnectionRefusedError H1 ltac:(vm_compute; split; [discriminate|reflexivity])
           eq_refl eq_refl).
Defined.

